(** * OctoPrint-TheSpaghettiDetective: webcam streaming helpers

    A shallow embedding of [octoprint_thespaghettidetective/utils.py] and
    [octoprint_thespaghettidetective/webcam_stream.py], followed by the
    properties established about them.

    Conventions of the embedding
    - Python integers are [Z] (unbounded).
    - Python floats that only ever hold dyadic or caller-supplied values
      ([0.5], [0.25], [2 ** n], [random.random()]) are exact rationals [Q];
      rounding of float products is not modelled.
    - A dict is a [gmap]; [d.get(k, v)] is [default v (d !! k)].
    - A method that mutates [self] is a function returning the new [self];
      calls into the host (message bus, subprocesses, files, clock) are
      recorded in an explicit trace, and values read from the outside
      (random numbers, timestamps, environment) are arguments. *)

From Stdlib Require Import ZArith QArith Qminmax Qpower Lia Lqa List Bool Ascii String.
From Stdlib Require Import DecimalNat.
From Stdlib.Strings Require Import Byte.
From stdpp Require Import base option list gmap strings.
Import ListNotations.

Local Open Scope Z_scope.

(** ** Rational comparisons used as Python's [<] and [>] on numbers *)

Definition Qlt_bool (x y : Q) : bool := negb (Qle_bool y x).

(** ** webcam_stream.py: [bitrate_for_dim] *)

Definition bitrate_for_dim (img_w img_h : Z) : Z :=
  let dim := img_w * img_h in
  if dim <=? 480 * 270 then 200000
  else if dim <=? 960 * 540 then 1000000
  else if dim <=? 1640 * 922 then 3000000
  else 6000000.

(** The four-tier step function of the pixel area that the source's
    if-chain is said to implement. *)
Definition bitrate_tier (area : Z) : Z :=
  if area <=? 129600 then 200000
  else if area <=? 518400 then 1000000
  else if area <=? 1512080 then 3000000
  else 6000000.

(** ** utils.py: [class ExpoBackoff] *)

Module ExpoBackoff.

Record t := mk { attempts : Z; max_seconds : Q }.

(** [__init__(self, max_seconds)] *)
Definition init (max_seconds : Q) : t :=
  {| attempts := -3; max_seconds := max_seconds |}.

(** [reset(self)] *)
Definition reset (self : t) : t :=
  {| attempts := -3; max_seconds := max_seconds self |}.

(** [more(self, e)]: [random] is the value returned by
    [random.random()]; the result is the updated object and the number of
    seconds handed to [time.sleep]. The logging call is not modelled. *)
Definition more (self : t) (random : Q) : t * Q :=
  let attempts' := attempts self + 1 in
  let delay := (2 ^ attempts')%Q in
  let delay :=
    if Qlt_bool (max_seconds self) delay then max_seconds self else delay in
  let delay := (delay * ((1 # 2) + random))%Q in
  ({| attempts := attempts'; max_seconds := max_seconds self |}, delay).

(** Successive calls of [more], one per drawn random number; the sleeps
    are returned in call order. *)
Fixpoint more_seq (self : t) (randoms : list Q) : t * list Q :=
  match randoms with
  | [] => (self, [])
  | u :: randoms' =>
      let '(self1, d) := more self u in
      let '(self2, ds) := more_seq self1 randoms' in
      (self2, d :: ds)
  end.

(** The delay as the specification words it: computed from the counter
    value at the start of the call, the counter incremented afterwards. *)
Definition more_as_specified (self : t) (random : Q) : t * Q :=
  let delay := (Qmin (2 ^ attempts self) (max_seconds self)
                * ((1 # 2) + random))%Q in
  ({| attempts := attempts self + 1; max_seconds := max_seconds self |},
   delay).

End ExpoBackoff.

(** ** utils.py: [class ConnectionErrorTracker] *)

Module ConnectionErrorTracker.

(** A reading of [datetime.utcnow()]. *)
Definition datetime := Z.

(** The payload [{'new_error': error_type}] handed to
    [plugin._plugin_manager.send_plugin_message]. *)
Inductive message := new_error (error_type : string).

Record t := mk {
  attempts : gmap string Z;
  errors : gmap string (list datetime)
}.

(** [__init__(self, plugin)] *)
Definition init : t := {| attempts := ∅; errors := ∅ |}.

Definition len {A} (l : list A) : Z := Z.of_nat (length l).

(** [attempt(self, error_type)] *)
Definition attempt (self : t) (error_type : string) : t :=
  let attempts0 := default 0 (attempts self !! error_type) in
  {| attempts := <[error_type := attempts0 + 1]> (attempts self);
     errors := errors self |}.

(** [notify_client_if_needed_for_error(self, error_type)]: the messages
    sent to the host by the call (none or one). *)
Definition notify_client_if_needed_for_error (self : t) (error_type : string)
  : list message :=
  let attempts0 := default 0 (attempts self !! error_type) in
  let errors0 := default [] (errors self !! error_type) in
  if attempts0 <? 8 then []
  else if (attempts0 <? 10)
          && Qlt_bool (inject_Z (len errors0)) (inject_Z attempts0 * (1 # 2))
  then []
  else if Qlt_bool (inject_Z (len errors0)) (inject_Z attempts0 * (1 # 4))
  then []
  else [new_error error_type].

(** [add_connection_error(self, error_type)], with the clock reading as
    an argument. *)
Definition add_connection_error (self : t) (error_type : string)
    (utcnow : datetime) : t * list message :=
  let existing := default [] (errors self !! error_type) in
  let self' :=
    {| attempts := attempts self;
       errors := <[error_type := existing ++ [utcnow]]> (errors self) |} in
  (self', notify_client_if_needed_for_error self' error_type).

(** The two counters of a category as a caller observes them. *)
Definition attempt_count (self : t) (error_type : string) : Z :=
  default 0 (attempts self !! error_type).

Definition error_count (self : t) (error_type : string) : Z :=
  len (default [] (errors self !! error_type)).

(** The three tests of [notify_client_if_needed_for_error] on given
    counts: is the message sent. *)
Definition notification_due (attempts0 errors0 : Z) : bool :=
  negb (attempts0 <? 8)
  && negb ((attempts0 <? 10)
           && Qlt_bool (inject_Z errors0) (inject_Z attempts0 * (1 # 2)))
  && negb (Qlt_bool (inject_Z errors0) (inject_Z attempts0 * (1 # 4))).

(** The messages of [n] errors reported in a row, from given counts. *)
Fixpoint errors_in_a_row (ty : string) (attempts0 errors0 : Z) (n : nat)
  : list message :=
  match n with
  | O => []
  | S n' =>
      (if notification_due attempts0 (errors0 + 1) then [new_error ty] else [])
      ++ errors_in_a_row ty attempts0 (errors0 + 1) n'
  end.

(** A caller's use of the tracker: a sequence of method calls. *)
Inductive call :=
| Attempt (error_type : string)
| AddConnectionError (error_type : string) (utcnow : datetime).

Definition do_call (self : t) (c : call) : t * list message :=
  match c with
  | Attempt ty => (attempt self ty, [])
  | AddConnectionError ty now => add_connection_error self ty now
  end.

(** Runs the calls in order; the messages sent are returned in order. *)
Fixpoint run (self : t) (calls : list call) : t * list message :=
  match calls with
  | [] => (self, [])
  | c :: calls' =>
      let '(self1, msgs1) := do_call self c in
      let '(self2, msgs2) := run self1 calls' in
      (self2, msgs1 ++ msgs2)
  end.

Definition is_attempt (ty : string) (c : call) : bool :=
  match c with
  | Attempt ty' => bool_decide (ty' = ty)
  | AddConnectionError _ _ => false
  end.

Definition is_error (ty : string) (c : call) : bool :=
  match c with
  | Attempt _ => false
  | AddConnectionError ty' _ => bool_decide (ty' = ty)
  end.

(** How many calls of each kind a sequence makes for a category. *)
Definition attempt_calls (ty : string) (calls : list call) : Z :=
  len (List.filter (is_attempt ty) calls).

Definition error_calls (ty : string) (calls : list call) : Z :=
  len (List.filter (is_error ty) calls).

(** The calling discipline the counters are meant for: every try is
    announced with [attempt], and reports at most one error afterwards. *)
Definition try_calls (try : string * option datetime) : list call :=
  match try with
  | (ty, None) => [Attempt ty]
  | (ty, Some now) => [Attempt ty; AddConnectionError ty now]
  end.

Definition tries_calls (tries : list (string * option datetime)) : list call :=
  concat (List.map try_calls tries).

End ConnectionErrorTracker.

(** ** utils.py: [get_image_info] *)

Module ImageInfo.

(** The interpreter the plugin runs under. The source supports both: under
    Python 2 a byte string is a [str]; under Python 3 the [bytes] argument
    is decoded with iso-8859-1 into a text [str], one code point per byte. *)
Inductive py_version := Python2 | Python3.

Inductive exn := TypeError | UnboundLocalError | struct_error | ValueError.

(** What a call does: return a value, raise past the call boundary, or
    fail to return ([Diverges], used only when the loop bound of the
    embedding is exhausted). *)
Inductive outcome (A : Type) :=
| Returned (a : A)
| Raised (e : exn)
| Diverges.
Arguments Returned {A} a.
Arguments Raised {A} e.
Arguments Diverges {A}.

Definition bytes := list byte.

Definition len (s : bytes) : Z := Z.of_nat (length s).

(** The code point of one character. *)
Definition code (c : byte) : Z := Z.of_N (Byte.to_N c).

(** [ord(b)]: defined on strings of length one, [TypeError] otherwise. *)
Definition ord (b : bytes) : option Z :=
  match b with
  | [c] => Some (code c)
  | _ => None
  end.

(** [s[i:j]] for [0 <= i <= j]. *)
Definition slice (i j : nat) (s : bytes) : bytes := firstn (j - i) (skipn i s).

Fixpoint bytes_eqb (a b : bytes) : bool :=
  match a, b with
  | [], [] => true
  | x :: a', y :: b' => Byte.eqb x y && bytes_eqb a' b'
  | _, _ => false
  end.

(** [s.startswith(prefix)] *)
Fixpoint startswith (s prefix : bytes) : bool :=
  match prefix, s with
  | [], _ => true
  | p :: prefix', c :: s' => Byte.eqb c p && startswith s' prefix'
  | _ :: _, [] => false
  end.

(** [stream.read(n)] of a [BytesIO]: the bytes read and the rest of the
    stream; a negative [n] reads to the end. *)
Definition read (n : Z) (stream : bytes) : bytes * bytes :=
  if n <? 0 then (stream, [])
  else (firstn (Z.to_nat n) stream, skipn (Z.to_nat n) stream).

(** [struct.unpack] for the four formats used; [None] is [struct.error]
    (the argument does not have the size the format requires). *)
Definition unpack_le_HH (s : bytes) : option (Z * Z) :=
  match s with
  | [a0; a1; b0; b1] =>
      Some (code a0 + 256 * code a1, code b0 + 256 * code b1)
  | _ => None
  end.

Definition unpack_be_HH (s : bytes) : option (Z * Z) :=
  match s with
  | [a1; a0; b1; b0] =>
      Some (256 * code a1 + code a0, 256 * code b1 + code b0)
  | _ => None
  end.

Definition unpack_be_H (s : bytes) : option Z :=
  match s with
  | [a1; a0] => Some (256 * code a1 + code a0)
  | _ => None
  end.

Definition be32 (a3 a2 a1 a0 : byte) : Z :=
  16777216 * code a3 + 65536 * code a2 + 256 * code a1 + code a0.

Definition unpack_be_LL (s : bytes) : option (Z * Z) :=
  match s with
  | [a3; a2; a1; a0; b3; b2; b1; b0] =>
      Some (be32 a3 a2 a1 a0, be32 b3 b2 b1 b0)
  | _ => None
  end.

Definition GIF87a : bytes := list_byte_of_string "GIF87a".
Definition GIF89a : bytes := list_byte_of_string "GIF89a".
Definition IHDR : bytes := list_byte_of_string "IHDR".
(** ['\211PNG\r\n\032\n'] *)
Definition PNG_signature : bytes :=
  [x89; x50; x4e; x47; x0d; x0a; x1a; x0a].
(** ['\377\330'] *)
Definition JPEG_SOI : bytes := [xff; xd8].

(** The GIF and PNG branches: [struct.unpack(fmt, data[i:j])] on a slice
    of [data]. Under Python 3 [data] is the decoded text, which
    [struct.unpack] rejects with [TypeError]; no handler encloses these
    calls. *)
Definition unpack_slice (py : py_version) (content_type : string)
    (unpack : bytes -> option (Z * Z)) (s : bytes)
  : outcome (string * Z * Z) :=
  match py with
  | Python3 => Raised TypeError
  | Python2 =>
      match unpack s with
      | Some (w, h) => Returned (content_type, w, h)
      | None => Raised struct_error
      end
  end.

(** [while (ord(b) != 0xFF): b = jpeg.read(1)]; [None] is the
    [TypeError] of [ord] on the empty string read at the end of the
    stream. *)
Fixpoint read_until_ff (b : bytes) (jpeg : bytes) : option (bytes * bytes) :=
  match ord b with
  | None => None
  | Some c =>
      if negb (c =? 255) then
        match jpeg with
        | [] => None
        | x :: jpeg' => read_until_ff [x] jpeg'
        end
      else Some (b, jpeg)
  end.

(** [while (ord(b) == 0xFF): b = jpeg.read(1)] *)
Fixpoint read_while_ff (b : bytes) (jpeg : bytes) : option (bytes * bytes) :=
  match ord b with
  | None => None
  | Some c =>
      if c =? 255 then
        match jpeg with
        | [] => None
        | x :: jpeg' => read_while_ff [x] jpeg'
        end
      else Some (b, jpeg)
  end.

(** How the marker loop of the JPEG branch ends. *)
Inductive scan :=
| Found (h w : Z)        (* [break] with [h, w] bound *)
| Exhausted              (* the [while] condition became false *)
| Error (e : exn)        (* an exception left the loop *)
| NoFuel.

(** The loop [while (b and ord(b) != 0xDA): ...]. Every iteration reads
    at least one byte, so [fuel] larger than the length of the stream is
    never used up. *)
Fixpoint jpeg_markers (fuel : nat) (b : bytes) (jpeg : bytes) : scan :=
  match fuel with
  | O => NoFuel
  | S fuel' =>
      match b with
      | [] => Exhausted
      | _ :: _ =>
          match ord b with
          | None => Error TypeError
          | Some c =>
              if c =? 218 (* 0xDA *) then Exhausted
              else
                match read_until_ff b jpeg with
                | None => Error TypeError
                | Some (b1, jpeg1) =>
                    match read_while_ff b1 jpeg1 with
                    | None => Error TypeError
                    | Some (b2, jpeg2) =>
                        match ord b2 with
                        | None => Error TypeError
                        | Some m =>
                            if (192 <=? m) && (m <=? 195) then
                              let '(_, jpeg3) := read 3 jpeg2 in
                              let '(hw, _) := read 4 jpeg3 in
                              match unpack_be_HH hw with
                              | Some (h, w) => Found h w
                              | None => Error struct_error
                              end
                            else
                              let '(l, jpeg3) := read 2 jpeg2 in
                              match unpack_be_H l with
                              | None => Error struct_error
                              | Some n =>
                                  let '(_, jpeg4) := read (n - 2) jpeg3 in
                                  let '(b', jpeg5) := read 1 jpeg4 in
                                  jpeg_markers fuel' b' jpeg5
                              end
                        end
                    end
                end
          end
      end
  end.

(** [get_image_info(data)] for a byte string [data]. *)
Definition get_image_info (py : py_version) (data_bytes : bytes)
  : outcome (string * Z * Z) :=
  let data := data_bytes in
  let size := len data in
  if (10 <=? size)
     && (bytes_eqb (slice 0 6 data) GIF87a || bytes_eqb (slice 0 6 data) GIF89a)
  then unpack_slice py "image/gif" unpack_le_HH (slice 6 10 data)
  else if (24 <=? size) && startswith data PNG_signature
          && bytes_eqb (slice 12 16 data) IHDR
  then unpack_slice py "image/png" unpack_be_LL (slice 16 24 data)
  else if (16 <=? size) && startswith data PNG_signature
  then unpack_slice py "image/png" unpack_be_LL (slice 8 16 data)
  else if (2 <=? size) && startswith data JPEG_SOI
  then
    let jpeg := data_bytes in
    let '(_, jpeg) := read 2 jpeg in
    let '(b, jpeg) := read 1 jpeg in
    match jpeg_markers (S (length jpeg)) b jpeg with
    | Found h w => Returned ("image/jpeg", w, h)
    | Exhausted => Raised UnboundLocalError    (* [int(w)]: [w] unbound *)
    | Error struct_error => Returned ("image/jpeg", -1, -1)
    | Error ValueError => Returned ("image/jpeg", -1, -1)
    | Error e => Raised e
    | NoFuel => Diverges
    end
  else Returned ("", -1, -1).

(** The "unknown" result. *)
Definition unknown : outcome (string * Z * Z) := Returned ("", -1, -1).


(** Encoders for synthetic headers. *)
Definition byte_of_Z (z : Z) : byte :=
  match Byte.of_N (Z.to_N z) with
  | Some b => b
  | None => x00
  end.

Definition pack_be_H (z : Z) : bytes := [byte_of_Z (z / 256); byte_of_Z (z mod 256)].
Definition pack_le_H (z : Z) : bytes := [byte_of_Z (z mod 256); byte_of_Z (z / 256)].
Definition pack_be_L (z : Z) : bytes :=
  [byte_of_Z (z / 16777216); byte_of_Z ((z / 65536) mod 256);
   byte_of_Z ((z / 256) mod 256); byte_of_Z (z mod 256)].

(** Minimal headers: a GIF signature with the logical screen size; a PNG
    signature with an IHDR chunk (length 13) carrying the size; a JPEG
    start-of-image followed at once by a baseline SOF0 segment. *)
Definition gif_header (w h : Z) : bytes :=
  GIF89a ++ pack_le_H w ++ pack_le_H h.

Definition png_header (w h : Z) : bytes :=
  PNG_signature ++ [x00; x00; x00; x0d] ++ IHDR ++ pack_be_L w ++ pack_be_L h.

Definition jpeg_header (w h : Z) : bytes :=
  JPEG_SOI ++ [xff; xc0; x00; x11; x08] ++ pack_be_H h ++ pack_be_H w.

End ImageInfo.

(** ** utils.py: [pi_version] *)

Module PiVersion.

Local Open Scope string_scope.

Fixpoint drop (n : nat) (s : string) : string :=
  match n, s with
  | O, _ => s
  | S n', String _ s' => drop n' s'
  | S _, EmptyString => EmptyString
  end.

(** The text following the leftmost occurrence of [pat] in [s]. *)
Fixpoint after_first (pat s : string) : option string :=
  if String.prefix pat s then Some (drop (String.length pat) s)
  else
    match s with
    | EmptyString => None
    | String _ s' => after_first pat s'
    end.

(** What [.*] matches at the start of [s]: everything up to the first
    line feed. *)
Fixpoint to_end_of_line (s : string) : string :=
  match s with
  | EmptyString => EmptyString
  | String c s' =>
      if Ascii.eqb c "010"%char then EmptyString
      else String c (to_end_of_line s')
  end.

Definition lower (c : ascii) : ascii :=
  let n := nat_of_ascii c in
  if (65 <=? n)%nat && (n <=? 90)%nat then ascii_of_nat (n + 32) else c.

Fixpoint lowercase (s : string) : string :=
  match s with
  | EmptyString => EmptyString
  | String c s' => String (lower c) (lowercase s')
  end.

(** [re.search(pat, s, re.IGNORECASE)] for a literal [pat]: is there a
    match. *)
Definition search_ignorecase (pat s : string) : bool :=
  match after_first (lowercase pat) (lowercase s) with
  | Some _ => true
  | None => false
  end.

(** [pi_version()]. [firmware_model] is the content of
    [/sys/firmware/devicetree/base/model], or [None] when the file cannot
    be opened. A failed [re.search] makes [.group(1)] raise, which the
    bare [except] turns into [None]. *)
Definition pi_version (firmware_model : option string) : option string :=
  match firmware_model with
  | None => None
  | Some text =>
      match after_first "Raspberry Pi" text with
      | None => None
      | Some rest =>
          let model := to_end_of_line rest in
          if negb (String.eqb model "") then
            if search_ignorecase "Zero" model then Some "0" else Some "3"
          else None
      end
  end.

End PiVersion.

(** ** webcam_stream.py: [class WebcamStreamer] *)

Module WebcamStreamer.

(** Handles of the external objects the streamer holds. All of them are
    truthy Python objects, so [if self.x:] tests for [None]. *)
Definition Popen := nat.
Definition PiCamera := nat.

(** Calls that leave the plugin. *)
Inductive action :=
| requests_post_shutdown          (* requests.post('http://127.0.0.1:8080/shutdown') *)
| terminate (p : Popen)           (* p.terminate() *)
| stop_recording (c : PiCamera)   (* c.stop_recording() *)
| close (c : PiCamera)            (* c.close() *)
| service_webcamd_start           (* sarge.run('sudo service webcamd start') *)
| os_remove_lease                 (* os.remove(CAM_EXCLUSIVE_USE) *)
| touch_lease                     (* open(CAM_EXCLUSIVE_USE, 'a').close() *)
| send_new_warning (w : string)   (* send_plugin_message(..., {'new_warning': w}) *)
| sleep (seconds : Z)             (* time.sleep(seconds) *)
| websocket_client (url : string) (* WebSocketClient(url, ...) run on a daemon thread *)
| logger_warn (msg : string)
| logger_error.

(** The outside world: whether the file [CAM_EXCLUSIVE_USE] (the camera
    lease) exists, and the calls made so far, each with whether it
    raised. *)
Record world := mk_world {
  cam_exclusive_use : bool;
  calls : list (action * bool)
}.

(** Which external calls raise, as decided by the outside. *)
Definition oracle := action -> bool.

Definition call (raises : oracle) (a : action) (w : world) : world :=
  {| cam_exclusive_use := cam_exclusive_use w;
     calls := calls w ++ [(a, raises a)] |}.

(** utils.py [not_using_pi_camera()]: [os.remove] fails when the file is
    absent or cannot be removed; either way the error is swallowed. *)
Definition not_using_pi_camera (raises : oracle) (w : world) : world :=
  let failed := negb (cam_exclusive_use w) || raises os_remove_lease in
  {| cam_exclusive_use := if failed then cam_exclusive_use w else false;
     calls := calls w ++ [(os_remove_lease, failed)] |}.

(** utils.py [using_pi_camera()], when the file can be created. *)
Definition using_pi_camera (w : world) : world :=
  {| cam_exclusive_use := true;
     calls := calls w ++ [(touch_lease, false)] |}.

Record t := mk {
  pi_camera : option PiCamera;
  janus_ws : option string;
  webcam_server : option nat;
  gst_proc : option Popen;
  ffmpeg_proc : option Popen;
  janus_proc : option Popen;
  shutting_down : bool
}.

(** [__init__(self, plugin)] *)
Definition init : t :=
  {| pi_camera := None; janus_ws := None; webcam_server := None;
     gst_proc := None; ffmpeg_proc := None; janus_proc := None;
     shutting_down := false |}.

(** How a method ends. *)
Inductive completion := Normal | Exception.

(** [if h: try: f(h) except: pass] *)
Definition if_started {H} (raises : oracle) (h : option H)
    (f : H -> list action) (w : world) : world :=
  match h with
  | Some x => fold_left (fun w a => call raises a w) (f x) w
  | None => w
  end.

(** [restore(self)]. Every call but the service restart sits in its own
    [try: ... except: pass]; an exception of the service restart leaves
    the method before the four handles are cleared. *)
Definition restore (raises : oracle) (self : t) (w : world)
  : completion * t * world :=
  let self :=
    {| pi_camera := pi_camera self; janus_ws := janus_ws self;
       webcam_server := webcam_server self; gst_proc := gst_proc self;
       ffmpeg_proc := ffmpeg_proc self; janus_proc := janus_proc self;
       shutting_down := true |} in
  let w := call raises requests_post_shutdown w in
  let w := if_started raises (janus_proc self) (fun p => [terminate p]) w in
  let w := if_started raises (gst_proc self) (fun p => [terminate p]) w in
  let w := if_started raises (ffmpeg_proc self) (fun p => [terminate p]) w in
  let w := if_started raises (pi_camera self)
             (fun c => [stop_recording c; close c]) w in
  let w := call raises service_webcamd_start w in
  if raises service_webcamd_start then (Exception, self, w)
  else
    (Normal,
     {| pi_camera := None; janus_ws := janus_ws self;
        webcam_server := webcam_server self; gst_proc := None;
        ffmpeg_proc := None; janus_proc := None;
        shutting_down := shutting_down self |},
     w).

(** The object [restore] leaves behind when it returns. *)
Definition restored (self : t) : t :=
  {| pi_camera := None; janus_ws := janus_ws self;
     webcam_server := webcam_server self; gst_proc := None;
     ffmpeg_proc := None; janus_proc := None; shutting_down := true |}.

(** Two calls of [restore] in a row; the second is reached only when the
    first returns. *)
Definition restore_twice (raises1 raises2 : oracle) (self : t) (w : world)
  : completion * t * world :=
  match restore raises1 self w with
  | (Normal, self1, w1) => restore raises2 self1 w1
  | r => r
  end.

(** The [except:] clause of [video_pipeline]. *)
Definition on_pipeline_failure (raises : oracle) (self : t) (w : world)
  : completion * t * world :=
  let w := not_using_pi_camera raises w in
  let w := call (fun _ => false) (send_new_warning "streaming") w in
  let w := call (fun _ => false) (sleep 3) w in
  match restore raises self w with
  | (Normal, self, w) => (Normal, self, call (fun _ => false) logger_error w)
  | r => r
  end.

(** Python truthiness of the result of [os.getenv]. *)
Definition truthy (v : option string) : bool :=
  match v with
  | Some s => negb (String.eqb s "")
  | None => false
  end.

(** What the pipeline reads from the host: the environment variable
    [JANUS_SERVER] and the firmware model file. *)
Record environment := mk_env {
  getenv_JANUS_SERVER : option string;
  firmware_model : option string
}.

(** The module constant
    [JANUS_SERVER = os.getenv('JANUS_SERVER', '127.0.0.1')], read when the
    module is loaded; the variable is taken not to change afterwards. *)
Definition JANUS_SERVER (env : environment) : string :=
  default "127.0.0.1"%string (getenv_JANUS_SERVER env).

(** ['ws://{}:8188/'.format(JANUS_SERVER)] *)
Definition tunnel_url (env : environment) : string :=
  ("ws://" ++ JANUS_SERVER env ++ ":8188/")%string.

(** [start_janus_ws_tunnel(self)] *)
Definition start_janus_ws_tunnel (env : environment) (self : t) (w : world)
  : t * world :=
  ({| pi_camera := pi_camera self; janus_ws := Some (tunnel_url env);
      webcam_server := webcam_server self; gst_proc := gst_proc self;
      ffmpeg_proc := ffmpeg_proc self; janus_proc := janus_proc self;
      shutting_down := shutting_down self |},
   call (fun _ => false) (websocket_client (tunnel_url env)) w).

Section VideoPipeline.

(** The body of the [try:] block of [video_pipeline] (compatibility
    mode, camera detection, and the three strategies), taken as given:
    it starts the local processes and may raise. *)
Variable managed_pipeline : t -> world -> completion * t * world.

(** [video_pipeline(self)] *)
Definition video_pipeline (env : environment) (raises : oracle)
    (self : t) (w : world) : completion * t * world :=
  if truthy (getenv_JANUS_SERVER env) then
    let '(self, w) := start_janus_ws_tunnel env self w in
    (Normal, self, w)
  else if negb (truthy (PiVersion.pi_version (firmware_model env))) then
    (Normal, self,
     call (fun _ => false)
       (logger_warn "Not running on a Pi. Quiting video_pipeline.") w)
  else
    match managed_pipeline self w with
    | (Normal, self, w) => (Normal, self, w)
    | (Exception, self, w) => on_pipeline_failure raises self w
    end.

End VideoPipeline.

(** Calls that start or stop a local component (process, camera, service,
    frame server), as opposed to the tunnel, logging and host messages. *)
Definition manages_component (a : action) : bool :=
  match a with
  | requests_post_shutdown | terminate _ | stop_recording _ | close _
  | service_webcamd_start | os_remove_lease | touch_lease => true
  | send_new_warning _ | sleep _ | websocket_client _
  | logger_warn _ | logger_error => false
  end.

End WebcamStreamer.

(** ** webcam_stream.py: [PiCamWebServer.get_snapshot] *)

Module PiCamWebServer.

(** What one iteration of the loop observes: the frame handed out by
    [self.img_q.get()], and [time.time() - self.last_capture] as read
    under the mutex, in seconds. *)
Record pull := mk_pull { chunk : list byte; gap : Q }.

Definition fresh (p : pull) : bool := Qlt_bool (gap p) (1 # 10).

(** The [while True:] loop, run against the frames the queue delivers.
    [pulled] counts the calls of [img_q.get()] made so far. [None]: the
    loop is still waiting in [img_q.get()] when the frames run out. *)
Fixpoint snapshot_loop (possible_stale_pics : Z) (pulls : list pull)
    (pulled : nat) : option (list byte * nat) :=
  match pulls with
  | [] => None
  | p :: pulls' =>
      if fresh p then
        let possible_stale_pics := possible_stale_pics - 1 in
        if possible_stale_pics <=? 0 then Some (chunk p, S pulled)
        else snapshot_loop possible_stale_pics pulls' (S pulled)
      else snapshot_loop possible_stale_pics pulls' (S pulled)
  end.

(** [get_snapshot(self)]: the frame sent and the number of queue pulls
    made. *)
Definition get_snapshot (pulls : list pull) : option (list byte * nat) :=
  snapshot_loop 3 pulls 0.

Definition fresh_count (pulls : list pull) : nat :=
  length (List.filter fresh pulls).

End PiCamWebServer.

(** ** utils.py: [ConnectionErrorTracker.as_dict] and the error log *)

Module ConnectionErrorLog.

(** [as_dict(self)] *)
Definition as_dict (self : ConnectionErrorTracker.t)
  : gmap string (list ConnectionErrorTracker.datetime) :=
  ConnectionErrorTracker.errors self.

(** The clock readings a call hands to the log of category [ty]. *)
Definition reported (ty : string) (c : ConnectionErrorTracker.call)
  : list ConnectionErrorTracker.datetime :=
  match c with
  | ConnectionErrorTracker.Attempt _ => []
  | ConnectionErrorTracker.AddConnectionError ty' now =>
      if bool_decide (ty' = ty) then [now] else []
  end.

Definition timestamps_for (ty : string)
    (calls : list ConnectionErrorTracker.call)
  : list ConnectionErrorTracker.datetime :=
  flat_map (reported ty) calls.

End ConnectionErrorLog.

(** ** JPEG streams, for the marker loop of [get_image_info] *)

Module JpegStream.


(** Markers the loop steps over: anything but 0xFF and SOF0..SOF3. *)
Definition skippable (m : byte) : bool :=
  negb (ImageInfo.code m =? 255)
  && negb ((192 <=? ImageInfo.code m) && (ImageInfo.code m <=? 195)).




End JpegStream.

(** ** webcam_stream.py: the process monitors
    ([monitor_ffmpeg_process], [ensure_gst_process], [run_janus]) *)

Module Supervisor.

(** [collections.deque(maxlen=...)].append: a full buffer drops its
    leftmost element. *)
Definition deque_append {A} (maxlen : nat) (d : list A) (x : A) : list A :=
  if (length d <? maxlen)%nat then d ++ [x] else skipn 1 d ++ [x].

(** The loop body [ring_buffer.append(err)] over the lines read from a
    process until its end of file, from [deque(maxlen=50)]. *)
Definition ring_buffer (lines : list string) : list string :=
  fold_left (deque_append 50) lines [].

(** What a monitor does besides reading. *)
Inductive effect :=
| wait (returncode : Z)          (* proc.wait() and the code it returns *)
| log (lines : list string)      (* a log record carrying these lines *)
| backoff_more (delay : Q)       (* ExpoBackoff.more: logs, sleeps [delay] *)
| popen.                         (* subprocess.Popen of the command again *)

(** One life of a monitored process as its monitor sees it: the lines it
    writes before end of file, the value of [self.shutting_down] read at
    end of file, the exit code, and the random draw of the backoff. *)
Record life := mk_life {
  lines : list string;
  shutting_down : bool;
  returncode : Z;
  random : Q
}.

(** [monitor_ffmpeg_process()] in [start_ffmpeg]. *)
Definition monitor_ffmpeg_process (l : life) : list effect :=
  let ring := ring_buffer (lines l) in
  if shutting_down l then []
  else [wait (returncode l); log ring].

(** [ensure_gst_process()] in [start_gst], from the state of
    [gst_backoff]; the second component tells whether the function
    returned ([false]: it is still reading when the lives run out). *)
Fixpoint ensure_gst_process_from (gst_backoff : ExpoBackoff.t)
    (lives : list life) : list effect * bool :=
  match lives with
  | [] => ([], false)
  | l :: lives' =>
      let ring := ring_buffer (lines l) in
      if shutting_down l then ([], true)
      else
        let '(gst_backoff', delay) := ExpoBackoff.more gst_backoff (random l) in
        let '(effects, returned) := ensure_gst_process_from gst_backoff' lives' in
        (wait (returncode l) :: log ring :: backoff_more delay :: popen
         :: effects, returned)
  end.

Definition ensure_gst_process (lives : list life) : list effect * bool :=
  ensure_gst_process_from (ExpoBackoff.init (60 * 10)) lives.

(** What one turn of the loop of [run_janus] reads from the process. *)
Inductive janus_read :=
| janus_line (l : string)
| janus_eof (shutting_down_now : bool) (returncode : Z) (random : Q).

(** One turn: [self.shutting_down] as read by the [while] test, then the
    read. *)
Record janus_turn := mk_turn {
  shutting_down_at_test : bool;
  read : janus_read
}.

Fixpoint run_janus_from (janus_backoff : ExpoBackoff.t)
    (turns : list janus_turn) : list effect * bool :=
  match turns with
  | [] => ([], false)
  | t :: turns' =>
      if shutting_down_at_test t then ([], true)
      else
        match read t with
        | janus_line l =>
            let '(effects, returned) := run_janus_from janus_backoff turns' in
            (log [l] :: effects, returned)
        | janus_eof true _ _ => run_janus_from janus_backoff turns'
        | janus_eof false rc u =>
            let '(janus_backoff', delay) := ExpoBackoff.more janus_backoff u in
            let '(effects, returned) := run_janus_from janus_backoff' turns' in
            (wait rc :: backoff_more delay :: popen :: effects, returned)
        end
  end.

(** [run_janus()] in [start_janus]: the first [Popen], then the loop. *)
Definition run_janus (turns : list janus_turn) : list effect * bool :=
  let '(effects, returned) := run_janus_from (ExpoBackoff.init (60 * 1)) turns in
  (popen :: effects, returned).

(** Readings of a list of effects. *)
Definition delays (effects : list effect) : list Q :=
  flat_map (fun e => match e with backoff_more d => [d] | _ => [] end) effects.

Definition spawns (effects : list effect) : nat :=
  length (List.filter (fun e => match e with popen => true | _ => false end)
            effects).

Definition logged (effects : list effect) : list (list string) :=
  flat_map (fun e => match e with log ls => [ls] | _ => [] end) effects.

(** The lives that end while the plugin is not shutting down. *)
Fixpoint unexpected (lives : list life) : list life :=
  match lives with
  | [] => []
  | l :: lives' => if shutting_down l then [] else l :: unexpected lives'
  end.

(** The random draws of the unexpected ends of file seen by [run_janus]
    before it returns. *)
Fixpoint janus_restarts (turns : list janus_turn) : list Q :=
  match turns with
  | [] => []
  | t :: turns' =>
      if shutting_down_at_test t then []
      else
        match read t with
        | janus_eof false _ u => u :: janus_restarts turns'
        | _ => janus_restarts turns'
        end
  end.

End Supervisor.

(** ** webcam_stream.py: the callbacks of [start_janus_ws_tunnel] *)

Module Tunnel.

(** What the websocket reports: it closed (with [self.shutting_down] as
    [on_close] reads it after its sleep, and the random draw of the
    backoff), or a message arrived (with what
    [plugin.send_ws_msg_to_server] returned). *)
Inductive event :=
| closed (shutting_down : bool) (random : Q)
| message (relayed : bool).

Inductive effect :=
| slept (delay : Q)      (* self.janus_ws_backoff.more(...) *)
| reopened.              (* self.start_janus_ws_tunnel() *)

(** [on_close(ws)] *)
Definition on_close (janus_ws_backoff : ExpoBackoff.t) (shutting_down : bool)
    (random : Q) : ExpoBackoff.t * list effect :=
  let '(b, delay) := ExpoBackoff.more janus_ws_backoff random in
  (b, slept delay :: (if negb shutting_down then [reopened] else [])).

(** [on_message(ws, msg)] *)
Definition on_message (janus_ws_backoff : ExpoBackoff.t) (relayed : bool)
  : ExpoBackoff.t :=
  if relayed then ExpoBackoff.reset janus_ws_backoff else janus_ws_backoff.

(** The callbacks run over a sequence of events; every reopened tunnel
    has the same callbacks and shares [self.janus_ws_backoff]. *)
Fixpoint handle (janus_ws_backoff : ExpoBackoff.t) (events : list event)
  : ExpoBackoff.t * list effect :=
  match events with
  | [] => (janus_ws_backoff, [])
  | closed sd u :: events' =>
      let '(b, effects) := on_close janus_ws_backoff sd u in
      let '(b', effects') := handle b events' in
      (b', effects ++ effects')
  | message relayed :: events' =>
      handle (on_message janus_ws_backoff relayed) events'
  end.

Definition sleeps (effects : list effect) : list Q :=
  flat_map (fun e => match e with slept d => [d] | reopened => [] end) effects.

Definition reopenings (effects : list effect) : nat :=
  length (List.filter (fun e => match e with reopened => true | _ => false end)
            effects).

Definition close_draws (events : list event) : list Q :=
  flat_map (fun e => match e with closed _ u => [u] | message _ => [] end)
    events.

Definition live_closes (events : list event) : nat :=
  length (List.filter
            (fun e => match e with closed sd _ => negb sd | message _ => false end)
            events).

Definition no_relay (events : list event) : bool :=
  forallb (fun e => match e with message true => false | _ => true end) events.

End Tunnel.

(** ** webcam_stream.py: [UsbCamWebServer.next_jpg] *)

Module UsbCamWebServer.

Definition is_digit (c : byte) : bool :=
  (48 <=? ImageInfo.code c) && (ImageInfo.code c <=? 57).

(** What [\d+] matches at the start of [s] (empty: no match). *)
Fixpoint digits (s : ImageInfo.bytes) : ImageInfo.bytes :=
  match s with
  | [] => []
  | c :: s' => if is_digit c then c :: digits s' else []
  end.

(** [int(ds)] for a run of digits. *)
Definition int_of (ds : ImageInfo.bytes) : Z :=
  fold_left (fun acc c => 10 * acc + (ImageInfo.code c - 48)) ds 0.

Definition Content_Length : ImageInfo.bytes :=
  list_byte_of_string "Content-Length: ".

(** [re.search(r"Content-Length: (\d+)", s)] on the text from offset
    [pos] on: the leftmost match, as [int(header.group(1))] and
    [header.end()]. *)
Fixpoint search_from (pos : nat) (s : ImageInfo.bytes) : option (Z * nat) :=
  match s with
  | [] => None
  | _ :: s' =>
      if ImageInfo.startswith s Content_Length then
        match digits (skipn 16 s) with
        | [] => search_from (S pos) s'
        | d :: ds => Some (int_of (d :: ds), (pos + 16 + length (d :: ds))%nat)
        end
      else search_from (S pos) s'
  end.

(** What a call of [s.recv(n)] meets: some bytes have arrived
    ([available], 0 once the peer has closed), or the socket fails.
    [recv(n)] then returns the first [min(n, available)] bytes of the
    stream. A failure of [s.connect] is a failure of the first call. *)
Inductive recv_event := arrived (available : nat) | socket_error.

Inductive outcome :=
| frame (jpg : ImageInfo.bytes)   (* the value returned *)
| header_not_found                (* Exception('Multiart header not found!') *)
| socket_failed                   (* socket.timeout / socket.error, re-raised *)
| waiting.                        (* still in the loop when the events run out *)

(** [while length > len(chunk): chunk.extend(s.recv(length-len(chunk)))],
    then [chunk[:length]]. *)
Fixpoint fill (length0 : nat) (chunk stream : ImageInfo.bytes)
    (recvs : list recv_event) : outcome :=
  if (length chunk <? length0)%nat then
    match recvs with
    | [] => waiting
    | socket_error :: _ => socket_failed
    | arrived k :: recvs' =>
        let n := Nat.min (length0 - length chunk) k in
        fill length0 (chunk ++ firstn n stream) (skipn n stream) recvs'
    end
  else frame (firstn length0 chunk).

(** [next_jpg(self)] against the bytes [stream] that the peer sends. *)
Definition next_jpg (stream : ImageInfo.bytes) (recvs : list recv_event)
  : outcome :=
  match recvs with
  | [] => waiting
  | socket_error :: _ => socket_failed
  | arrived k :: recvs' =>
      let chunk := firstn (Nat.min 100 k) stream in
      let stream := skipn (Nat.min 100 k) stream in
      match search_from 0 chunk with
      | None => header_not_found
      | Some (length0, header_end) =>
          fill (Z.to_nat length0) (skipn (header_end + 4) chunk) stream recvs'
      end
  end.

Definition delivers (r : recv_event) : Prop :=
  match r with
  | arrived k => (0 < k)%nat
  | socket_error => False
  end.

Definition no_error (r : recv_event) : Prop :=
  match r with
  | arrived _ => True
  | socket_error => False
  end.

End UsbCamWebServer.

(** ** webcam_stream.py: [PiCamWebServer.mjpeg_generator] *)

Module PiCamMjpeg.

Fixpoint bytes_of_uint (d : Decimal.uint) : ImageInfo.bytes :=
  match d with
  | Decimal.Nil => []
  | Decimal.D0 d => x30 :: bytes_of_uint d
  | Decimal.D1 d => x31 :: bytes_of_uint d
  | Decimal.D2 d => x32 :: bytes_of_uint d
  | Decimal.D3 d => x33 :: bytes_of_uint d
  | Decimal.D4 d => x34 :: bytes_of_uint d
  | Decimal.D5 d => x35 :: bytes_of_uint d
  | Decimal.D6 d => x36 :: bytes_of_uint d
  | Decimal.D7 d => x37 :: bytes_of_uint d
  | Decimal.D8 d => x38 :: bytes_of_uint d
  | Decimal.D9 d => x39 :: bytes_of_uint d
  end.

(** ['{}'.format(n)] for a length [n]: its decimal digits. *)
Definition format_int (n : nat) : ImageInfo.bytes :=
  bytes_of_uint (Nat.to_uint n).

Definition CRLF : ImageInfo.bytes := [x0d; x0a].

(** [hdr = '--%s\r\nContent-Type: image/jpeg\r\n' % boundary] *)
Definition hdr (boundary : ImageInfo.bytes) : ImageInfo.bytes :=
  list_byte_of_string "--" ++ boundary ++ CRLF
  ++ list_byte_of_string "Content-Type: image/jpeg" ++ CRLF.

(** One yielded value:
    [(prefix + hdr + 'Content-Length: {}\r\n\r\n'.format(len(chunk)))
     .encode('iso-8859-1') + chunk]. *)
Definition part (prefix boundary chunk : ImageInfo.bytes) : ImageInfo.bytes :=
  prefix ++ hdr boundary ++ UsbCamWebServer.Content_Length
  ++ format_int (length chunk) ++ CRLF ++ CRLF ++ chunk.

(** The loop of the generator over the frames the queue hands out;
    [prefix] is [''] for the first part and ['\r\n'] afterwards. *)
Fixpoint mjpeg_generator_from (prefix boundary : ImageInfo.bytes)
    (chunks : list ImageInfo.bytes) : list ImageInfo.bytes :=
  match chunks with
  | [] => []
  | chunk :: chunks' =>
      part prefix boundary chunk :: mjpeg_generator_from CRLF boundary chunks'
  end.

(** [mjpeg_generator(self, boundary)] *)
Definition mjpeg_generator (boundary : ImageInfo.bytes)
    (chunks : list ImageInfo.bytes) : list ImageInfo.bytes :=
  mjpeg_generator_from [] boundary chunks.

(** The boundary [get_mjpeg] passes. *)
Definition herebedragons : ImageInfo.bytes :=
  list_byte_of_string "herebedragons".

(** No match of [Content-Length: ] starts inside [p] when [p] is followed
    by that text. *)
Fixpoint no_header_in (p : ImageInfo.bytes) : bool :=
  match p with
  | [] => true
  | _ :: p' =>
      negb (ImageInfo.startswith (p ++ UsbCamWebServer.Content_Length)
              UsbCamWebServer.Content_Length)
      && no_header_in p'
  end.

End PiCamMjpeg.

(** ** The [backoff.on_exception] decorator *)

Module Retry.

Section OnException.

Context {S : Type}.

(** The decorated function: given the number of the try (from 0) and the
    state before it, how the try ends and the state after it. *)
Variable f : nat -> S -> WebcamStreamer.completion * S.

(** Tries from number [n] on with [retries] further tries allowed after
    this one; the result carries the number of tries made in all. The
    waits between tries are not recorded. *)
Fixpoint run_from (retries n : nat) (s : S)
  : WebcamStreamer.completion * S * nat :=
  match f n s with
  | (WebcamStreamer.Normal, s') => (WebcamStreamer.Normal, s', Datatypes.S n)
  | (WebcamStreamer.Exception, s') =>
      match retries with
      | O => (WebcamStreamer.Exception, s', Datatypes.S n)
      | Datatypes.S retries' => run_from retries' (Datatypes.S n) s'
      end
  end.

(** [@backoff.on_exception(..., Exception, max_tries=max_tries)], for
    [max_tries >= 1]: the exception of the last allowed try escapes. *)
Definition on_exception (max_tries : nat) (s : S)
  : WebcamStreamer.completion * S * nat :=
  run_from (max_tries - 1) 0 s.

End OnException.

End Retry.

(** ** webcam_stream.py: [WebcamStreamer.start_gst] *)

Module StartGst.

(** One [subprocess.Popen(gst_cmd, ...)]: whether it raises, the handle
    it returns, and what [poll()] returns at each of the polls that
    follow ([None]: still running). *)
Record spawn := mk_spawn {
  popen_raises : bool;
  handle : WebcamStreamer.Popen;
  polls : nat -> option Z
}.

Inductive effect :=
| spawned (p : WebcamStreamer.Popen)
| communicated (p : WebcamStreamer.Popen)   (* communicate(), then raise *)
| slept_one_second
| monitor_started (p : WebcamStreamer.Popen). (* the ensure_gst_process thread *)

(** [for i in range(5): ...]: polls number [i] onwards, [left] of them;
    the effects, and whether the loop raised. *)
Fixpoint poll_loop (p : WebcamStreamer.Popen) (polls : nat -> option Z)
    (i left : nat) : list effect * bool :=
  match left with
  | O => ([], false)
  | S left' =>
      match polls i with
      | Some rc =>
          if negb (rc =? 0) then ([communicated p], true)
          else
            let '(effects, raised) := poll_loop p polls (S i) left' in
            (slept_one_second :: effects, raised)
      | None =>
          let '(effects, raised) := poll_loop p polls (S i) left' in
          (slept_one_second :: effects, raised)
      end
  end.

Definition set_gst_proc (self : WebcamStreamer.t)
    (p : option WebcamStreamer.Popen) : WebcamStreamer.t :=
  {| WebcamStreamer.pi_camera := WebcamStreamer.pi_camera self;
     WebcamStreamer.janus_ws := WebcamStreamer.janus_ws self;
     WebcamStreamer.webcam_server := WebcamStreamer.webcam_server self;
     WebcamStreamer.gst_proc := p;
     WebcamStreamer.ffmpeg_proc := WebcamStreamer.ffmpeg_proc self;
     WebcamStreamer.janus_proc := WebcamStreamer.janus_proc self;
     WebcamStreamer.shutting_down := WebcamStreamer.shutting_down self |}.

(** The body of [start_gst], for one try. *)
Definition start_gst_try (sp : spawn)
    (st : WebcamStreamer.t * list effect)
  : WebcamStreamer.completion * (WebcamStreamer.t * list effect) :=
  let '(self, effects) := st in
  if popen_raises sp then (WebcamStreamer.Exception, (self, effects))
  else
    let self := set_gst_proc self (Some (handle sp)) in
    let '(polled, raised) := poll_loop (handle sp) (polls sp) 0 5 in
    if raised then
      (WebcamStreamer.Exception,
       (self, effects ++ spawned (handle sp) :: polled))
    else
      (WebcamStreamer.Normal,
       (self, effects ++ spawned (handle sp) :: polled
                      ++ [monitor_started (handle sp)])).

(** [start_gst(self)] with its decorator ([max_tries=6]); [spawns n] is
    what the [n]-th [Popen] meets. *)
Definition start_gst (spawns : nat -> spawn) (self : WebcamStreamer.t)
  : WebcamStreamer.completion * (WebcamStreamer.t * list effect) * nat :=
  Retry.on_exception (fun n => start_gst_try (spawns n)) 6 (self, []).

(** A spawn that gets through the body: [Popen] returns and none of the
    five polls reports a non-zero exit code. *)
Definition healthy (sp : spawn) : bool :=
  negb (popen_raises sp)
  && forallb (fun i => match polls sp i with
                       | Some rc => rc =? 0
                       | None => true
                       end) (seq 0 5).

Definition monitors (effects : list effect) : list WebcamStreamer.Popen :=
  flat_map (fun e => match e with monitor_started p => [p] | _ => [] end)
    effects.

End StartGst.

(** ** webcam_stream.py: [WebcamStreamer.__init_camera__] *)

Module InitCamera.




(** The exceptions the method tells apart. *)
Inductive raised := PiCameraError | other_error.

(** What one try meets outside the method. *)
Record attempt := mk_attempt {
  import_raises : bool;                   (* import picamera *)
  touch_raises : bool;                    (* open(CAM_EXCLUSIVE_USE, 'a') *)
  camera : raised + WebcamStreamer.PiCamera; (* picamera.PiCamera() *)
  framerate_setter : option raised;       (* self.pi_camera.framerate = 20 *)
  resolution_setter : option raised;      (* self.pi_camera.resolution = ... *)
  remove_raises : bool;                   (* os.remove(CAM_EXCLUSIVE_USE) *)
  video0_exists : bool                    (* os.path.exists('/dev/video0') *)
}.











End InitCamera.

(** ** webcam_stream.py: [WebcamStreamer.ffmpeg_from_mjpeg] *)

Module MjpegFallback.

(** How the method ends, as far as the encoder's parameters go. *)
Inductive result :=
| start_ffmpeg (bitrate img_w img_h : Z)
    (* start_ffmpeg('... -b:v {bitrate} ... -s {img_w}x{img_h} ...') *)
| capture_raised                  (* the last [capture_jpeg] raised *)
| get_image_info_raised (e : ImageInfo.exn)
| no_result.                      (* loop bound of the embedding only *)

(** [wait_for_webcamd(webcam_settings)]: [capture_jpeg] under
    [backoff.on_exception(..., max_tries=4)]; [captures n] is what the
    [n]-th call returns, [None] when it raises. *)
Definition wait_for_webcamd (captures : nat -> option ImageInfo.bytes)
  : WebcamStreamer.completion * option ImageInfo.bytes * nat :=
  Retry.on_exception
    (fun n (_ : option ImageInfo.bytes) =>
       match captures n with
       | Some jpg => (WebcamStreamer.Normal, Some jpg)
       | None => (WebcamStreamer.Exception, None)
       end)
    4 None.

(** [ffmpeg_from_mjpeg(self)], after the service restart. *)
Definition ffmpeg_from_mjpeg (py : ImageInfo.py_version)
    (captures : nat -> option ImageInfo.bytes) : result :=
  match wait_for_webcamd captures with
  | (WebcamStreamer.Normal, Some jpg, _) =>
      match ImageInfo.get_image_info py jpg with
      | ImageInfo.Returned (_, img_w, img_h) =>
          start_ffmpeg (bitrate_for_dim img_w img_h) img_w img_h
      | ImageInfo.Raised e => get_image_info_raised e
      | ImageInfo.Diverges => no_result
      end
  | _ => capture_raised
  end.

End MjpegFallback.

(** ** webcam_stream.py: the calls of [restore], in order *)

Module Teardown.

Import WebcamStreamer.

Definition started {H} (h : option H) (f : H -> list action) : list action :=
  match h with
  | Some x => f x
  | None => []
  end.

(** The external calls [restore] makes on an object, in source order. *)
Definition teardown (self : t) : list action :=
  [requests_post_shutdown]
  ++ started (janus_proc self) (fun p => [terminate p])
  ++ started (gst_proc self) (fun p => [terminate p])
  ++ started (ffmpeg_proc self) (fun p => [terminate p])
  ++ started (pi_camera self) (fun c => [stop_recording c; close c])
  ++ [service_webcamd_start].

Definition outcomes (raises : oracle) (l : list action)
  : list (action * bool) :=
  map (fun a => (a, raises a)) l.

End Teardown.

(** ** utils.py: [get_tags] *)

Module Tags.

Local Open Scope string_scope.

Definition tab : ascii := "009"%char.
Definition newline : ascii := "010"%char.

(** Puts [c] in front of the match that is being read. *)
Definition extend (c : ascii) (matches : list string) : list string :=
  match matches with
  | m :: rest => String c m :: rest
  | [] => [String c EmptyString]
  end.

(** [re.compile(r"^([^\t]+)", re.MULTILINE).findall(text)], read from
    left to right. A match starts at the beginning of a line (the start
    of the text or right after a line feed) on a character other than a
    tab, and runs up to the next tab or the end of the text, line feeds
    included; the search goes on from where the match ended.
    [in_match]: a match is being read; [at_line_start]: the position is
    the start of the text or follows a line feed. *)
Fixpoint findall (in_match at_line_start : bool) (text : string)
  : list string :=
  match text with
  | EmptyString => if in_match then [EmptyString] else []
  | String c text' =>
      if in_match then
        if Ascii.eqb c tab then EmptyString :: findall false false text'
        else extend c (findall true false text')
      else if at_line_start && negb (Ascii.eqb c tab) then
        extend c (findall true false text')
      else findall false (Ascii.eqb c newline) text'
  end.

(** [''.join(l)] *)
Definition join (l : list string) : string := fold_right String.append "" l.

(** [s.replace('\n', '')] *)
Fixpoint remove_newlines (s : string) : string :=
  match s with
  | EmptyString => EmptyString
  | String c s' =>
      if Ascii.eqb c newline then remove_newlines s'
      else String c (remove_newlines s')
  end.

(** What the function reads from the host: [platform.uname()] and the
    standard output of the two commands ([None]: the command, or reading
    its output, raises). *)
Record host := mk_host {
  uname : string * string * string * string * string * string;
  v4l2_ctl : option string;
  lsusb : option string
}.

Definition tags := gmap string string.

(** [tags[key] = out] under [if out:]. *)
Definition tag_if_any (key out : string) (t : tags) : tags :=
  if String.eqb out "" then t else <[key := out]> t.

(** Python's truth value of the global: [None] and the empty dict are
    false. *)
Definition truthy (system_tags : option tags) : bool :=
  match system_tags with
  | Some cached => negb (bool_decide (cached = ∅))
  | None => false
  end.

(** The part of [get_tags()] after the test of the cache. *)
Definition collect (h : host) : tags :=
  let '(os, _, ver, _, arch, _) := uname h in
  let t : tags :=
    <["arch" := arch]> (<["os_ver" := ver]> (<["os" := os]> ∅)) in
  let t :=
    match v4l2_ctl h with
    | Some text =>
        tag_if_any "v4l2" (remove_newlines (join (findall false true text))) t
    | None => t
    end in
  match lsusb h with
  | Some text =>
      (* [''.join] over the characters of a [str] gives the [str] back *)
      tag_if_any "usb" (remove_newlines text) t
  | None => t
  end.

(** [get_tags()]; the module global [system_tags] is passed in and out. *)
Definition get_tags (h : host) (system_tags : option tags)
  : tags * option tags :=
  match system_tags with
  | Some cached =>
      if truthy system_tags then (cached, system_tags)
      else (collect h, Some (collect h))
  | None => (collect h, Some (collect h))
  end.

(** A character occurs in a string. *)
Fixpoint occurs (c : ascii) (s : string) : bool :=
  match s with
  | EmptyString => false
  | String d s' => Ascii.eqb c d || occurs c s'
  end.

(** One device of a [v4l2-ctl --list-devices] listing: the line of its
    name, then one line per device node, each indented by a tab, then an
    empty line. *)
Definition device (name : string) (nodes : list string) : string :=
  name ++ String newline
    (fold_right (fun node rest => String tab (node ++ String newline rest))
       (String newline EmptyString) nodes).

Definition listing (devices : list (string * list string)) : string :=
  fold_right (fun d rest => device (fst d) (snd d) ++ rest) "" devices.

(** What [get_tags] makes of the matches, from a given state of the
    search. *)
Definition names (in_match at_line_start : bool) (text : string) : string :=
  remove_newlines (join (findall in_match at_line_start text)).

(** A device whose name holds no tab and no line feed and whose node
    lines hold no line feed. *)
Definition device_ok (d : string * list string) : Prop :=
  occurs tab (fst d) = false /\ occurs newline (fst d) = false
  /\ Forall (fun node => occurs newline node = false) (snd d).

End Tags.

(** ** webcam_stream.py: [PiCamWebServer.capture_forever] *)

Module CaptureLoop.

(** [io.BytesIO]: the buffer and the position. *)
Record BytesIO := mk_bio { buffer : list byte; pos : nat }.

(** [BytesIO()] *)
Definition new : BytesIO := {| buffer := []; pos := 0 |}.

(** [bio.write(data)]: overwrites from the position on, extending the
    buffer (with zero bytes first when the position is past its end). *)
Definition write (data : list byte) (bio : BytesIO) : BytesIO :=
  {| buffer :=
       firstn (pos bio) (buffer bio)
       ++ repeat x00 (pos bio - length (buffer bio))
       ++ data
       ++ skipn (pos bio + length data) (buffer bio);
     pos := pos bio + length data |}.

(** [bio.seek(offset)] *)
Definition seek (offset : nat) (bio : BytesIO) : BytesIO :=
  {| buffer := buffer bio; pos := offset |}.

(** [bio.read()]: everything from the position to the end. *)
Definition read (bio : BytesIO) : list byte * BytesIO :=
  (skipn (pos bio) (buffer bio),
   {| buffer := buffer bio;
      pos := Nat.max (pos bio) (length (buffer bio)) |}).

(** [bio.truncate()]: cuts the buffer at the position. *)
Definition truncate (bio : BytesIO) : BytesIO :=
  {| buffer := firstn (pos bio) (buffer bio); pos := pos bio |}.

(** The attributes of the server the loop writes: [self.last_capture]
    and the chunks handed to [self.img_q.put], in order. *)
Record server := mk_server { last_capture : Q; img_q : list (list byte) }.

(** One turn of the [for] loop: the camera has written [frame] to [bio]
    at its position, and [time.time()] reads [now]. *)
Definition turn (st : BytesIO * server) (capture : list byte * Q)
  : BytesIO * server :=
  let '(bio, self) := st in
  let '(frame, now) := capture in
  let bio := write frame bio in
  let bio := seek 0 bio in
  let '(chunk, bio) := read bio in
  let bio := seek 0 bio in
  let bio := truncate bio in
  (bio, {| last_capture := now; img_q := img_q self ++ [chunk] |}).

(** [capture_forever(self)] over the frames the camera delivers. *)
Definition capture_forever (captures : list (list byte * Q)) (self : server)
  : BytesIO * server :=
  fold_left turn captures (new, self).

End CaptureLoop.

(** * Properties *)

(** ** Rational comparisons *)

Lemma Qlt_bool_iff (x y : Q) : Qlt_bool x y = true <-> (x < y)%Q.
Proof.
  unfold Qlt_bool. rewrite negb_true_iff.
  split; intros H.
  - apply Qnot_le_lt. intros Hle. apply Qle_bool_iff in Hle. congruence.
  - destruct (Qle_bool y x) eqn:E; [|reflexivity].
    apply Qle_bool_iff in E. exfalso. exact (Qlt_not_le _ _ H E).
Qed.

Lemma Qlt_bool_false_iff (x y : Q) : Qlt_bool x y = false <-> (y <= x)%Q.
Proof.
  unfold Qlt_bool. rewrite negb_false_iff. apply Qle_bool_iff.
Qed.

(** ** Bitrate selection *)

Lemma bitrate_for_dim_area (w h : Z) : bitrate_for_dim w h = bitrate_tier (w * h).
Proof. reflexivity. Qed.

Lemma bitrate_tier_mono (a b : Z) : a <= b -> bitrate_tier a <= bitrate_tier b.
Proof.
  intros Hab. unfold bitrate_tier.
  repeat match goal with
         | |- context [?x <=? ?y] => destruct (Z.leb_spec x y)
         end; lia.
Qed.

(** C6: [bitrate_for_dim] is the four-tier step function of the area
    [img_w * img_h] (at most 480*270 gives 200000, at most 960*540 gives
    1000000, at most 1640*922 gives 3000000, anything larger 6000000); it
    is monotone in the area, and an area exactly on an edge takes the lower
    tier, as at 480x270, 960x540, 1640x922, with 1920x1080 in the top
    tier. *)
Theorem bitrate_for_dim_tiers :
  (forall w h, w * h <= 480 * 270 -> bitrate_for_dim w h = 200000)
  /\ (forall w h, 480 * 270 < w * h <= 960 * 540 ->
        bitrate_for_dim w h = 1000000)
  /\ (forall w h, 960 * 540 < w * h <= 1640 * 922 ->
        bitrate_for_dim w h = 3000000)
  /\ (forall w h, 1640 * 922 < w * h -> bitrate_for_dim w h = 6000000)
  /\ (forall w1 h1 w2 h2, w1 * h1 <= w2 * h2 ->
        bitrate_for_dim w1 h1 <= bitrate_for_dim w2 h2)
  /\ bitrate_for_dim 480 270 = 200000
  /\ bitrate_for_dim 960 540 = 1000000
  /\ bitrate_for_dim 1640 922 = 3000000
  /\ bitrate_for_dim 1920 1080 = 6000000.
Proof.
  repeat split; try reflexivity; intros.
  - rewrite bitrate_for_dim_area. unfold bitrate_tier.
    destruct (Z.leb_spec (w * h) 129600); [reflexivity | lia].
  - rewrite bitrate_for_dim_area. unfold bitrate_tier.
    destruct (Z.leb_spec (w * h) 129600); [lia |].
    destruct (Z.leb_spec (w * h) 518400); [reflexivity | lia].
  - rewrite bitrate_for_dim_area. unfold bitrate_tier.
    destruct (Z.leb_spec (w * h) 129600); [lia |].
    destruct (Z.leb_spec (w * h) 518400); [lia |].
    destruct (Z.leb_spec (w * h) 1512080); [reflexivity | lia].
  - rewrite bitrate_for_dim_area. unfold bitrate_tier.
    destruct (Z.leb_spec (w * h) 129600); [lia |].
    destruct (Z.leb_spec (w * h) 518400); [lia |].
    destruct (Z.leb_spec (w * h) 1512080); [lia | reflexivity].
  - rewrite !bitrate_for_dim_area. now apply bitrate_tier_mono.
Qed.

Lemma bitrate_for_dim_tiers_witness :
  bitrate_for_dim 640 480 = 1000000
  /\ bitrate_for_dim 640 480 <= bitrate_for_dim 1296 972.
Proof.
  split.
  - apply (proj1 (proj2 bitrate_for_dim_tiers)). lia.
  - apply (proj1 (proj2 (proj2 (proj2 (proj2 bitrate_for_dim_tiers))))). lia.
Defined.

(** C10: the bitrate depends only on the product of the two arguments: it
    is symmetric in width and height, and two sizes of equal area get the
    same bitrate. *)
Theorem bitrate_for_dim_area_only :
  (forall w h, bitrate_for_dim w h = bitrate_for_dim h w)
  /\ (forall w1 h1 w2 h2, w1 * h1 = w2 * h2 ->
        bitrate_for_dim w1 h1 = bitrate_for_dim w2 h2).
Proof.
  split.
  - intros w h. rewrite !bitrate_for_dim_area. now rewrite Z.mul_comm.
  - intros w1 h1 w2 h2 Harea. rewrite !bitrate_for_dim_area. now rewrite Harea.
Qed.

Lemma bitrate_for_dim_area_only_witness :
  bitrate_for_dim 640 480 = bitrate_for_dim 480 640
  /\ bitrate_for_dim 640 480 = bitrate_for_dim 1280 240.
Proof.
  split.
  - apply (proj1 bitrate_for_dim_area_only).
  - apply (proj2 bitrate_for_dim_area_only). reflexivity.
Defined.

(** ** Exponential backoff *)

Arguments ExpoBackoff.more : simpl never.

Section Backoff.

Import ExpoBackoff.
Local Open Scope Q_scope.

(** The clamping [if delay > self.max_seconds: delay = self.max_seconds]
    is the minimum of the two. *)
Lemma clamp_is_Qmin (m d : Q) :
  (if Qlt_bool m d then m else d) == Qmin d m.
Proof.
  destruct (Qlt_bool m d) eqn:E.
  - apply Qlt_bool_iff in E. symmetry. apply Q.min_r. lra.
  - apply Qlt_bool_false_iff in E. symmetry. apply Q.min_l. lra.
Qed.

Lemma more_attempts (self : t) (u : Q) :
  attempts (fst (more self u)) = (attempts self + 1)%Z.
Proof. reflexivity. Qed.

Lemma more_max_seconds (self : t) (u : Q) :
  max_seconds (fst (more self u)) = max_seconds self.
Proof. reflexivity. Qed.

(** One call: the sleep is computed from the counter after the
    increment. *)
Lemma more_delay (self : t) (u : Q) :
  snd (more self u)
  == Qmin (2 ^ (attempts self + 1)) (max_seconds self) * ((1 # 2) + u).
Proof.
  unfold more; cbn [snd]. now rewrite clamp_is_Qmin.
Qed.

Lemma scaled_le (b B u : Q) :
  b <= B -> 0 <= B -> 0 <= u < 1 -> b * ((1 # 2) + u) <= B * (3 # 2).
Proof. intros. nra. Qed.

Lemma scaled_lt (b B u : Q) :
  b <= B -> 0 < B -> 0 <= u < 1 -> b * ((1 # 2) + u) < B * (3 # 2).
Proof. intros. nra. Qed.

Lemma more_delay_le_ceiling (self : t) (u : Q) :
  0 <= max_seconds self -> 0 <= u < 1 ->
  snd (more self u) <= max_seconds self * (3 # 2).
Proof.
  intros Hmax Hu. rewrite more_delay.
  apply scaled_le; [apply Q.le_min_r | assumption | assumption].
Qed.

(** During the climb the sleep stays below one and a half times the
    power of two of the incremented counter, whatever the ceiling. *)
Lemma more_delay_lt_power (self : t) (u : Q) :
  0 <= u < 1 ->
  snd (more self u) < 2 ^ (attempts self + 1) * (3 # 2).
Proof.
  intros Hu. rewrite more_delay.
  apply scaled_lt; [apply Q.le_min_l | | assumption].
  apply Qpower_0_lt. lra.
Qed.

Lemma more_seq_cons (self : t) (u : Q) (us : list Q) :
  more_seq self (u :: us)
  = (fst (more_seq (fst (more self u)) us),
     snd (more self u) :: snd (more_seq (fst (more self u)) us)).
Proof.
  cbn [more_seq]. destruct (more self u) as [s1 d] eqn:E1. cbn [fst snd].
  now destruct (more_seq s1 us).
Qed.

End Backoff.

(** C3, as the code has it: [more] increments the counter first and sleeps
    for [min(2^(attempt+1), max_seconds) * (0.5 + u)] seconds, [attempt]
    being the counter at the start of the call and [u] the random draw; so
    along any sequence of calls the counter advances by one per call, the
    i-th sleep is computed from the counter after its own increment, and
    with a non-negative ceiling no sleep exceeds [max_seconds * 1.5]. *)
Theorem more_seq_delays (self : ExpoBackoff.t) (randoms : list Q) :
  (0 <= ExpoBackoff.max_seconds self)%Q ->
  Forall (fun u => (0 <= u < 1)%Q) randoms ->
  ExpoBackoff.attempts (fst (ExpoBackoff.more_seq self randoms))
  = ExpoBackoff.attempts self + Z.of_nat (length randoms)
  /\ length (snd (ExpoBackoff.more_seq self randoms)) = length randoms
  /\ (forall (i : nat) (u d : Q),
        nth_error randoms i = Some u ->
        nth_error (snd (ExpoBackoff.more_seq self randoms)) i = Some d ->
        (d == Qmin (2 ^ (ExpoBackoff.attempts self + Z.of_nat i + 1))
                   (ExpoBackoff.max_seconds self) * ((1 # 2) + u))%Q)
  /\ Forall (fun d => (d <= ExpoBackoff.max_seconds self * (3 # 2))%Q)
       (snd (ExpoBackoff.more_seq self randoms)).
Proof.
  intros Hmax Hus. revert self Hmax.
  induction Hus as [|u us Hu Hus IH]; intros self Hmax.
  - cbn. repeat split; [lia | | constructor].
    intros [|i] u d Hn; discriminate Hn.
  - rewrite more_seq_cons. cbn [fst snd length].
    specialize (IH (fst (ExpoBackoff.more self u))).
    rewrite more_max_seconds, more_attempts in IH.
    destruct (IH Hmax) as (Hatt & Hlen & Hnth & Hall).
    repeat split.
    + rewrite Hatt. lia.
    + now rewrite Hlen.
    + intros [|i] u' d Hu' Hd; cbn [nth_error] in Hu', Hd.
      * replace d with (snd (ExpoBackoff.more self u)) by congruence.
        replace u' with u by congruence.
        rewrite more_delay. now rewrite Z.add_0_r.
      * rewrite (Hnth i u' d Hu' Hd).
        now replace (ExpoBackoff.attempts self + 1 + Z.of_nat i + 1)
          with (ExpoBackoff.attempts self + Z.of_nat (S i) + 1) by lia.
    + constructor; [now apply more_delay_le_ceiling | exact Hall].
Qed.

Lemma more_seq_delays_witness :
  ExpoBackoff.attempts
    (fst (ExpoBackoff.more_seq (ExpoBackoff.init 120) [1 # 2; 0%Q; 3 # 4]))
  = -3 + 3
  /\ Forall (fun d => (d <= 120 * (3 # 2))%Q)
       (snd (ExpoBackoff.more_seq (ExpoBackoff.init 120) [1 # 2; 0%Q; 3 # 4])).
Proof.
  assert (Hmax : (0 <= ExpoBackoff.max_seconds (ExpoBackoff.init 120))%Q)
    by (vm_compute; discriminate).
  assert (Hus : Forall (fun u => (0 <= u < 1)%Q) [1 # 2; 0%Q; 3 # 4])
    by (repeat constructor; vm_compute; congruence).
  destruct (more_seq_delays (ExpoBackoff.init 120) [1 # 2; 0%Q; 3 # 4] Hmax Hus)
    as (Hatt & _ & _ & Hall).
  split; [exact Hatt | exact Hall].
Defined.

(** C3 as the specification words it fails: on a fresh backoff with
    ceiling 120 and draw 1/2 the code sleeps 2^-2 = 1/4 s, whereas the
    counter at the start of the call (-3) would give 2^-3 = 1/8 s. *)
Lemma more_uses_incremented_counter :
  (snd (ExpoBackoff.more (ExpoBackoff.init 120) (1 # 2)) == 1 # 4)%Q
  /\ (snd (ExpoBackoff.more_as_specified (ExpoBackoff.init 120) (1 # 2))
      == 1 # 8)%Q
  /\ ~ (snd (ExpoBackoff.more (ExpoBackoff.init 120) (1 # 2))
        == Qmin (2 ^ ExpoBackoff.attempts (ExpoBackoff.init 120))
                (ExpoBackoff.max_seconds (ExpoBackoff.init 120))
           * ((1 # 2) + (1 # 2)))%Q.
Proof.
  repeat split; try (vm_compute; reflexivity).
  vm_compute. discriminate.
Qed.

(** Why the ceiling is taken non-negative above: with a negative
    [max_seconds] the clamped base is negative and the product lies above
    [max_seconds * 1.5]. No caller in the source passes one (the ceilings
    are 120, 60 and 600). *)
Lemma more_negative_ceiling :
  (snd (ExpoBackoff.more (ExpoBackoff.init (-1)) 0) == - (1 # 2))%Q
  /\ ~ (snd (ExpoBackoff.more (ExpoBackoff.init (-1)) 0) <= -1 * (3 # 2))%Q.
Proof.
  split; [vm_compute; reflexivity |]. vm_compute. intros H. now apply H.
Qed.

(** C4, as the code has it: [reset] puts the counter back to -3. As
    [more] increments the counter before it computes the delay, the three
    calls that follow sleep [min(2^-2, max_seconds) * (0.5 + u)],
    [min(2^-1, max_seconds) * (0.5 + u)] and
    [min(2^0, max_seconds) * (0.5 + u)] seconds: at most 3/8 s, 3/4 s and
    3/2 s, and with a ceiling of at least one second no less than 1/8 s,
    1/4 s and 1/2 s. The base doubles from the first call on and the
    third call already has the base of one second; the call after it
    takes [min(2, max_seconds)]. *)
Theorem reset_grace_period (self : ExpoBackoff.t) (u1 u2 u3 u4 : Q) :
  (0 <= u1 < 1)%Q -> (0 <= u2 < 1)%Q -> (0 <= u3 < 1)%Q ->
  let s0 := ExpoBackoff.reset self in
  let s1 := fst (ExpoBackoff.more s0 u1) in
  let s2 := fst (ExpoBackoff.more s1 u2) in
  let s3 := fst (ExpoBackoff.more s2 u3) in
  ExpoBackoff.attempts s0 = -3
  /\ (snd (ExpoBackoff.more s0 u1)
      == Qmin (1 # 4) (ExpoBackoff.max_seconds self) * ((1 # 2) + u1))%Q
  /\ (snd (ExpoBackoff.more s1 u2)
      == Qmin (1 # 2) (ExpoBackoff.max_seconds self) * ((1 # 2) + u2))%Q
  /\ (snd (ExpoBackoff.more s2 u3)
      == Qmin 1 (ExpoBackoff.max_seconds self) * ((1 # 2) + u3))%Q
  /\ (snd (ExpoBackoff.more s0 u1) <= 3 # 8)%Q
  /\ (snd (ExpoBackoff.more s1 u2) <= 3 # 4)%Q
  /\ (snd (ExpoBackoff.more s2 u3) <= 3 # 2)%Q
  /\ ((1 <= ExpoBackoff.max_seconds self)%Q ->
      (1 # 8 <= snd (ExpoBackoff.more s0 u1))%Q
      /\ (1 # 4 <= snd (ExpoBackoff.more s1 u2))%Q
      /\ (1 # 2 <= snd (ExpoBackoff.more s2 u3))%Q)
  /\ ExpoBackoff.attempts s3 = 0
  /\ (snd (ExpoBackoff.more s3 u4)
      == Qmin 2 (ExpoBackoff.max_seconds self) * ((1 # 2) + u4))%Q.
Proof.
  intros H1 H2 H3 s0 s1 s2 s3.
  assert (E1 : (snd (ExpoBackoff.more s0 u1)
                == Qmin (1 # 4) (ExpoBackoff.max_seconds self)
                   * ((1 # 2) + u1))%Q)
    by (rewrite more_delay; reflexivity).
  assert (E2 : (snd (ExpoBackoff.more s1 u2)
                == Qmin (1 # 2) (ExpoBackoff.max_seconds self)
                   * ((1 # 2) + u2))%Q)
    by (rewrite more_delay; reflexivity).
  assert (E3 : (snd (ExpoBackoff.more s2 u3)
                == Qmin 1 (ExpoBackoff.max_seconds self)
                   * ((1 # 2) + u3))%Q)
    by (rewrite more_delay; reflexivity).
  split; [reflexivity |].
  split; [exact E1 |]. split; [exact E2 |]. split; [exact E3 |].
  split; [| split; [| split; [| split; [| split; [reflexivity |]]]]].
  - pose proof (more_delay_lt_power s0 u1 H1) as H.
    change (2 ^ (ExpoBackoff.attempts s0 + 1))%Q with (1 # 4)%Q in H. lra.
  - pose proof (more_delay_lt_power s1 u2 H2) as H.
    change (2 ^ (ExpoBackoff.attempts s1 + 1))%Q with (1 # 2)%Q in H. lra.
  - pose proof (more_delay_lt_power s2 u3 H3) as H.
    change (2 ^ (ExpoBackoff.attempts s2 + 1))%Q with (1 # 1)%Q in H. lra.
  - intros Hmax.
    rewrite E1, E2, E3.
    rewrite !Q.min_l by lra. lra.
  - rewrite more_delay. reflexivity.
Qed.

Lemma reset_grace_period_witness :
  (snd (ExpoBackoff.more (ExpoBackoff.reset (ExpoBackoff.init 120)) 0)
   == Qmin (1 # 4) 120 * ((1 # 2) + 0))%Q
  /\ (snd (ExpoBackoff.more (ExpoBackoff.reset (ExpoBackoff.init 120)) 0)
      <= 3 # 8)%Q
  /\ (1 # 8
      <= snd (ExpoBackoff.more (ExpoBackoff.reset (ExpoBackoff.init 120)) 0))%Q.
Proof.
  assert (H0 : (0 <= 0 < 1)%Q) by (split; vm_compute; congruence).
  destruct (reset_grace_period (ExpoBackoff.init 120) 0 0 0 0 H0 H0 H0)
    as (_ & E1 & _ & _ & B1 & _ & _ & Hlow & _).
  split; [exact E1 | split; [exact B1 |]].
  apply Hlow. vm_compute. discriminate.
Defined.

(** C4 as stated fails: the calls after a reset are not a phase of zero
    or near-zero delays that comes before the growth. With ceiling 120
    and draw 9/10 the three calls sleep 7/20 s, 7/10 s and 7/5 s, each
    twice the one before; the third is above the 3/4 s that bounds a
    call made from the counter -1 as the specification computes it, and
    equals the sleep of the specification's first step of growth (counter
    0, base one second). *)
Lemma reset_third_call_grows :
  let s0 := ExpoBackoff.reset (ExpoBackoff.init 120) in
  let s1 := fst (ExpoBackoff.more s0 (9 # 10)) in
  let s2 := fst (ExpoBackoff.more s1 (9 # 10)) in
  (snd (ExpoBackoff.more s0 (9 # 10)) == 7 # 20)%Q
  /\ (snd (ExpoBackoff.more s1 (9 # 10)) == 7 # 10)%Q
  /\ (snd (ExpoBackoff.more s2 (9 # 10)) == 7 # 5)%Q
  /\ ExpoBackoff.attempts s2 = -1
  /\ ~ (snd (ExpoBackoff.more s2 (9 # 10)) <= 3 # 4)%Q
  /\ (snd (ExpoBackoff.more_as_specified s2 (9 # 10)) == 7 # 10)%Q
  /\ (snd (ExpoBackoff.more s2 (9 # 10))
      == snd (ExpoBackoff.more_as_specified
                {| ExpoBackoff.attempts := 0;
                   ExpoBackoff.max_seconds := 120 |} (9 # 10)))%Q.
Proof.
  cbv zeta.
  split; [vm_compute; reflexivity |].
  split; [vm_compute; reflexivity |].
  split; [vm_compute; reflexivity |].
  split; [reflexivity |].
  split; [vm_compute; intros H; now apply H |].
  split; vm_compute; reflexivity.
Qed.

(** ** Connection error tracker *)

Section Tracker.

Import ConnectionErrorTracker.

Lemma attempt_attempt_count (self : t) (ty ty' : string) :
  attempt_count (attempt self ty) ty'
  = attempt_count self ty' + (if bool_decide (ty = ty') then 1 else 0).
Proof.
  unfold attempt_count, attempt; cbn [attempts].
  case_bool_decide as Heq.
  - subst ty'. now rewrite lookup_insert_eq.
  - rewrite lookup_insert_ne by exact Heq. lia.
Qed.

Lemma attempt_error_count (self : t) (ty ty' : string) :
  error_count (attempt self ty) ty' = error_count self ty'.
Proof. reflexivity. Qed.

Lemma add_connection_error_attempt_count (self : t) (ty ty' : string)
    (now : datetime) :
  attempt_count (fst (add_connection_error self ty now)) ty'
  = attempt_count self ty'.
Proof. reflexivity. Qed.

Lemma add_connection_error_error_count (self : t) (ty ty' : string)
    (now : datetime) :
  error_count (fst (add_connection_error self ty now)) ty'
  = error_count self ty' + (if bool_decide (ty = ty') then 1 else 0).
Proof.
  unfold error_count, add_connection_error; cbn [fst errors].
  case_bool_decide as Heq.
  - subst ty'. rewrite lookup_insert_eq. cbn [default].
    unfold len, id. rewrite length_app. cbn [length]. lia.
  - rewrite lookup_insert_ne by exact Heq. lia.
Qed.

Lemma add_connection_error_messages (self : t) (ty : string) (now : datetime) :
  snd (add_connection_error self ty now)
  = notify_client_if_needed_for_error
      (fst (add_connection_error self ty now)) ty.
Proof. reflexivity. Qed.

(** The policy in terms of the two counters. *)
Lemma notify_iff (self : t) (ty : string) :
  notify_client_if_needed_for_error self ty = [new_error ty]
  <-> 8 <= attempt_count self ty
      /\ (10 <= attempt_count self ty
          \/ (inject_Z (attempt_count self ty) * (1 # 2)
              <= inject_Z (error_count self ty))%Q)
      /\ (inject_Z (attempt_count self ty) * (1 # 4)
          <= inject_Z (error_count self ty))%Q.
Proof.
  unfold notify_client_if_needed_for_error, attempt_count, error_count.
  set (a := default 0 (attempts self !! ty)).
  set (e := len (default [] (errors self !! ty))).
  destruct (Z.ltb_spec a 8) as [H8 | H8].
  { split; [discriminate | lia]. }
  destruct (Z.ltb_spec a 10) as [H10 | H10]; cbn [andb].
  - destruct (Qlt_bool (inject_Z e) (inject_Z a * (1 # 2))) eqn:Hhalf.
    + apply Qlt_bool_iff in Hhalf.
      split; [discriminate |].
      intros (_ & [Hge | Hle] & _); [lia |].
      exfalso. exact (Qlt_not_le _ _ Hhalf Hle).
    + apply Qlt_bool_false_iff in Hhalf.
      destruct (Qlt_bool (inject_Z e) (inject_Z a * (1 # 4))) eqn:Hq.
      * apply Qlt_bool_iff in Hq.
        split; [discriminate |].
        intros (_ & _ & Hle). exfalso. exact (Qlt_not_le _ _ Hq Hle).
      * apply Qlt_bool_false_iff in Hq.
        split; [intros _ | reflexivity].
        split; [lia | split; [right; exact Hhalf | exact Hq]].
  - destruct (Qlt_bool (inject_Z e) (inject_Z a * (1 # 4))) eqn:Hq.
    + apply Qlt_bool_iff in Hq.
      split; [discriminate |].
      intros (_ & _ & Hle). exfalso. exact (Qlt_not_le _ _ Hq Hle).
    + apply Qlt_bool_false_iff in Hq.
      split; [intros _ | reflexivity].
      split; [lia | split; [left; lia | exact Hq]].
Qed.

Lemma notify_cases (self : t) (ty : string) :
  notify_client_if_needed_for_error self ty = []
  \/ notify_client_if_needed_for_error self ty = [new_error ty].
Proof.
  unfold notify_client_if_needed_for_error.
  repeat match goal with
         | |- context [if ?c then _ else _] => destruct c
         end; auto.
Qed.

Lemma run_cons (self : t) (c : call) (calls : list call) :
  run self (c :: calls)
  = (fst (run (fst (do_call self c)) calls),
     snd (do_call self c) ++ snd (run (fst (do_call self c)) calls)).
Proof.
  cbn [run]. destruct (do_call self c) as [s1 m1]. cbn [fst snd].
  now destruct (run s1 calls).
Qed.

Lemma do_call_attempt_count (self : t) (c : call) (ty : string) :
  attempt_count (fst (do_call self c)) ty
  = attempt_count self ty + (if is_attempt ty c then 1 else 0).
Proof.
  destruct c as [ty' | ty' now]; cbn [do_call is_attempt fst].
  - apply attempt_attempt_count.
  - rewrite add_connection_error_attempt_count. lia.
Qed.

Lemma do_call_error_count (self : t) (c : call) (ty : string) :
  error_count (fst (do_call self c)) ty
  = error_count self ty + (if is_error ty c then 1 else 0).
Proof.
  destruct c as [ty' | ty' now]; cbn [do_call is_error fst].
  - rewrite attempt_error_count. lia.
  - apply add_connection_error_error_count.
Qed.

Lemma run_attempt_count (calls : list call) (self : t) (ty : string) :
  attempt_count (fst (run self calls)) ty
  = attempt_count self ty + attempt_calls ty calls.
Proof.
  revert self. induction calls as [|c calls IH]; intros self.
  - cbn. unfold attempt_calls, len. cbn. lia.
  - rewrite run_cons; cbn [fst]. rewrite IH, do_call_attempt_count.
    unfold attempt_calls, len. cbn [List.filter].
    destruct (is_attempt ty c); cbn [length]; lia.
Qed.

Lemma run_error_count (calls : list call) (self : t) (ty : string) :
  error_count (fst (run self calls)) ty
  = error_count self ty + error_calls ty calls.
Proof.
  revert self. induction calls as [|c calls IH]; intros self.
  - cbn. unfold error_calls, len. cbn. lia.
  - rewrite run_cons; cbn [fst]. rewrite IH, do_call_error_count.
    unfold error_calls, len. cbn [List.filter].
    destruct (is_error ty c); cbn [length]; lia.
Qed.

Lemma notify_by_counts (self : t) (ty : string) :
  notify_client_if_needed_for_error self ty
  = if notification_due (attempt_count self ty) (error_count self ty)
    then [new_error ty] else [].
Proof.
  unfold notify_client_if_needed_for_error, notification_due,
    attempt_count, error_count.
  destruct (_ <? 8); [reflexivity |].
  destruct (_ && _); [reflexivity |].
  now destruct (Qlt_bool _ _).
Qed.

Lemma run_app (self : t) (l1 l2 : list call) :
  run self (l1 ++ l2)
  = (fst (run (fst (run self l1)) l2),
     snd (run self l1) ++ snd (run (fst (run self l1)) l2)).
Proof.
  revert self. induction l1 as [|c l1 IH]; intros self.
  - cbn [app run fst snd]. now destruct (run self l2).
  - rewrite <- app_comm_cons, !run_cons, IH. cbn [fst snd].
    now rewrite app_assoc.
Qed.

Lemma run_attempts_sent (n : nat) (self : t) (ty : string) :
  snd (run self (repeat (Attempt ty) n)) = [].
Proof.
  revert self. induction n as [|n IH]; intros self; [reflexivity |].
  cbn [repeat]. rewrite run_cons. cbn [snd do_call app]. apply IH.
Qed.

Lemma run_errors_sent (n : nat) (self : t) (ty : string) (now : datetime) :
  snd (run self (repeat (AddConnectionError ty now) n))
  = errors_in_a_row ty (attempt_count self ty) (error_count self ty) n.
Proof.
  revert self. induction n as [|n IH]; intros self; [reflexivity |].
  cbn [repeat]. rewrite run_cons. cbn [snd do_call errors_in_a_row].
  rewrite IH, add_connection_error_messages, notify_by_counts.
  rewrite add_connection_error_attempt_count, add_connection_error_error_count.
  now rewrite bool_decide_eq_true_2.
Qed.

End Tracker.

(** C1: a call of [add_connection_error] leaves the attempt count alone,
    adds one to the error count, and sends the [new_error] message exactly
    when, on the counts it leaves behind, attempts >= 8, and (attempts >=
    10 or errors >= attempts * 0.5), and errors >= attempts * 0.25;
    otherwise it sends nothing. Whenever the policy is evaluated at 7
    attempts and 7 errors, or at 8 attempts and 2 errors, nothing is sent;
    at 10 attempts and 3 errors the message is sent, once per call: after
    ten attempts, five errors in a row send nothing twice and then one
    message each. *)
Theorem notification_policy
    (self : ConnectionErrorTracker.t) (ty : string)
    (now : ConnectionErrorTracker.datetime) :
  let self' := fst (ConnectionErrorTracker.add_connection_error self ty now) in
  let sent := snd (ConnectionErrorTracker.add_connection_error self ty now) in
  let a := ConnectionErrorTracker.attempt_count self' ty in
  let e := ConnectionErrorTracker.error_count self' ty in
  a = ConnectionErrorTracker.attempt_count self ty
  /\ e = ConnectionErrorTracker.error_count self ty + 1
  /\ (sent = [ConnectionErrorTracker.new_error ty]
      <-> 8 <= a
          /\ (10 <= a \/ (inject_Z a * (1 # 2) <= inject_Z e)%Q)
          /\ (inject_Z a * (1 # 4) <= inject_Z e)%Q)
  /\ (sent = []
      <-> ~ (8 <= a
             /\ (10 <= a \/ (inject_Z a * (1 # 2) <= inject_Z e)%Q)
             /\ (inject_Z a * (1 # 4) <= inject_Z e)%Q))
  /\ (forall s : ConnectionErrorTracker.t,
        ConnectionErrorTracker.attempt_count s ty = 7 ->
        ConnectionErrorTracker.error_count s ty = 7 ->
        ConnectionErrorTracker.notify_client_if_needed_for_error s ty = [])
  /\ (forall s : ConnectionErrorTracker.t,
        ConnectionErrorTracker.attempt_count s ty = 8 ->
        ConnectionErrorTracker.error_count s ty = 2 ->
        ConnectionErrorTracker.notify_client_if_needed_for_error s ty = [])
  /\ (forall s : ConnectionErrorTracker.t,
        ConnectionErrorTracker.attempt_count s ty = 10 ->
        ConnectionErrorTracker.error_count s ty = 3 ->
        ConnectionErrorTracker.notify_client_if_needed_for_error s ty
        = [ConnectionErrorTracker.new_error ty])
  /\ snd (ConnectionErrorTracker.run ConnectionErrorTracker.init
            (repeat (ConnectionErrorTracker.Attempt ty) 10
             ++ repeat (ConnectionErrorTracker.AddConnectionError ty now) 5))
     = repeat (ConnectionErrorTracker.new_error ty) 3.
Proof.
  intros self' sent a e.
  assert (Ha : a = ConnectionErrorTracker.attempt_count self ty)
    by apply add_connection_error_attempt_count.
  assert (He : e = ConnectionErrorTracker.error_count self ty + 1).
  { subst e self'. rewrite add_connection_error_error_count.
    now rewrite bool_decide_eq_true_2. }
  assert (Hiff : sent = [ConnectionErrorTracker.new_error ty]
                 <-> 8 <= a
                     /\ (10 <= a \/ (inject_Z a * (1 # 2) <= inject_Z e)%Q)
                     /\ (inject_Z a * (1 # 4) <= inject_Z e)%Q).
  { subst sent. rewrite add_connection_error_messages. apply notify_iff. }
  split; [exact Ha |]. split; [exact He |]. split; [exact Hiff |].
  split; [| split; [| split; [| split]]].
  - split.
    + intros Hnil Hcond. apply Hiff in Hcond. congruence.
    + intros Hn. destruct (notify_cases self' ty) as [H | H].
      * subst sent. now rewrite add_connection_error_messages.
      * exfalso. apply Hn, Hiff. subst sent.
        now rewrite add_connection_error_messages.
  - intros s Hn Hm. destruct (notify_cases s ty) as [H | H]; [exact H |].
    apply notify_iff in H. lia.
  - intros s Hn Hm. destruct (notify_cases s ty) as [H | H]; [exact H |].
    apply notify_iff in H. rewrite Hn, Hm in H.
    destruct H as (_ & [H | H] & _); [lia |].
    exfalso. revert H. unfold Qle. cbn. lia.
  - intros s Hn Hm. apply notify_iff. rewrite Hn, Hm.
    split; [lia | split; [left; lia |]]. unfold Qle. cbn. lia.
  - rewrite run_app; cbn [snd].
    rewrite run_attempts_sent, run_errors_sent, run_attempt_count, run_error_count.
    replace (ConnectionErrorTracker.attempt_calls ty
               (repeat (ConnectionErrorTracker.Attempt ty) 10)) with 10.
    2:{ unfold ConnectionErrorTracker.attempt_calls, ConnectionErrorTracker.len.
        cbn [repeat List.filter ConnectionErrorTracker.is_attempt].
        rewrite bool_decide_eq_true_2 by reflexivity. reflexivity. }
    replace (ConnectionErrorTracker.error_calls ty
               (repeat (ConnectionErrorTracker.Attempt ty) 10)) with 0
      by reflexivity.
    reflexivity.
Qed.

Lemma tries_calls_balance (tries : list (string * option ConnectionErrorTracker.datetime))
    (ty : string) :
  ConnectionErrorTracker.error_calls ty (ConnectionErrorTracker.tries_calls tries)
  <= ConnectionErrorTracker.attempt_calls ty (ConnectionErrorTracker.tries_calls tries).
Proof.
  unfold ConnectionErrorTracker.error_calls, ConnectionErrorTracker.attempt_calls,
    ConnectionErrorTracker.len, ConnectionErrorTracker.tries_calls.
  induction tries as [|[ty' [now|]] tries IH]; cbn [List.map concat]; [cbn; lia | |].
  - cbn [ConnectionErrorTracker.try_calls app List.filter
         ConnectionErrorTracker.is_attempt ConnectionErrorTracker.is_error].
    destruct (bool_decide (ty' = ty)); cbn [length]; lia.
  - cbn [ConnectionErrorTracker.try_calls app List.filter
         ConnectionErrorTracker.is_attempt ConnectionErrorTracker.is_error].
    destruct (bool_decide (ty' = ty)); cbn [length]; lia.
Qed.

(** C5, as the code has it: from a fresh tracker, the attempt count of a
    category is the number of [attempt] calls made for it and its error
    count the number of [add_connection_error] calls made for it, the two
    being independent; so attempts >= errors holds exactly for call
    sequences with at least as many [attempt] calls as
    [add_connection_error] calls for the category, and in particular
    whenever every try is announced by [attempt] and reports at most one
    error. *)
Theorem tracker_counts (calls : list ConnectionErrorTracker.call) (ty : string) :
  let s := fst (ConnectionErrorTracker.run ConnectionErrorTracker.init calls) in
  ConnectionErrorTracker.attempt_count s ty
  = ConnectionErrorTracker.attempt_calls ty calls
  /\ ConnectionErrorTracker.error_count s ty
     = ConnectionErrorTracker.error_calls ty calls
  /\ (ConnectionErrorTracker.error_count s ty
      <= ConnectionErrorTracker.attempt_count s ty
      <-> ConnectionErrorTracker.error_calls ty calls
          <= ConnectionErrorTracker.attempt_calls ty calls)
  /\ (forall tries, calls = ConnectionErrorTracker.tries_calls tries ->
        ConnectionErrorTracker.error_count s ty
        <= ConnectionErrorTracker.attempt_count s ty).
Proof.
  intros s. subst s.
  rewrite run_attempt_count, run_error_count.
  change (ConnectionErrorTracker.attempt_count ConnectionErrorTracker.init ty)
    with 0.
  change (ConnectionErrorTracker.error_count ConnectionErrorTracker.init ty)
    with 0.
  rewrite !Z.add_0_l.
  split; [reflexivity |]. split; [reflexivity |]. split; [reflexivity |].
  intros tries ->. apply tries_calls_balance.
Qed.

Lemma tracker_counts_witness :
  ConnectionErrorTracker.error_count
    (fst (ConnectionErrorTracker.run ConnectionErrorTracker.init
            (ConnectionErrorTracker.tries_calls
               [("server"%string, Some 0); ("server"%string, None)])))
    "server"%string
  <= ConnectionErrorTracker.attempt_count
       (fst (ConnectionErrorTracker.run ConnectionErrorTracker.init
               (ConnectionErrorTracker.tries_calls
                  [("server"%string, Some 0); ("server"%string, None)])))
       "server"%string.
Proof.
  exact (proj2 (proj2 (proj2
    (tracker_counts
       (ConnectionErrorTracker.tries_calls
          [("server"%string, Some 0); ("server"%string, None)])
       "server"%string)))
    [("server"%string, Some 0); ("server"%string, None)] eq_refl).
Defined.

(** C5 as stated fails: one [add_connection_error] on a fresh tracker
    leaves the category with no attempt and one error. *)
Lemma errors_without_attempts :
  let s := fst (ConnectionErrorTracker.run ConnectionErrorTracker.init
                  [ConnectionErrorTracker.AddConnectionError "server"%string 0]) in
  ConnectionErrorTracker.attempt_count s "server"%string = 0
  /\ ConnectionErrorTracker.error_count s "server"%string = 1
  /\ ~ (ConnectionErrorTracker.error_count s "server"%string
        <= ConnectionErrorTracker.attempt_count s "server"%string).
Proof.
  cbv zeta. rewrite run_attempt_count, run_error_count.
  change (ConnectionErrorTracker.attempt_count ConnectionErrorTracker.init
            "server"%string) with 0.
  change (ConnectionErrorTracker.error_count ConnectionErrorTracker.init
            "server"%string) with 0.
  unfold ConnectionErrorTracker.attempt_calls, ConnectionErrorTracker.error_calls,
    ConnectionErrorTracker.len.
  cbn. rewrite bool_decide_eq_true_2 by reflexivity. cbn. repeat split; lia.
Qed.

(** ** Image metadata *)

Section Image.

Import ImageInfo.

Lemma code_byte_of_Z (z : Z) : 0 <= z < 256 -> code (byte_of_Z z) = z.
Proof.
  intros Hz. unfold code, byte_of_Z.
  destruct (Byte.of_N (Z.to_N z)) as [b|] eqn:E.
  - apply Byte.to_of_N in E. rewrite E. apply Z2N.id. lia.
  - apply Byte.of_N_None_iff in E. apply N2Z.inj_lt in E.
    rewrite Z2N.id in E by lia. change (Z.of_N 255) with 255 in E. lia.
Qed.

Local Ltac divmod := Z.div_mod_to_equations; lia.



Lemma unpack_pack_le_HH (a b : Z) :
  0 <= a < 65536 -> 0 <= b < 65536 ->
  unpack_le_HH (pack_le_H a ++ pack_le_H b) = Some (a, b).
Proof.
  intros Ha Hb. unfold unpack_le_HH, pack_le_H; cbn [app].
  rewrite !code_byte_of_Z by divmod.
  do 2 f_equal; divmod.
Qed.

Lemma be32_pack (z : Z) :
  0 <= z < 4294967296 ->
  be32 (byte_of_Z (z / 16777216)) (byte_of_Z ((z / 65536) mod 256))
       (byte_of_Z ((z / 256) mod 256)) (byte_of_Z (z mod 256)) = z.
Proof.
  intros Hz. unfold be32.
  rewrite !code_byte_of_Z by divmod.
  divmod.
Qed.

Lemma unpack_pack_be_LL (a b : Z) :
  0 <= a < 4294967296 -> 0 <= b < 4294967296 ->
  unpack_be_LL (pack_be_L a ++ pack_be_L b) = Some (a, b).
Proof.
  intros Ha Hb. unfold unpack_be_LL, pack_be_L; cbn [app].
  now rewrite !be32_pack.
Qed.

(** *** Recognised headers *)

Local Ltac size_cases :=
  repeat match goal with
         | |- context [?k <=? len ?d] => destruct (k <=? len d)
         end.

Lemma jpeg_sof_bytes (py : py_version) (l1 l0 p h1 h0 w1 w0 : byte)
    (tail : bytes) :
  get_image_info py
    (xff :: xd8 :: xff :: xc0 :: l1 :: l0 :: p :: h1 :: h0 :: w1 :: w0 :: tail)
  = Returned ("image/jpeg"%string,
              256 * code w1 + code w0, 256 * code h1 + code h0).
Proof.
  unfold get_image_info.
  set (data := xff :: xd8 :: _).
  assert (Hsize : (2 <=? len data) = true).
  { apply Z.leb_le. unfold len, data. cbn [length]. lia. }
  rewrite Hsize. subst data. size_cases; reflexivity.
Qed.



Lemma jpeg_header_info (py : py_version) (w h : Z) (tail : bytes) :
  0 <= w < 65536 -> 0 <= h < 65536 ->
  get_image_info py (jpeg_header w h ++ tail)
  = Returned ("image/jpeg"%string, w, h).
Proof.
  intros Hw Hh. unfold jpeg_header, JPEG_SOI, pack_be_H. cbn [app].
  rewrite jpeg_sof_bytes.
  rewrite !code_byte_of_Z by divmod.
  do 3 f_equal; [f_equal |]; divmod.
Qed.



(** *** Unrecognised input *)

Lemma get_image_info_short (py : py_version) (data : bytes) :
  (length data < 2)%nat -> get_image_info py data = unknown.
Proof.
  intros H. destruct data as [|c [|c' data]]; [reflexivity | reflexivity |].
  cbn [length] in H. lia.
Qed.

Lemma byte_eqb_ne (c p : byte) : c <> p -> Byte.eqb c p = false.
Proof.
  intros Hne. destruct (Byte.eqb c p) eqn:E; [| reflexivity].
  apply Byte.byte_dec_bl in E. contradiction.
Qed.

Lemma startswith_first_ne (c p : byte) (s prefix : bytes) :
  c <> p -> startswith (c :: s) (p :: prefix) = false.
Proof. intros Hne. cbn [startswith]. now rewrite byte_eqb_ne. Qed.

Lemma bytes_eqb_first_ne (c p : byte) (a b : bytes) :
  c <> p -> bytes_eqb (c :: a) (p :: b) = false.
Proof. intros Hne. cbn [bytes_eqb]. now rewrite byte_eqb_ne. Qed.


(** *** JPEG input that ends inside a length or size field *)



(** *** The marker loop never runs out of its bound *)

Lemma read_length (n : Z) (s : bytes) :
  (length (snd (read n s)) <= length s)%nat.
Proof.
  unfold read. destruct (n <? 0); cbn [snd length]; [lia |].
  rewrite length_skipn. lia.
Qed.

Lemma read_until_ff_length (jpeg b b1 jpeg1 : bytes) :
  read_until_ff b jpeg = Some (b1, jpeg1) ->
  (length jpeg1 <= length jpeg)%nat /\ ord b1 = Some 255.
Proof.
  revert b. induction jpeg as [|x jpeg IH]; intros b; cbn [read_until_ff];
    destruct (ord b) as [c|] eqn:Eb; try discriminate;
    destruct (Z.eqb_spec c 255) as [-> | Hne]; cbn [negb].
  - intros [= <- <-]. split; [lia | exact Eb].
  - discriminate.
  - intros [= <- <-]. split; [lia | exact Eb].
  - intros Hrec. apply IH in Hrec. cbn [length]. split; [lia | apply Hrec].
Qed.

Lemma read_while_ff_length (jpeg b b2 jpeg2 : bytes) :
  ord b = Some 255 ->
  read_while_ff b jpeg = Some (b2, jpeg2) ->
  (length jpeg2 < length jpeg)%nat.
Proof.
  revert b. induction jpeg as [|x jpeg IH]; intros b Hb;
    cbn [read_while_ff]; rewrite Hb; cbn [Z.eqb Pos.eqb]; [discriminate |].
  cbn [read_while_ff length].
  destruct jpeg as [|y jpeg'].
  - cbn [read_while_ff]. destruct (ord [x]) as [c|]; [| discriminate].
    destruct (c =? 255); [discriminate |]. intros [= <- <-]. cbn [length]. lia.
  - destruct (ord [x]) as [c|] eqn:Ex.
    + destruct (Z.eqb_spec c 255) as [-> | Hne].
      * intros Hrec. apply (IH [x] Ex) in Hrec. lia.
      * cbn [read_while_ff]. rewrite Ex.
        destruct (Z.eqb_spec c 255); [contradiction |].
        intros [= <- <-]. cbn [length]. lia.
    + cbn [read_while_ff]. rewrite Ex. discriminate.
Qed.

Lemma jpeg_markers_fuel (fuel : nat) (b jpeg : bytes) :
  (length jpeg < fuel)%nat -> jpeg_markers fuel b jpeg <> NoFuel.
Proof.
  revert b jpeg. induction fuel as [|fuel IH]; intros b jpeg Hlen; [lia |].
  cbn [jpeg_markers].
  destruct b as [|b0 b']; [discriminate |].
  destruct (ord (b0 :: b')) as [c|]; [| discriminate].
  destruct (c =? 218); [discriminate |].
  destruct (read_until_ff (b0 :: b') jpeg) as [[b1 jpeg1]|] eqn:E1;
    [| discriminate].
  apply read_until_ff_length in E1 as [Hl1 Hb1].
  destruct (read_while_ff b1 jpeg1) as [[b2 jpeg2]|] eqn:E2; [| discriminate].
  apply (read_while_ff_length _ _ _ _ Hb1) in E2.
  destruct (ord b2) as [m|]; [| discriminate].
  destruct ((192 <=? m) && (m <=? 195)).
  - destruct (read 3 jpeg2) as [? jpeg3]. destruct (read 4 jpeg3) as [hw ?].
    destruct (unpack_be_HH hw) as [[h w]|]; discriminate.
  - pose proof (read_length 2 jpeg2) as Hr2.
    destruct (read 2 jpeg2) as [l jpeg3]. cbn [snd] in Hr2.
    destruct (unpack_be_H l) as [n|]; [| discriminate].
    pose proof (read_length (n - 2) jpeg3) as Hr3.
    destruct (read (n - 2) jpeg3) as [? jpeg4]. cbn [snd] in Hr3.
    pose proof (read_length 1 jpeg4) as Hr4.
    destruct (read 1 jpeg4) as [b3 jpeg5]. cbn [snd] in Hr4.
    apply IH. lia.
Qed.

(** Every call returns or raises. *)
Lemma get_image_info_total (py : py_version) (data : bytes) :
  get_image_info py data <> Diverges.
Proof.
  unfold get_image_info.
  destruct (_ && _).
  { unfold unpack_slice. destruct py; [| discriminate].
    destruct (unpack_le_HH _) as [[w h]|]; discriminate. }
  destruct (_ && _).
  { unfold unpack_slice. destruct py; [| discriminate].
    destruct (unpack_be_LL _) as [[w h]|]; discriminate. }
  destruct (_ && _).
  { unfold unpack_slice. destruct py; [| discriminate].
    destruct (unpack_be_LL _) as [[w h]|]; discriminate. }
  destruct (_ && _); [| discriminate].
  destruct (read 2 data) as [soi jpeg]. destruct (read 1 jpeg) as [b1 jpeg'].
  pose proof (jpeg_markers_fuel (S (length jpeg')) b1 jpeg') as Hfuel.
  destruct (jpeg_markers (S (length jpeg')) b1 jpeg') as [h w| |e|].
  - discriminate.
  - discriminate.
  - destruct e; discriminate.
  - exfalso. apply Hfuel; [lia | reflexivity].
Qed.


End Image.




(** Further inputs on which the call raises: a JPEG that ends exactly
    after a skipped segment, one in which the start-of-scan marker comes
    before any SOF marker, and, under Python 3, every recognised GIF or
    PNG header. *)
Lemma get_image_info_raises :
  ImageInfo.get_image_info ImageInfo.Python3 [xff; xd8; xff; xe0; x00; x02]
  = ImageInfo.Raised ImageInfo.UnboundLocalError
  /\ ImageInfo.get_image_info ImageInfo.Python3 [xff; xd8; xda]
     = ImageInfo.Raised ImageInfo.UnboundLocalError
  /\ ImageInfo.get_image_info ImageInfo.Python3 (ImageInfo.gif_header 320 240)
     = ImageInfo.Raised ImageInfo.TypeError
  /\ ImageInfo.get_image_info ImageInfo.Python3 (ImageInfo.png_header 320 240)
     = ImageInfo.Raised ImageInfo.TypeError.
Proof. repeat split; reflexivity. Qed.

(** ** Orchestrator: [restore] and the entry of [video_pipeline] *)

Section Streamer.

Import WebcamStreamer.

Lemma call_lease (raises : oracle) (a : action) (w : world) :
  cam_exclusive_use (call raises a w) = cam_exclusive_use w.
Proof. reflexivity. Qed.

Lemma if_started_lease {H} (raises : oracle) (h : option H)
    (f : H -> list action) (w : world) :
  cam_exclusive_use (if_started raises h f w) = cam_exclusive_use w.
Proof.
  destruct h as [x|]; [| reflexivity]. cbn [if_started].
  generalize (f x) as l. intros l. revert w.
  induction l as [|a l IH]; intros w; [reflexivity |].
  cbn [fold_left]. now rewrite IH.
Qed.

Lemma restore_lease (raises : oracle) (self : t) (w : world) :
  cam_exclusive_use (snd (restore raises self w)) = cam_exclusive_use w.
Proof.
  unfold restore.
  destruct (raises service_webcamd_start); cbn [snd];
    now rewrite call_lease, !if_started_lease, call_lease.
Qed.

Lemma restore_returns (raises : oracle) (self : t) (w : world) :
  raises service_webcamd_start = false ->
  fst (restore raises self w) = (Normal, restored self).
Proof. intros Hok. unfold restore. now rewrite Hok. Qed.

Lemma restore_raises (raises : oracle) (self : t) (w : world) :
  raises service_webcamd_start = true ->
  fst (fst (restore raises self w)) = Exception.
Proof. intros Hko. unfold restore. now rewrite Hko. Qed.

(** On an object that [restore] has already cleared, a further call only
    posts the shutdown request and restarts the service. *)
Lemma restore_restored_calls (raises : oracle) (self : t) (w : world) :
  calls (snd (restore raises (restored self) w))
  = calls w
    ++ [(requests_post_shutdown, raises requests_post_shutdown);
        (service_webcamd_start, raises service_webcamd_start)].
Proof.
  unfold restore, restored.
  destruct (raises service_webcamd_start) eqn:E; cbn; rewrite ?E;
    now rewrite <- app_assoc.
Qed.

Lemma restore_twice_eq (raises1 raises2 : oracle) (self : t) (w : world) :
  raises1 service_webcamd_start = false ->
  restore_twice raises1 raises2 self w
  = restore raises2 (restored self) (snd (restore raises1 self w)).
Proof.
  intros Hok. unfold restore_twice.
  pose proof (restore_returns raises1 self w Hok) as H1.
  destruct (restore raises1 self w) as [[c s1] w1]. cbn [fst snd] in *.
  now injection H1 as -> ->.
Qed.

Lemma not_using_pi_camera_removes (raises : oracle) (w : world) :
  raises os_remove_lease = false ->
  cam_exclusive_use (not_using_pi_camera raises w) = false.
Proof.
  intros Hok. unfold not_using_pi_camera. rewrite Hok.
  now destruct (cam_exclusive_use w).
Qed.

End Streamer.

(** C2, as the code has it: when the service restart command itself does
    not raise, two calls of [restore] in a row both return, whatever the
    component calls do and whichever of the gateway, pipeline and encoder
    processes and the camera were started; afterwards the four handles
    are cleared and [shutting_down] is set, and the second call touches no
    component: it only posts the shutdown request and restarts the
    service. [restore] leaves the camera lease as it found it; the lease
    is removed by [not_using_pi_camera], which the failure handler of
    [video_pipeline] calls before [restore]: after the handler, and
    after a further [restore], the lease is there only if it was there
    before and [os.remove] failed on it (the handler swallows that
    error). *)
Theorem restore_twice_safe
    (raises1 raises2 : WebcamStreamer.oracle)
    (self : WebcamStreamer.t) (w : WebcamStreamer.world) :
  raises1 WebcamStreamer.service_webcamd_start = false ->
  raises2 WebcamStreamer.service_webcamd_start = false ->
  let w1 := snd (WebcamStreamer.restore raises1 self w) in
  let r := WebcamStreamer.restore_twice raises1 raises2 self w in
  fst r = (WebcamStreamer.Normal, WebcamStreamer.restored self)
  /\ WebcamStreamer.calls (snd r)
     = WebcamStreamer.calls w1
       ++ [(WebcamStreamer.requests_post_shutdown,
            raises2 WebcamStreamer.requests_post_shutdown);
           (WebcamStreamer.service_webcamd_start, false)]
  /\ WebcamStreamer.cam_exclusive_use (snd r)
     = WebcamStreamer.cam_exclusive_use w
  /\ (let f := WebcamStreamer.on_pipeline_failure raises1 self w in
      fst (fst f) = WebcamStreamer.Normal
      /\ WebcamStreamer.cam_exclusive_use (snd f)
         = WebcamStreamer.cam_exclusive_use w
           && raises1 WebcamStreamer.os_remove_lease
      /\ WebcamStreamer.cam_exclusive_use
           (snd (WebcamStreamer.restore raises2 (snd (fst f)) (snd f)))
         = WebcamStreamer.cam_exclusive_use w
           && raises1 WebcamStreamer.os_remove_lease).
Proof.
  intros Hok1 Hok2 w1 r. subst r w1.
  rewrite restore_twice_eq by exact Hok1.
  split; [| split; [| split]].
  - rewrite restore_returns by exact Hok2. reflexivity.
  - rewrite restore_restored_calls. now rewrite Hok2.
  - now rewrite !restore_lease.
  - intros f. subst f. unfold WebcamStreamer.on_pipeline_failure.
    set (w0 := WebcamStreamer.call _ (WebcamStreamer.sleep 3) _).
    assert (Hw0 : WebcamStreamer.cam_exclusive_use w0
                  = WebcamStreamer.cam_exclusive_use w
                    && raises1 WebcamStreamer.os_remove_lease).
    { subst w0. rewrite !call_lease. unfold WebcamStreamer.not_using_pi_camera.
      cbn [WebcamStreamer.cam_exclusive_use].
      now destruct (WebcamStreamer.cam_exclusive_use w),
        (raises1 WebcamStreamer.os_remove_lease). }
    pose proof (restore_returns raises1 self w0 Hok1) as Hret.
    pose proof (restore_lease raises1 self w0) as Hlease.
    destruct (WebcamStreamer.restore raises1 self w0) as [[c s1] w1].
    cbn [fst snd] in Hret, Hlease. injection Hret as -> ->.
    cbn [fst snd]. rewrite restore_lease, call_lease, Hlease.
    split; [reflexivity |]. split; exact Hw0.
Qed.

Lemma restore_twice_safe_witness :
  fst (WebcamStreamer.restore_twice (fun _ => true)
         (fun a => match a with
                   | WebcamStreamer.service_webcamd_start => false
                   | _ => true
                   end)
         {| WebcamStreamer.pi_camera := Some 1%nat;
            WebcamStreamer.janus_ws := None;
            WebcamStreamer.webcam_server := None;
            WebcamStreamer.gst_proc := None;
            WebcamStreamer.ffmpeg_proc := Some 7%nat;
            WebcamStreamer.janus_proc := Some 5%nat;
            WebcamStreamer.shutting_down := false |}
         {| WebcamStreamer.cam_exclusive_use := true;
            WebcamStreamer.calls := [] |})
  = (WebcamStreamer.Exception,
     {| WebcamStreamer.pi_camera := Some 1%nat;
        WebcamStreamer.janus_ws := None;
        WebcamStreamer.webcam_server := None;
        WebcamStreamer.gst_proc := None;
        WebcamStreamer.ffmpeg_proc := Some 7%nat;
        WebcamStreamer.janus_proc := Some 5%nat;
        WebcamStreamer.shutting_down := true |})
  /\ fst (WebcamStreamer.restore_twice
            (fun a => match a with
                      | WebcamStreamer.service_webcamd_start => false
                      | _ => true
                      end)
            (fun _ => false)
            {| WebcamStreamer.pi_camera := Some 1%nat;
               WebcamStreamer.janus_ws := None;
               WebcamStreamer.webcam_server := None;
               WebcamStreamer.gst_proc := None;
               WebcamStreamer.ffmpeg_proc := Some 7%nat;
               WebcamStreamer.janus_proc := Some 5%nat;
               WebcamStreamer.shutting_down := false |}
            {| WebcamStreamer.cam_exclusive_use := true;
               WebcamStreamer.calls := [] |})
     = (WebcamStreamer.Normal,
        WebcamStreamer.restored
          {| WebcamStreamer.pi_camera := Some 1%nat;
             WebcamStreamer.janus_ws := None;
             WebcamStreamer.webcam_server := None;
             WebcamStreamer.gst_proc := None;
             WebcamStreamer.ffmpeg_proc := Some 7%nat;
             WebcamStreamer.janus_proc := Some 5%nat;
             WebcamStreamer.shutting_down := false |}).
Proof.
  split; [reflexivity |].
  apply (restore_twice_safe
           (fun a => match a with
                     | WebcamStreamer.service_webcamd_start => false
                     | _ => true
                     end)
           (fun _ => false)); reflexivity.
Defined.

(** C2 as stated fails: with the lease present and nothing started, two
    calls of [restore] return and the lease is still there. *)
Lemma restore_keeps_lease :
  let r := WebcamStreamer.restore_twice (fun _ => false) (fun _ => false)
             WebcamStreamer.init
             {| WebcamStreamer.cam_exclusive_use := true;
                WebcamStreamer.calls := [] |} in
  fst (fst r) = WebcamStreamer.Normal
  /\ WebcamStreamer.cam_exclusive_use (snd r) = true
  /\ WebcamStreamer.calls (snd r)
     = [(WebcamStreamer.requests_post_shutdown, false);
        (WebcamStreamer.service_webcamd_start, false);
        (WebcamStreamer.requests_post_shutdown, false);
        (WebcamStreamer.service_webcamd_start, false)].
Proof. repeat split. Qed.

Lemma pi_version_examples :
  PiVersion.pi_version (Some "Raspberry Pi 3 Model B Rev 1.2"%string)
  = Some "3"%string
  /\ PiVersion.pi_version (Some "Raspberry Pi Zero W Rev 1.1"%string)
     = Some "0"%string
  /\ PiVersion.pi_version (Some "Raspberry Pi"%string) = None
  /\ PiVersion.pi_version (Some "QEMU Standard PC"%string) = None
  /\ PiVersion.pi_version None = None.
Proof. repeat split. Qed.

(** C8: with the environment variable [JANUS_SERVER] set (to a non-empty
    value), [video_pipeline] only opens the tunnel to
    [ws://<that address>:8188/] and returns: the one call it makes is the
    websocket client, and no process, camera or frame-server handle
    changes. Otherwise, when [pi_version()] finds no Pi, it returns with
    the object unchanged, having made no call but the logged warning. In
    neither case is the managed part of the pipeline entered. *)
Theorem video_pipeline_entry
    (managed_pipeline :
       WebcamStreamer.t -> WebcamStreamer.world ->
       WebcamStreamer.completion * WebcamStreamer.t * WebcamStreamer.world)
    (env : WebcamStreamer.environment) (raises : WebcamStreamer.oracle)
    (self : WebcamStreamer.t) (w : WebcamStreamer.world) :
  (forall address,
     WebcamStreamer.getenv_JANUS_SERVER env = Some address ->
     address <> ""%string ->
     WebcamStreamer.video_pipeline managed_pipeline env raises self w
     = (WebcamStreamer.Normal,
        {| WebcamStreamer.pi_camera := WebcamStreamer.pi_camera self;
           WebcamStreamer.janus_ws := Some ("ws://" ++ address ++ ":8188/")%string;
           WebcamStreamer.webcam_server := WebcamStreamer.webcam_server self;
           WebcamStreamer.gst_proc := WebcamStreamer.gst_proc self;
           WebcamStreamer.ffmpeg_proc := WebcamStreamer.ffmpeg_proc self;
           WebcamStreamer.janus_proc := WebcamStreamer.janus_proc self;
           WebcamStreamer.shutting_down := WebcamStreamer.shutting_down self |},
        {| WebcamStreamer.cam_exclusive_use := WebcamStreamer.cam_exclusive_use w;
           WebcamStreamer.calls :=
             WebcamStreamer.calls w
             ++ [(WebcamStreamer.websocket_client
                    ("ws://" ++ address ++ ":8188/")%string, false)] |})
     /\ WebcamStreamer.manages_component
          (WebcamStreamer.websocket_client ("ws://" ++ address ++ ":8188/")%string)
        = false)
  /\ (WebcamStreamer.truthy (WebcamStreamer.getenv_JANUS_SERVER env) = false ->
      PiVersion.pi_version (WebcamStreamer.firmware_model env) = None ->
      WebcamStreamer.video_pipeline managed_pipeline env raises self w
      = (WebcamStreamer.Normal, self,
         {| WebcamStreamer.cam_exclusive_use := WebcamStreamer.cam_exclusive_use w;
            WebcamStreamer.calls :=
              WebcamStreamer.calls w
              ++ [(WebcamStreamer.logger_warn
                     "Not running on a Pi. Quiting video_pipeline."%string,
                   false)] |})).
Proof.
  split.
  - intros address Henv Hne.
    split; [| reflexivity].
    unfold WebcamStreamer.video_pipeline.
    assert (Ht : WebcamStreamer.truthy (WebcamStreamer.getenv_JANUS_SERVER env)
                 = true).
    { rewrite Henv. cbn [WebcamStreamer.truthy].
      destruct (String.eqb_spec address ""%string); [contradiction | reflexivity]. }
    rewrite Ht.
    unfold WebcamStreamer.start_janus_ws_tunnel, WebcamStreamer.tunnel_url,
      WebcamStreamer.JANUS_SERVER, WebcamStreamer.call.
    rewrite Henv. reflexivity.
  - intros Hunset Hpi. unfold WebcamStreamer.video_pipeline.
    rewrite Hunset, Hpi. reflexivity.
Qed.

Lemma video_pipeline_entry_witness :
  WebcamStreamer.video_pipeline
    (fun self w => (WebcamStreamer.Exception, self, w))
    {| WebcamStreamer.getenv_JANUS_SERVER := Some "janus.local"%string;
       WebcamStreamer.firmware_model := None |}
    (fun _ => false) WebcamStreamer.init
    {| WebcamStreamer.cam_exclusive_use := false; WebcamStreamer.calls := [] |}
  = (WebcamStreamer.Normal,
     {| WebcamStreamer.pi_camera := None;
        WebcamStreamer.janus_ws := Some "ws://janus.local:8188/"%string;
        WebcamStreamer.webcam_server := None;
        WebcamStreamer.gst_proc := None;
        WebcamStreamer.ffmpeg_proc := None;
        WebcamStreamer.janus_proc := None;
        WebcamStreamer.shutting_down := false |},
     {| WebcamStreamer.cam_exclusive_use := false;
        WebcamStreamer.calls :=
          [(WebcamStreamer.websocket_client "ws://janus.local:8188/"%string,
            false)] |})
  /\ WebcamStreamer.video_pipeline
       (fun self w => (WebcamStreamer.Exception, self, w))
       {| WebcamStreamer.getenv_JANUS_SERVER := None;
          WebcamStreamer.firmware_model := Some "QEMU Standard PC"%string |}
       (fun _ => false) WebcamStreamer.init
       {| WebcamStreamer.cam_exclusive_use := false; WebcamStreamer.calls := [] |}
     = (WebcamStreamer.Normal, WebcamStreamer.init,
        {| WebcamStreamer.cam_exclusive_use := false;
           WebcamStreamer.calls :=
             [(WebcamStreamer.logger_warn
                 "Not running on a Pi. Quiting video_pipeline."%string,
               false)] |}).
Proof.
  split.
  - apply (proj1 (video_pipeline_entry
             (fun self w => (WebcamStreamer.Exception, self, w))
             {| WebcamStreamer.getenv_JANUS_SERVER := Some "janus.local"%string;
                WebcamStreamer.firmware_model := None |}
             (fun _ => false) WebcamStreamer.init
             {| WebcamStreamer.cam_exclusive_use := false;
                WebcamStreamer.calls := [] |})
           "janus.local"%string eq_refl).
    discriminate.
  - apply (proj2 (video_pipeline_entry
             (fun self w => (WebcamStreamer.Exception, self, w))
             {| WebcamStreamer.getenv_JANUS_SERVER := None;
                WebcamStreamer.firmware_model := Some "QEMU Standard PC"%string |}
             (fun _ => false) WebcamStreamer.init
             {| WebcamStreamer.cam_exclusive_use := false;
                WebcamStreamer.calls := [] |}));
      reflexivity.
Defined.

(** ** Capture-queue snapshot *)

Section Snapshot.

Import PiCamWebServer.

Lemma fresh_count_cons (p : pull) (pulls : list pull) :
  fresh_count (p :: pulls)
  = ((if fresh p then 1 else 0) + fresh_count pulls)%nat.
Proof. unfold fresh_count. cbn [List.filter]. now destruct (fresh p). Qed.

(** The loop returns at the pull that brings the number of fresh pulls
    to [k], with that pull's frame. *)
Lemma snapshot_loop_returns (pulls : list pull) (k : Z) (m : nat)
    (c : list byte) (n : nat) :
  1 <= k ->
  snapshot_loop k pulls m = Some (c, n) ->
  exists pre p post,
    pulls = pre ++ p :: post /\ fresh p = true
    /\ Z.of_nat (fresh_count pre) = k - 1
    /\ c = chunk p /\ n = (m + length pre + 1)%nat.
Proof.
  revert k m. induction pulls as [|p pulls IH]; intros k m Hk; [discriminate |].
  cbn [snapshot_loop]. destruct (fresh p) eqn:Hp.
  - destruct (Z.leb_spec (k - 1) 0) as [Hlast | Hmore].
    + intros [= <- <-]. exists [], p, pulls.
      cbn [app length fresh_count List.filter].
      repeat split; [exact Hp | lia | lia].
    + intros Hrec. apply IH in Hrec as (pre & q & post & -> & Hq & Hcnt & -> & ->);
        [| lia].
      exists (p :: pre), q, post. rewrite fresh_count_cons, Hp.
      cbn [app length]. repeat split; [exact Hq | lia | lia].
  - intros Hrec. apply IH in Hrec as (pre & q & post & -> & Hq & Hcnt & -> & ->);
      [| lia].
    exists (p :: pre), q, post. rewrite fresh_count_cons, Hp.
    cbn [app length]. repeat split; [exact Hq | lia | lia].
Qed.

Lemma snapshot_loop_waits (pulls : list pull) (k : Z) (m : nat) :
  1 <= k ->
  (snapshot_loop k pulls m = None <-> Z.of_nat (fresh_count pulls) < k).
Proof.
  revert k m. induction pulls as [|p pulls IH]; intros k m Hk.
  - cbn. split; [lia | reflexivity].
  - cbn [snapshot_loop]. rewrite fresh_count_cons.
    destruct (fresh p) eqn:Hp.
    + destruct (Z.leb_spec (k - 1) 0) as [Hlast | Hmore].
      * split; [discriminate | lia].
      * rewrite IH by lia. lia.
    + rewrite IH by lia. lia.
Qed.

Lemma snapshot_loop_stale_prefix (stale : list pull) (rest : list pull)
    (k : Z) (m : nat) :
  Forall (fun p => fresh p = false) stale ->
  snapshot_loop k (stale ++ rest) m
  = snapshot_loop k rest (m + length stale).
Proof.
  intros Hst. revert m. induction Hst as [|p stale Hp Hst IH]; intros m.
  - cbn [app length]. now rewrite Nat.add_0_r.
  - cbn [app snapshot_loop length]. rewrite Hp, IH. f_equal. lia.
Qed.

End Snapshot.

(** C9, as the code has it: [get_snapshot] returns at the third pull whose
    gap to the last capture is below 0.1 s, with the frame of that pull;
    pulls with a larger gap are discarded without being counted. So it
    makes at least three pulls, it is still waiting for as long as fewer
    than three such pulls have occurred, and the number of pulls has no
    upper bound: any number of stale pulls may come first. *)
Theorem get_snapshot_third_fresh_pull (pulls : list PiCamWebServer.pull) :
  (forall c n,
     PiCamWebServer.get_snapshot pulls = Some (c, n) ->
     exists pre p post,
       pulls = pre ++ p :: post
       /\ n = S (length pre)
       /\ c = PiCamWebServer.chunk p
       /\ (PiCamWebServer.gap p < 1 # 10)%Q
       /\ PiCamWebServer.fresh_count pre = 2%nat
       /\ (3 <= n)%nat)
  /\ (PiCamWebServer.get_snapshot pulls = None
      <-> (PiCamWebServer.fresh_count pulls < 3)%nat)
  /\ (forall stale,
        Forall (fun p => (1 # 10 <= PiCamWebServer.gap p)%Q) stale ->
        PiCamWebServer.get_snapshot (stale ++ pulls)
        = match PiCamWebServer.get_snapshot pulls with
          | Some (c, n) => Some (c, (length stale + n)%nat)
          | None => None
          end).
Proof.
  unfold PiCamWebServer.get_snapshot. split; [| split].
  - intros c n Hret.
    apply snapshot_loop_returns in Hret
      as (pre & p & post & -> & Hp & Hcnt & -> & ->); [| lia].
    exists pre, p, post. apply Qlt_bool_iff in Hp.
    assert (Hlen : (PiCamWebServer.fresh_count pre <= length pre)%nat)
      by apply List.filter_length_le.
    repeat split; [lia | exact Hp | lia | lia].
  - rewrite snapshot_loop_waits by lia. lia.
  - intros stale Hst.
    assert (Hst' : Forall (fun p => PiCamWebServer.fresh p = false) stale).
    { eapply Forall_impl; [exact Hst |]. intros p Hp.
      now apply Qlt_bool_false_iff. }
    rewrite snapshot_loop_stale_prefix by exact Hst'. cbn [Nat.add].
    generalize (length stale) as m. intros m.
    assert (Hshift : forall l k a,
               PiCamWebServer.snapshot_loop k l (m + a)
               = match PiCamWebServer.snapshot_loop k l a with
                 | Some (c, n) => Some (c, (m + n)%nat)
                 | None => None
                 end).
    { induction l as [|p l IH]; intros k a; [reflexivity |].
      cbn [PiCamWebServer.snapshot_loop].
      replace (S (m + a)) with (m + S a)%nat by lia.
      destruct (PiCamWebServer.fresh p); [destruct (k - 1 <=? 0) |];
        try apply IH.
      reflexivity. }
    rewrite <- (Hshift pulls 3 0%nat). f_equal. lia.
Qed.

Lemma get_snapshot_third_fresh_pull_witness :
  PiCamWebServer.get_snapshot
    ([ {| PiCamWebServer.chunk := [x00]; PiCamWebServer.gap := 1 # 5 |} ]
     ++ [ {| PiCamWebServer.chunk := [x01]; PiCamWebServer.gap := 1 # 20 |};
          {| PiCamWebServer.chunk := [x02]; PiCamWebServer.gap := 1 # 20 |};
          {| PiCamWebServer.chunk := [x03]; PiCamWebServer.gap := 1 # 20 |} ])
  = Some ([x03], 4%nat).
Proof.
  rewrite (proj2 (proj2 (get_snapshot_third_fresh_pull _))).
  - reflexivity.
  - repeat constructor. vm_compute. discriminate.
Defined.

(** C9 as stated fails: with four stale pulls before three fresh ones the
    handler pulls seven times before it returns, and with stale pulls only
    it does not return at all. *)
Lemma get_snapshot_pulls_unbounded :
  let stale := {| PiCamWebServer.chunk := [x00]; PiCamWebServer.gap := 1 # 5 |} in
  let fresh := {| PiCamWebServer.chunk := [x01]; PiCamWebServer.gap := 1 # 20 |} in
  PiCamWebServer.get_snapshot
    [stale; stale; stale; stale; fresh; fresh; fresh]
  = Some ([x01], 7%nat)
  /\ ~ (7 <= 1 + 3)%nat
  /\ PiCamWebServer.get_snapshot (repeat stale 50) = None.
Proof.
  cbv zeta. split; [reflexivity |]. split; [lia | reflexivity].
Qed.

(** * Further properties of the code *)

(** ** Backoff: shape of the delay curve *)

(** X1: with a non-negative ceiling every sleep lies between half and one
    and a half times its base [min(2^(attempts+1), max_seconds)], and the
    base of the next call is never smaller than the base of this one. *)
Theorem more_delay_bracket (self : ExpoBackoff.t) (u u' : Q) :
  (0 <= ExpoBackoff.max_seconds self)%Q -> (0 <= u < 1)%Q ->
  let base :=
    Qmin (2 ^ (ExpoBackoff.attempts self + 1)) (ExpoBackoff.max_seconds self) in
  let base' :=
    Qmin (2 ^ (ExpoBackoff.attempts self + 2)) (ExpoBackoff.max_seconds self) in
  (base * (1 # 2) <= snd (ExpoBackoff.more self u))%Q
  /\ (snd (ExpoBackoff.more self u) <= base * (3 # 2))%Q
  /\ (base <= base')%Q
  /\ (snd (ExpoBackoff.more (fst (ExpoBackoff.more self u)) u')
      == base' * ((1 # 2) + u'))%Q.
Proof.
  intros Hmax Hu base base'.
  assert (Hpow : (0 < 2 ^ (ExpoBackoff.attempts self + 1))%Q)
    by (apply Qpower_0_lt; lra).
  assert (Hbase : (0 <= base)%Q).
  { subst base. apply Q.min_glb; lra. }
  assert (Hstep : (2 ^ (ExpoBackoff.attempts self + 1)
                   <= 2 ^ (ExpoBackoff.attempts self + 2))%Q).
  { apply Qpower_le_compat_l; [lia | lra]. }
  split; [| split; [| split]].
  - rewrite more_delay. fold base. nra.
  - rewrite more_delay. fold base. nra.
  - subst base base'. apply Q.min_glb.
    + eapply Qle_trans; [apply Q.le_min_l | exact Hstep].
    + apply Q.le_min_r.
  - rewrite more_delay, more_attempts, more_max_seconds.
    now replace (ExpoBackoff.attempts self + 1 + 1)
      with (ExpoBackoff.attempts self + 2) by lia.
Qed.

Lemma more_delay_bracket_witness :
  (Qmin (2 ^ (-3 + 1)) 120 * (1 # 2)
   <= snd (ExpoBackoff.more (ExpoBackoff.init 120) (1 # 3)))%Q.
Proof.
  assert (Hmax : (0 <= ExpoBackoff.max_seconds (ExpoBackoff.init 120))%Q)
    by (vm_compute; discriminate).
  assert (Hu : (0 <= 1 # 3 < 1)%Q) by (split; vm_compute; congruence).
  exact (proj1 (more_delay_bracket (ExpoBackoff.init 120) (1 # 3) 0 Hmax Hu)).
Defined.

Lemma more_seq_saturated_aux (randoms : list Q) (self : ExpoBackoff.t) :
  (ExpoBackoff.max_seconds self <= 2 ^ (ExpoBackoff.attempts self + 1))%Q ->
  Forall2 (fun u d => (d == ExpoBackoff.max_seconds self * ((1 # 2) + u))%Q)
    randoms (snd (ExpoBackoff.more_seq self randoms)).
Proof.
  revert self. induction randoms as [|u us IH]; intros self Hsat.
  - constructor.
  - rewrite more_seq_cons. cbn [snd]. constructor.
    + rewrite more_delay. now rewrite Q.min_r.
    + specialize (IH (fst (ExpoBackoff.more self u))).
      rewrite more_max_seconds, more_attempts in IH. apply IH.
      eapply Qle_trans; [exact Hsat |].
      apply Qpower_le_compat_l; [lia | lra].
Qed.

(** X2: once the power of two has reached the ceiling
    ([max_seconds <= 2^(attempts+1)]), every later call sleeps exactly
    [max_seconds * (0.5 + u)]: the curve stays flat until [reset]. *)
Theorem more_seq_saturated (self : ExpoBackoff.t) (randoms : list Q) :
  (ExpoBackoff.max_seconds self <= 2 ^ (ExpoBackoff.attempts self + 1))%Q ->
  Forall2 (fun u d => (d == ExpoBackoff.max_seconds self * ((1 # 2) + u))%Q)
    randoms (snd (ExpoBackoff.more_seq self randoms)).
Proof. apply more_seq_saturated_aux. Qed.

Lemma more_seq_saturated_witness :
  Forall2 (fun u d => (d == 120 * ((1 # 2) + u))%Q)
    [0%Q; 1 # 2]
    (snd (ExpoBackoff.more_seq
            {| ExpoBackoff.attempts := 6; ExpoBackoff.max_seconds := 120 |}
            [0%Q; 1 # 2])).
Proof.
  apply (more_seq_saturated
           {| ExpoBackoff.attempts := 6; ExpoBackoff.max_seconds := 120 |}).
  vm_compute. discriminate.
Defined.

(** ** Connection error tracker: what a run of calls sends and records *)

Section TrackerRuns.

Import ConnectionErrorTracker.

Lemma attempt_count_run_mono (calls : list call) (self : t) (ty : string) :
  attempt_count self ty <= attempt_count (fst (run self calls)) ty.
Proof.
  rewrite run_attempt_count. unfold attempt_calls, len. lia.
Qed.

Lemma notification_due_attempts (a e : Z) :
  notification_due a e = true -> 8 <= a.
Proof.
  unfold notification_due. destruct (Z.ltb_spec a 8); [discriminate | lia].
Qed.

Lemma notification_due_more_errors (a e : Z) :
  notification_due a e = true -> notification_due a (e + 1) = true.
Proof.
  unfold notification_due.
  destruct (a <? 8); [discriminate |]. cbn [negb andb].
  assert (Hmono : forall q : Q,
             Qlt_bool (inject_Z e) q = false ->
             Qlt_bool (inject_Z (e + 1)) q = false).
  { intros q H. apply Qlt_bool_false_iff in H. apply Qlt_bool_false_iff.
    eapply Qle_trans; [exact H |]. rewrite <- Zle_Qle. lia. }
  destruct (a <? 10); cbn [andb].
  - destruct (Qlt_bool (inject_Z e) (inject_Z a * (1 # 2))) eqn:E1;
      [discriminate |].
    rewrite (Hmono _ E1). cbn [negb andb].
    destruct (Qlt_bool (inject_Z e) (inject_Z a * (1 # 4))) eqn:E2;
      [discriminate |].
    now rewrite (Hmono _ E2).
  - destruct (Qlt_bool (inject_Z e) (inject_Z a * (1 # 4))) eqn:E2;
      [discriminate |].
    now rewrite (Hmono _ E2).
Qed.

Lemma do_call_messages (self : t) (c : call) (m : message) :
  In m (snd (do_call self c)) ->
  exists ty now,
    c = AddConnectionError ty now /\ m = new_error ty
    /\ 8 <= attempt_count (fst (do_call self c)) ty.
Proof.
  destruct c as [ty | ty now]; cbn [do_call snd fst]; [intros [] |].
  rewrite add_connection_error_messages, notify_by_counts.
  destruct (notification_due _ _) eqn:Hdue; [| intros []].
  intros [<- | []]. exists ty, now.
  repeat split. now apply notification_due_attempts in Hdue.
Qed.

Lemma run_messages (calls : list call) (self : t) (m : message) :
  In m (snd (run self calls)) ->
  exists ty now,
    In (AddConnectionError ty now) calls /\ m = new_error ty
    /\ 8 <= attempt_count (fst (run self calls)) ty.
Proof.
  revert self. induction calls as [|c calls IH]; intros self; [intros [] |].
  rewrite run_cons. cbn [fst snd]. rewrite in_app_iff. intros [Hm | Hm].
  - apply do_call_messages in Hm as (ty & now & -> & -> & Hge).
    exists ty, now. repeat split; [now left |].
    eapply Z.le_trans; [exact Hge | apply attempt_count_run_mono].
  - apply IH in Hm as (ty & now & Hin & -> & Hge).
    exists ty, now. repeat split; [now right | exact Hge].
Qed.

Lemma run_messages_length (calls : list call) (self : t) :
  (length (snd (run self calls))
   <= length (List.filter
                (fun c => match c with
                          | AddConnectionError _ _ => true
                          | Attempt _ => false
                          end) calls))%nat.
Proof.
  revert self. induction calls as [|c calls IH]; intros self; [cbn; lia |].
  rewrite run_cons. cbn [snd]. rewrite length_app.
  specialize (IH (fst (do_call self c))).
  destruct c as [ty | ty now]; cbn [List.filter do_call fst snd length] in *.
  - lia.
  - rewrite add_connection_error_messages.
    destruct (notify_cases (fst (add_connection_error self ty now)) ty)
      as [-> | ->]; cbn [length]; lia.
Qed.

Lemma do_call_errors (self : t) (c : call) (ty : string) :
  errors (fst (do_call self c)) !! ty
  = match ConnectionErrorLog.reported ty c with
    | [] => errors self !! ty
    | ts => Some (default [] (errors self !! ty) ++ ts)
    end.
Proof.
  destruct c as [ty' | ty' now];
    cbn [do_call fst ConnectionErrorLog.reported]; [reflexivity |].
  unfold add_connection_error; cbn [fst errors].
  case_bool_decide as Heq.
  - subst ty'. now rewrite lookup_insert_eq.
  - now rewrite lookup_insert_ne.
Qed.

Lemma run_errors (calls : list call) (self : t) (ty : string) :
  errors (fst (run self calls)) !! ty
  = match ConnectionErrorLog.timestamps_for ty calls with
    | [] => errors self !! ty
    | ts => Some (default [] (errors self !! ty) ++ ts)
    end.
Proof.
  revert self. induction calls as [|c calls IH]; intros self; [reflexivity |].
  rewrite run_cons. cbn [fst]. rewrite IH, do_call_errors.
  unfold ConnectionErrorLog.timestamps_for. cbn [flat_map].
  fold (ConnectionErrorLog.timestamps_for ty calls).
  destruct (ConnectionErrorLog.reported ty c) as [|t ts] eqn:Hc;
    cbn [app]; [reflexivity |].
  destruct (ConnectionErrorLog.timestamps_for ty calls) as [|t' ts'];
    cbn [default].
  - now rewrite app_nil_r.
  - unfold id. f_equal. now rewrite <- app_assoc.
Qed.

End TrackerRuns.

(** X3: whatever calls are made on whatever tracker, every message sent
    is a [new_error] for a category on which [add_connection_error] was
    called, that category has at least 8 attempts by the end of the run,
    and no more messages are sent than [add_connection_error] calls are
    made. In particular a category with fewer than 8 attempts never
    notifies. *)
Theorem run_notifications
    (self : ConnectionErrorTracker.t) (calls : list ConnectionErrorTracker.call) :
  (forall m, In m (snd (ConnectionErrorTracker.run self calls)) ->
     exists ty now,
       In (ConnectionErrorTracker.AddConnectionError ty now) calls
       /\ m = ConnectionErrorTracker.new_error ty
       /\ 8 <= ConnectionErrorTracker.attempt_count
                 (fst (ConnectionErrorTracker.run self calls)) ty)
  /\ (length (snd (ConnectionErrorTracker.run self calls))
      <= length (List.filter
                   (fun c => match c with
                             | ConnectionErrorTracker.AddConnectionError _ _ => true
                             | ConnectionErrorTracker.Attempt _ => false
                             end) calls))%nat
  /\ (forall ty,
        ConnectionErrorTracker.attempt_count
          (fst (ConnectionErrorTracker.run self calls)) ty < 8 ->
        ~ In (ConnectionErrorTracker.new_error ty)
            (snd (ConnectionErrorTracker.run self calls))).
Proof.
  split; [| split].
  - intros m. apply run_messages.
  - apply run_messages_length.
  - intros ty Hlt Hin.
    apply run_messages in Hin as (ty' & now & _ & [= <-] & Hge). lia.
Qed.

(** X4: the error log returned by [as_dict] holds, for every category,
    the clock readings of its [add_connection_error] calls in call order,
    appended to what was logged before; a category gets a key only once an
    error has been added for it, and calls for other categories leave its
    entry alone. *)
Theorem as_dict_log
    (self : ConnectionErrorTracker.t) (calls : list ConnectionErrorTracker.call)
    (ty : string) :
  default [] (ConnectionErrorLog.as_dict
                (fst (ConnectionErrorTracker.run self calls)) !! ty)
  = default [] (ConnectionErrorLog.as_dict self !! ty)
    ++ ConnectionErrorLog.timestamps_for ty calls
  /\ (ConnectionErrorLog.as_dict
        (fst (ConnectionErrorTracker.run ConnectionErrorTracker.init calls)) !! ty
      = None
      <-> ConnectionErrorLog.timestamps_for ty calls = [])
  /\ (ConnectionErrorLog.timestamps_for ty calls = [] ->
      ConnectionErrorLog.as_dict (fst (ConnectionErrorTracker.run self calls)) !! ty
      = ConnectionErrorLog.as_dict self !! ty).
Proof.
  unfold ConnectionErrorLog.as_dict. rewrite !run_errors.
  split; [| split].
  - destruct (ConnectionErrorLog.timestamps_for ty calls) as [|t ts];
      cbn [default]; [now rewrite app_nil_r | reflexivity].
  - destruct (ConnectionErrorLog.timestamps_for ty calls) as [|t ts].
    + split; [reflexivity | intros _; apply lookup_empty].
    + split; discriminate.
  - now intros ->.
Qed.

Lemma as_dict_log_witness :
  default []
    (ConnectionErrorLog.as_dict
       (fst (ConnectionErrorTracker.run ConnectionErrorTracker.init
               [ConnectionErrorTracker.AddConnectionError "server"%string 5;
                ConnectionErrorTracker.Attempt "server"%string;
                ConnectionErrorTracker.AddConnectionError "webcam"%string 6;
                ConnectionErrorTracker.AddConnectionError "server"%string 7]))
     !! "server"%string)
  = [5; 7].
Proof.
  rewrite (proj1 (as_dict_log ConnectionErrorTracker.init _ "server"%string)).
  reflexivity.
Defined.

(** X5: the tracker does not deduplicate: when [add_connection_error]
    sends the message for a category, a further [add_connection_error]
    for that category made right after it sends the message again. *)
Theorem add_connection_error_repeats
    (self : ConnectionErrorTracker.t) (ty : string)
    (now1 now2 : ConnectionErrorTracker.datetime) :
  snd (ConnectionErrorTracker.add_connection_error self ty now1)
  = [ConnectionErrorTracker.new_error ty] ->
  snd (ConnectionErrorTracker.add_connection_error
         (fst (ConnectionErrorTracker.add_connection_error self ty now1))
         ty now2)
  = [ConnectionErrorTracker.new_error ty].
Proof.
  rewrite !add_connection_error_messages, !notify_by_counts.
  rewrite !add_connection_error_attempt_count,
    !add_connection_error_error_count, bool_decide_eq_true_2 by reflexivity.
  destruct (ConnectionErrorTracker.notification_due _ _) eqn:Hdue;
    [| discriminate].
  intros _. now rewrite (notification_due_more_errors _ _ Hdue).
Qed.

Lemma add_connection_error_repeats_witness :
  snd (ConnectionErrorTracker.add_connection_error
         (fst (ConnectionErrorTracker.add_connection_error
                 {| ConnectionErrorTracker.attempts := {[ "server"%string := 10 ]};
                    ConnectionErrorTracker.errors :=
                      {[ "server"%string := [1; 2] ]} |}
                 "server"%string 3))
         "server"%string 4)
  = [ConnectionErrorTracker.new_error "server"%string].
Proof.
  apply add_connection_error_repeats.
  rewrite add_connection_error_messages, notify_by_counts.
  rewrite add_connection_error_attempt_count, add_connection_error_error_count.
  unfold ConnectionErrorTracker.attempt_count, ConnectionErrorTracker.error_count.
  cbn [ConnectionErrorTracker.attempts ConnectionErrorTracker.errors].
  rewrite !lookup_singleton_eq. reflexivity.
Defined.

(** ** Image metadata: interpreters, ranges, segments *)

Section ImageMore.

Import ImageInfo.

Lemma code_range (c : byte) : 0 <= code c < 256.
Proof.
  unfold code. pose proof (Byte.to_N_bounded c) as H.
  apply N2Z.inj_le in H. change (Z.of_N 255) with 255 in H. lia.
Qed.

Lemma unpack_be_HH_range (s : bytes) (a b : Z) :
  unpack_be_HH s = Some (a, b) -> 0 <= a < 65536 /\ 0 <= b < 65536.
Proof.
  destruct s as [|a1 [|a0 [|b1 [|b0 [|? ?]]]]]; try discriminate.
  intros [= <- <-].
  pose proof (code_range a1). pose proof (code_range a0).
  pose proof (code_range b1). pose proof (code_range b0). lia.
Qed.

Lemma unpack_le_HH_range (s : bytes) (a b : Z) :
  unpack_le_HH s = Some (a, b) -> 0 <= a < 65536 /\ 0 <= b < 65536.
Proof.
  destruct s as [|a1 [|a0 [|b1 [|b0 [|? ?]]]]]; try discriminate.
  intros [= <- <-].
  pose proof (code_range a1). pose proof (code_range a0).
  pose proof (code_range b1). pose proof (code_range b0). lia.
Qed.

Lemma be32_range (a3 a2 a1 a0 : byte) : 0 <= be32 a3 a2 a1 a0 < 4294967296.
Proof.
  unfold be32.
  pose proof (code_range a3). pose proof (code_range a2).
  pose proof (code_range a1). pose proof (code_range a0). lia.
Qed.

Lemma unpack_be_LL_range (s : bytes) (a b : Z) :
  unpack_be_LL s = Some (a, b) ->
  0 <= a < 4294967296 /\ 0 <= b < 4294967296.
Proof.
  destruct s as [|a3 [|a2 [|a1 [|a0 [|b3 [|b2 [|b1 [|b0 [|? ?]]]]]]]]];
    try discriminate.
  intros [= <- <-]. split; apply be32_range.
Qed.

Lemma jpeg_markers_found_range (fuel : nat) (b jpeg : bytes) (h w : Z) :
  jpeg_markers fuel b jpeg = Found h w ->
  0 <= h < 65536 /\ 0 <= w < 65536.
Proof.
  revert b jpeg. induction fuel as [|fuel IH]; intros b jpeg; [discriminate |].
  cbn [jpeg_markers].
  destruct b as [|b0 b']; [discriminate |].
  destruct (ord (b0 :: b')) as [c|]; [| discriminate].
  destruct (c =? 218); [discriminate |].
  destruct (read_until_ff (b0 :: b') jpeg) as [[b1 jpeg1]|]; [| discriminate].
  destruct (read_while_ff b1 jpeg1) as [[b2 jpeg2]|]; [| discriminate].
  destruct (ord b2) as [m|]; [| discriminate].
  destruct ((192 <=? m) && (m <=? 195)).
  - destruct (read 3 jpeg2) as [? jpeg3]. destruct (read 4 jpeg3) as [hw ?].
    destruct (unpack_be_HH hw) as [[h' w']|] eqn:E; [| discriminate].
    intros [= <- <-]. now apply unpack_be_HH_range in E.
  - destruct (read 2 jpeg2) as [l jpeg3].
    destruct (unpack_be_H l) as [n|]; [| discriminate].
    destruct (read (n - 2) jpeg3) as [? jpeg4].
    destruct (read 1 jpeg4) as [b3 jpeg5]. apply IH.
Qed.

End ImageMore.

(** X6: the interpreter matters only for GIF and PNG: on every input the
    Python 3 result either equals the Python 2 result or is the
    [TypeError] of [struct.unpack], and on input that starts with the
    JPEG start-of-image marker the two always agree. *)
Theorem get_image_info_interpreters (data : ImageInfo.bytes) :
  (ImageInfo.get_image_info ImageInfo.Python3 data
   = ImageInfo.get_image_info ImageInfo.Python2 data
   \/ ImageInfo.get_image_info ImageInfo.Python3 data
      = ImageInfo.Raised ImageInfo.TypeError)
  /\ (ImageInfo.startswith data ImageInfo.JPEG_SOI = true ->
      ImageInfo.get_image_info ImageInfo.Python3 data
      = ImageInfo.get_image_info ImageInfo.Python2 data).
Proof.
  split.
  - unfold ImageInfo.get_image_info.
    repeat match goal with
           | |- context [if ?c then _ else _] =>
               destruct c; [right; reflexivity |]
           end.
    left; reflexivity.
  - intros Hsoi. unfold ImageInfo.get_image_info.
    destruct data as [|c0 [|c1 data]];
      cbn [ImageInfo.startswith ImageInfo.JPEG_SOI] in Hsoi;
      rewrite ?andb_false_r in Hsoi; try discriminate Hsoi.
    apply andb_prop in Hsoi as [H0 H1]. apply andb_prop in H1 as [H1 _].
    apply Byte.byte_dec_bl in H0, H1. subst c0 c1.
    change (ImageInfo.slice 0 6 (xff :: xd8 :: data))
      with (xff :: xd8 :: firstn 4 data).
    change ImageInfo.GIF87a with (x47 :: [x49; x46; x38; x37; x61]).
    change ImageInfo.GIF89a with (x47 :: [x49; x46; x38; x39; x61]).
    unfold ImageInfo.PNG_signature.
    rewrite !bytes_eqb_first_ne, !startswith_first_ne by discriminate.
    cbn [orb]. rewrite !andb_false_r. reflexivity.
Qed.

Lemma get_image_info_interpreters_witness :
  ImageInfo.get_image_info ImageInfo.Python3 [xff; xd8; xff; xe0]
  = ImageInfo.get_image_info ImageInfo.Python2 [xff; xd8; xff; xe0].
Proof.
  apply (proj2 (get_image_info_interpreters [xff; xd8; xff; xe0])).
  reflexivity.
Defined.

(** X7: whenever the call returns, the format tag is one of the four
    known ones and the sizes fit it: the empty tag comes with -1 x -1;
    GIF sizes are 16-bit, PNG sizes 32-bit, and JPEG sizes are either
    both -1 or both 16-bit. *)
Theorem get_image_info_ranges (py : ImageInfo.py_version)
    (data : ImageInfo.bytes) (tag : string) (w h : Z) :
  ImageInfo.get_image_info py data = ImageInfo.Returned (tag, w, h) ->
  (tag = ""%string /\ w = -1 /\ h = -1)
  \/ (tag = "image/gif"%string /\ 0 <= w < 65536 /\ 0 <= h < 65536)
  \/ (tag = "image/png"%string /\ 0 <= w < 4294967296 /\ 0 <= h < 4294967296)
  \/ (tag = "image/jpeg"%string
      /\ ((w = -1 /\ h = -1) \/ (0 <= w < 65536 /\ 0 <= h < 65536))).
Proof.
  unfold ImageInfo.get_image_info.
  destruct (_ && _).
  { unfold ImageInfo.unpack_slice. destruct py; [| discriminate].
    destruct (ImageInfo.unpack_le_HH _) as [[w' h']|] eqn:E; [| discriminate].
    intros [= <- <- <-]. apply unpack_le_HH_range in E. right; left. tauto. }
  destruct (_ && _).
  { unfold ImageInfo.unpack_slice. destruct py; [| discriminate].
    destruct (ImageInfo.unpack_be_LL _) as [[w' h']|] eqn:E; [| discriminate].
    intros [= <- <- <-]. apply unpack_be_LL_range in E.
    right; right; left. tauto. }
  destruct (_ && _).
  { unfold ImageInfo.unpack_slice. destruct py; [| discriminate].
    destruct (ImageInfo.unpack_be_LL _) as [[w' h']|] eqn:E; [| discriminate].
    intros [= <- <- <-]. apply unpack_be_LL_range in E.
    right; right; left. tauto. }
  destruct (_ && _).
  - destruct (ImageInfo.read 2 data) as [soi jpeg].
    destruct (ImageInfo.read 1 jpeg) as [b1 jpeg'].
    destruct (ImageInfo.jpeg_markers _ b1 jpeg') as [h' w'| |e|] eqn:E.
    + intros [= <- <- <-]. apply jpeg_markers_found_range in E.
      right; right; right. tauto.
    + discriminate.
    + destruct e; try discriminate; intros [= <- <- <-];
        right; right; right; tauto.
    + discriminate.
  - intros [= <- <- <-]. left. tauto.
Qed.

Lemma get_image_info_ranges_witness :
  ("image/jpeg"%string = ""%string /\ 772 = -1 /\ 258 = -1)
  \/ ("image/jpeg"%string = "image/gif"%string
      /\ 0 <= 772 < 65536 /\ 0 <= 258 < 65536)
  \/ ("image/jpeg"%string = "image/png"%string
      /\ 0 <= 772 < 4294967296 /\ 0 <= 258 < 4294967296)
  \/ ("image/jpeg"%string = "image/jpeg"%string
      /\ ((772 = -1 /\ 258 = -1) \/ (0 <= 772 < 65536 /\ 0 <= 258 < 65536))).
Proof.
  apply (get_image_info_ranges ImageInfo.Python3
           [xff; xd8; xff; xc0; x00; x11; x08; x01; x02; x03; x04]).
  reflexivity.
Defined.

Section JpegSegments.

Import ImageInfo.


Lemma skippable_spec (m : byte) :
  JpegStream.skippable m = true ->
  (code m =? 255) = false /\ ((192 <=? code m) && (code m <=? 195)) = false.
Proof.
  unfold JpegStream.skippable. intros H.
  apply andb_prop in H as [H1 H2].
  now apply negb_true_iff in H1, H2.
Qed.

Lemma read_until_ff_at_ff (jpeg : bytes) :
  read_until_ff [xff] jpeg = Some ([xff], jpeg).
Proof. destruct jpeg; reflexivity. Qed.

Lemma read_while_ff_marker (m : byte) (r : bytes) :
  (code m =? 255) = false -> read_while_ff [xff] (m :: r) = Some ([m], r).
Proof.
  intros Hff. cbn [read_while_ff ord].
  change (code xff =? 255) with true. cbv iota.
  destruct r as [|x r]; cbn [read_while_ff ord]; now rewrite Hff.
Qed.

Lemma jpeg_markers_at_ff (fuel : nat) (jpeg : bytes) :
  jpeg_markers (S fuel) [xff] jpeg
  = match read_while_ff [xff] jpeg with
    | None => Error TypeError
    | Some (b2, jpeg2) =>
        match ord b2 with
        | None => Error TypeError
        | Some m =>
            if (192 <=? m) && (m <=? 195) then
              let '(_, jpeg3) := read 3 jpeg2 in
              let '(hw, _) := read 4 jpeg3 in
              match unpack_be_HH hw with
              | Some (h, w) => Found h w
              | None => Error struct_error
              end
            else
              let '(l, jpeg3) := read 2 jpeg2 in
              match unpack_be_H l with
              | None => Error struct_error
              | Some n =>
                  let '(_, jpeg4) := read (n - 2) jpeg3 in
                  let '(b', jpeg5) := read 1 jpeg4 in
                  jpeg_markers fuel b' jpeg5
              end
        end
    end.
Proof.
  cbn [jpeg_markers]. rewrite read_until_ff_at_ff. reflexivity.
Qed.




End JpegSegments.



(** X9: a segment whose declared length is 0 or 1 makes the loop read to
    the end of the data ([read] with a negative size) and leave without
    having found a frame, so the call raises [UnboundLocalError] whatever
    follows the length. *)
Theorem get_image_info_short_segment_length (py : ImageInfo.py_version)
    (m l0 : byte) (rest : ImageInfo.bytes) :
  JpegStream.skippable m = true -> ImageInfo.code l0 < 2 ->
  ImageInfo.get_image_info py (xff :: xd8 :: xff :: m :: x00 :: l0 :: rest)
  = ImageInfo.Raised ImageInfo.UnboundLocalError.
Proof.
  intros Hm Hl0. apply skippable_spec in Hm as [Hff Hsof].
  unfold ImageInfo.get_image_info.
  set (data := xff :: xd8 :: _).
  assert (Hsize : (2 <=? ImageInfo.len data) = true).
  { apply Z.leb_le. unfold ImageInfo.len, data. cbn [length]. lia. }
  rewrite Hsize. subst data.
  change (ImageInfo.slice 0 6 (xff :: xd8 :: xff :: m :: x00 :: l0 :: rest))
    with (xff :: xd8 :: xff :: m :: x00 :: l0 :: firstn 0 rest).
  change ImageInfo.GIF87a with (x47 :: [x49; x46; x38; x37; x61]).
  change ImageInfo.GIF89a with (x47 :: [x49; x46; x38; x39; x61]).
  unfold ImageInfo.PNG_signature.
  rewrite !bytes_eqb_first_ne, !startswith_first_ne by discriminate.
  cbn [orb]. rewrite !andb_false_r.
  change (ImageInfo.startswith (xff :: xd8 :: ?r) ImageInfo.JPEG_SOI) with true.
  cbn [andb].
  change (ImageInfo.read 2 (xff :: xd8 :: ?r)) with ([xff; xd8], r).
  cbv beta iota.
  change (ImageInfo.read 1 (xff :: ?r)) with ([xff], r).
  cbv beta iota. cbn [length].
  rewrite jpeg_markers_at_ff, read_while_ff_marker by exact Hff.
  cbn [ImageInfo.ord]. rewrite Hsof.
  change (ImageInfo.read 2 (x00 :: l0 :: rest)) with ([x00; l0], rest).
  cbv beta iota. cbn [ImageInfo.unpack_be_H].
  change (ImageInfo.code x00) with 0.
  unfold ImageInfo.read at 1.
  destruct (Z.ltb_spec (256 * 0 + ImageInfo.code l0 - 2) 0) as [_ | Hge];
    [| lia].
  reflexivity.
Qed.

Lemma get_image_info_short_segment_length_witness :
  ImageInfo.get_image_info ImageInfo.Python2
    [xff; xd8; xff; xe0; x00; x01; xff; xc0; x00; x11; x08;
     x01; x00; x01; x00]
  = ImageInfo.Raised ImageInfo.UnboundLocalError.
Proof.
  apply get_image_info_short_segment_length.
  - reflexivity.
  - reflexivity.
Defined.

Section PngOld.

Import ImageInfo.

Lemma bytes_eqb_eq (a b : bytes) : bytes_eqb a b = true -> a = b.
Proof.
  revert b. induction a as [|x a IH]; intros [|y b]; cbn [bytes_eqb];
    try discriminate; [reflexivity |].
  intros H. apply andb_prop in H as [Hxy Hab].
  apply Byte.byte_dec_bl in Hxy. apply IH in Hab. now subst.
Qed.

Lemma png_old_branch (c3 c2 c1 c0 d3 d2 d1 d0 : byte) (tail : bytes) :
  (length tail < 8)%nat \/ [d3; d2; d1; d0] <> IHDR ->
  get_image_info Python2
    (PNG_signature ++ [c3; c2; c1; c0; d3; d2; d1; d0] ++ tail)
  = Returned ("image/png"%string, be32 c3 c2 c1 c0, be32 d3 d2 d1 d0).
Proof.
  intros Hold. unfold get_image_info.
  set (data := PNG_signature ++ _).
  assert (Hsize : len data = 16 + Z.of_nat (length tail)).
  { unfold len, data. cbn [PNG_signature app length]. lia. }
  assert (H16 : (16 <=? len data) = true) by (apply Z.leb_le; lia).
  assert (Hihdr : ((24 <=? len data) && startswith data PNG_signature
                   && bytes_eqb (slice 12 16 data) IHDR) = false).
  { destruct Hold as [Hshort | Hne].
    - assert (H24 : (24 <=? len data) = false) by (apply Z.leb_gt; lia).
      now rewrite H24.
    - destruct (bytes_eqb (slice 12 16 data) IHDR) eqn:E.
      + apply bytes_eqb_eq in E. contradiction.
      + apply andb_false_r. }
  assert (Hgif : (bytes_eqb (slice 0 6 data) GIF87a
                  || bytes_eqb (slice 0 6 data) GIF89a) = false)
    by reflexivity.
  assert (Hsig : startswith data PNG_signature = true) by reflexivity.
  rewrite Hgif, andb_false_r, Hihdr, H16, Hsig. reflexivity.
Qed.

End PngOld.

(** X10: input with the PNG signature and at least 16 bytes that is
    shorter than 24 bytes, or does not have ['IHDR'] at offset 12, is
    read the old way under Python 2: bytes 8..11 are returned as the
    width and bytes 12..15 as the height. So a standard PNG header cut
    to 16..23 bytes is reported as 13 x 1229472850 (the IHDR chunk
    length and the letters 'IHDR'), and PNG-signed input shorter than 16
    bytes gives the unknown result. *)
Theorem get_image_info_png_without_ihdr :
  (forall (c3 c2 c1 c0 d3 d2 d1 d0 : byte) (tail : ImageInfo.bytes),
     (length tail < 8)%nat \/ [d3; d2; d1; d0] <> ImageInfo.IHDR ->
     ImageInfo.get_image_info ImageInfo.Python2
       (ImageInfo.PNG_signature ++ [c3; c2; c1; c0; d3; d2; d1; d0] ++ tail)
     = ImageInfo.Returned ("image/png"%string, ImageInfo.be32 c3 c2 c1 c0,
                           ImageInfo.be32 d3 d2 d1 d0))
  /\ (forall (w h : Z) (n : nat), (16 <= n < 24)%nat ->
        ImageInfo.get_image_info ImageInfo.Python2
          (firstn n (ImageInfo.png_header w h))
        = ImageInfo.Returned ("image/png"%string, 13, 1229472850))
  /\ (forall (py : ImageInfo.py_version) (tail : ImageInfo.bytes),
        (length tail < 8)%nat ->
        ImageInfo.get_image_info py (ImageInfo.PNG_signature ++ tail)
        = ImageInfo.unknown).
Proof.
  split; [| split].
  - intros. now apply png_old_branch.
  - intros w h n Hn.
    assert (Hcases : (n = 16 \/ n = 17 \/ n = 18 \/ n = 19 \/ n = 20
                      \/ n = 21 \/ n = 22 \/ n = 23)%nat) by lia.
    destruct Hcases as [-> | [-> | [-> | [-> | [-> | [-> | [-> | ->]]]]]]];
      reflexivity.
  - intros py tail Hlen.
    do 8 (destruct tail as [|? tail]; [reflexivity |]).
    cbn [length] in Hlen. lia.
Qed.

Lemma get_image_info_png_without_ihdr_witness :
  ImageInfo.get_image_info ImageInfo.Python2
    (ImageInfo.PNG_signature ++ [x00; x00; x01; x40; x00; x00; x00; xf0] ++ [])
  = ImageInfo.Returned ("image/png"%string, 320, 240)
  /\ ImageInfo.get_image_info ImageInfo.Python2
       (firstn 20 (ImageInfo.png_header 640 480))
     = ImageInfo.Returned ("image/png"%string, 13, 1229472850).
Proof.
  split.
  - rewrite (proj1 get_image_info_png_without_ihdr);
      [reflexivity | left; cbn; lia].
  - apply (proj1 (proj2 get_image_info_png_without_ihdr)). lia.
Defined.

(** ** Process monitors *)

Section Monitors.

Import Supervisor.

Lemma deque_append_last {A} (m : nat) (d : list A) (x : A) :
  (0 < m)%nat -> (length d <= m)%nat ->
  deque_append m d x = skipn (length (d ++ [x]) - m) (d ++ [x]).
Proof.
  intros Hm Hd. unfold deque_append. rewrite length_app. cbn [length].
  destruct (Nat.ltb_spec (length d) m) as [Hlt | Hge].
  - now replace (length d + 1 - m)%nat with 0%nat by lia.
  - replace (length d + 1 - m)%nat with 1%nat by lia.
    destruct d as [|y d]; [cbn [length] in Hge; lia |]. reflexivity.
Qed.

Lemma fold_deque_append {A} (m : nat) (xs d : list A) :
  (0 < m)%nat -> (length d <= m)%nat ->
  fold_left (deque_append m) xs d
  = skipn (length (d ++ xs) - m) (d ++ xs).
Proof.
  intros Hm. revert d. induction xs as [|x xs IH]; intros d Hd.
  - cbn [fold_left]. rewrite app_nil_r.
    now replace (length d - m)%nat with 0%nat by lia.
  - cbn [fold_left].
    assert (Hd' : (length (deque_append m d x) <= m)%nat).
    { rewrite (deque_append_last m d x Hm Hd), length_drop, length_app.
      cbn [length]. lia. }
    rewrite (IH _ Hd'), (deque_append_last m d x Hm Hd).
    set (k := (length (d ++ [x]) - m)%nat).
    assert (Hk : (k <= length (d ++ [x]))%nat) by (subst k; lia).
    rewrite <- (drop_app_le (d ++ [x]) xs k Hk), drop_drop.
    rewrite <- (app_assoc d [x] xs). cbn [app]. f_equal.
    rewrite length_drop. subst k. rewrite !length_app. cbn [length].
    rewrite length_app in Hk. cbn [length] in Hk. lia.
Qed.

Lemma ring_buffer_last (ls : list string) :
  ring_buffer ls = skipn (length ls - 50) ls.
Proof.
  unfold ring_buffer. rewrite fold_deque_append by (cbn [length]; lia).
  reflexivity.
Qed.

Lemma ensure_gst_process_from_cons (b : ExpoBackoff.t) (l : life)
    (lives : list life) :
  ensure_gst_process_from b (l :: lives)
  = if shutting_down l then ([], true)
    else
      (wait (returncode l) :: log (ring_buffer (lines l))
       :: backoff_more (snd (ExpoBackoff.more b (random l))) :: popen
       :: fst (ensure_gst_process_from (fst (ExpoBackoff.more b (random l))) lives),
       snd (ensure_gst_process_from (fst (ExpoBackoff.more b (random l))) lives)).
Proof.
  cbn [ensure_gst_process_from]. destruct (shutting_down l); [reflexivity |].
  destruct (ExpoBackoff.more b (random l)) as [b' d]. cbn [fst snd].
  now destruct (ensure_gst_process_from b' lives).
Qed.

Lemma ensure_gst_process_from_spec (lives : list life) (b : ExpoBackoff.t) :
  delays (fst (ensure_gst_process_from b lives))
  = snd (ExpoBackoff.more_seq b (List.map random (unexpected lives)))
  /\ spawns (fst (ensure_gst_process_from b lives)) = length (unexpected lives)
  /\ logged (fst (ensure_gst_process_from b lives))
     = List.map (fun l => skipn (length (lines l) - 50) (lines l))
         (unexpected lives)
  /\ (snd (ensure_gst_process_from b lives) = true
      <-> Exists (fun l => shutting_down l = true) lives).
Proof.
  revert b. induction lives as [|l lives IH]; intros b.
  - cbn. repeat split; try discriminate. intros H. inversion H.
  - rewrite ensure_gst_process_from_cons. cbn [unexpected].
    destruct (shutting_down l) eqn:Hsd.
    + cbn. repeat split. intros _. now constructor.
    + destruct (IH (fst (ExpoBackoff.more b (random l))))
        as (Hd & Hs & Hl & Hr).
      cbn [fst snd List.map]. rewrite more_seq_cons. cbn [snd].
      unfold delays, spawns, logged in *.
      cbn [flat_map List.filter app length List.map].
      rewrite Hd, Hs, Hl, ring_buffer_last. repeat split.
      * intros H. apply Exists_cons_tl. now apply Hr.
      * intros H. apply Hr. inversion H as [? ? Hhd | ? ? Htl]; subst;
          [congruence | exact Htl].
Qed.

Lemma run_janus_from_spec (turns : list janus_turn) (b : ExpoBackoff.t) :
  delays (fst (run_janus_from b turns))
  = snd (ExpoBackoff.more_seq b (janus_restarts turns))
  /\ spawns (fst (run_janus_from b turns)) = length (janus_restarts turns)
  /\ (snd (run_janus_from b turns) = true
      <-> Exists (fun t => shutting_down_at_test t = true) turns).
Proof.
  revert b. induction turns as [|t turns IH]; intros b.
  - cbn. repeat split; try discriminate. intros H. inversion H.
  - cbn [run_janus_from janus_restarts].
    destruct (shutting_down_at_test t) eqn:Hsd.
    + cbn. repeat split. intros _. now constructor.
    + assert (Htl : forall P : Prop,
                 (P <-> Exists (fun t => shutting_down_at_test t = true) turns) ->
                 (P <-> Exists (fun t => shutting_down_at_test t = true)
                          (t :: turns))).
      { intros P HP. rewrite HP. split; [apply Exists_cons_tl |].
        intros H. inversion H as [? ? Hhd | ? ? Ht]; subst;
          [congruence | exact Ht]. }
      destruct (read t) as [l | [|] rc u].
      * destruct (IH b) as (Hd & Hs & Hr).
        destruct (run_janus_from b turns) as [effs ret]. cbn [fst snd] in *.
        unfold delays, spawns in *. cbn [flat_map List.filter app].
        split; [exact Hd | split; [exact Hs | apply Htl, Hr]].
      * destruct (IH b) as (Hd & Hs & Hr).
        split; [exact Hd | split; [exact Hs | apply Htl, Hr]].
      * rewrite more_seq_cons. cbn [snd].
        destruct (IH (fst (ExpoBackoff.more b u))) as (Hd & Hs & Hr).
        destruct (ExpoBackoff.more b u) as [b' d]. cbn [fst snd] in *.
        destruct (run_janus_from b' turns) as [effs ret]. cbn [fst snd] in *.
        unfold delays, spawns in *. cbn [flat_map List.filter app length].
        rewrite Hd, Hs.
        split; [reflexivity | split; [reflexivity | apply Htl, Hr]].
Qed.

End Monitors.

(** X11: the stderr excerpt kept by the ffmpeg monitor is the last 50
    lines the process wrote, in order (all of them when there are fewer);
    when ffmpeg ends while the plugin is not shutting down the monitor
    waits for it and logs that excerpt, and in no case does it start
    ffmpeg again. *)
Theorem monitor_ffmpeg_process_excerpt (l : Supervisor.life) :
  Supervisor.ring_buffer (Supervisor.lines l)
  = skipn (length (Supervisor.lines l) - 50) (Supervisor.lines l)
  /\ (length (Supervisor.ring_buffer (Supervisor.lines l)) <= 50)%nat
  /\ Supervisor.monitor_ffmpeg_process l
     = (if Supervisor.shutting_down l then []
        else [Supervisor.wait (Supervisor.returncode l);
              Supervisor.log (skipn (length (Supervisor.lines l) - 50)
                                (Supervisor.lines l))])
  /\ Supervisor.spawns (Supervisor.monitor_ffmpeg_process l) = 0%nat.
Proof.
  unfold Supervisor.monitor_ffmpeg_process. rewrite ring_buffer_last.
  split; [reflexivity |]. split; [rewrite length_drop; lia |].
  split; [reflexivity |]. now destruct (Supervisor.shutting_down l).
Qed.

(** X12: the GStreamer monitor starts the pipeline again once for every
    end of file seen while the plugin is not shutting down, and returns
    at the first one seen while it is. Its backoff (ceiling 600 s) is never
    reset, so the sleeps before the restarts are those of successive
    [more] calls on a fresh backoff; and each logged excerpt is the last
    50 lines of the life that just ended, not of earlier ones. *)
Theorem ensure_gst_process_schedule (lives : list Supervisor.life) :
  Supervisor.delays (fst (Supervisor.ensure_gst_process lives))
  = snd (ExpoBackoff.more_seq (ExpoBackoff.init 600)
           (List.map Supervisor.random (Supervisor.unexpected lives)))
  /\ Supervisor.spawns (fst (Supervisor.ensure_gst_process lives))
     = length (Supervisor.unexpected lives)
  /\ Supervisor.logged (fst (Supervisor.ensure_gst_process lives))
     = List.map (fun l => skipn (length (Supervisor.lines l) - 50)
                            (Supervisor.lines l))
         (Supervisor.unexpected lives)
  /\ (snd (Supervisor.ensure_gst_process lives) = true
      <-> Exists (fun l => Supervisor.shutting_down l = true) lives).
Proof. apply ensure_gst_process_from_spec. Qed.

(** X13: the Janus runner starts the gateway once at the beginning and
    once more for every end of file at which [shutting_down] is unset
    both at the loop test and at the end-of-file test; the sleeps before
    the restarts are those of successive [more] calls on a fresh backoff
    with ceiling 60 s, which is never reset; it returns at the first loop
    test that finds [shutting_down] set. *)
Theorem run_janus_schedule (turns : list Supervisor.janus_turn) :
  Supervisor.delays (fst (Supervisor.run_janus turns))
  = snd (ExpoBackoff.more_seq (ExpoBackoff.init 60)
           (Supervisor.janus_restarts turns))
  /\ Supervisor.spawns (fst (Supervisor.run_janus turns))
     = S (length (Supervisor.janus_restarts turns))
  /\ (snd (Supervisor.run_janus turns) = true
      <-> Exists (fun t => Supervisor.shutting_down_at_test t = true) turns).
Proof.
  unfold Supervisor.run_janus.
  destruct (run_janus_from_spec turns (ExpoBackoff.init (60 * 1)))
    as (Hd & Hs & Hr).
  destruct (Supervisor.run_janus_from (ExpoBackoff.init (60 * 1)) turns)
    as [effs ret].
  cbn [fst snd] in *. unfold Supervisor.delays, Supervisor.spawns in *.
  cbn [flat_map List.filter app length]. rewrite Hs.
  repeat split; try apply Hr. exact Hd.
Qed.

(** ** Signaling tunnel callbacks *)

Section TunnelCallbacks.

Import Tunnel.

Lemma handle_closed (b : ExpoBackoff.t) (sd : bool) (u : Q)
    (events : list event) :
  handle b (closed sd u :: events)
  = (fst (handle (fst (ExpoBackoff.more b u)) events),
     slept (snd (ExpoBackoff.more b u))
     :: (if negb sd then [reopened] else [])
     ++ snd (handle (fst (ExpoBackoff.more b u)) events)).
Proof.
  cbn [handle]. unfold on_close.
  destruct (ExpoBackoff.more b u) as [b1 d]. cbn [fst snd].
  now destruct (handle b1 events).
Qed.

Lemma handle_counts (events : list event) (b : ExpoBackoff.t) :
  length (sleeps (snd (handle b events))) = length (close_draws events)
  /\ reopenings (snd (handle b events)) = live_closes events.
Proof.
  revert b. induction events as [|[sd u | relayed] events IH]; intros b.
  - now cbn.
  - rewrite handle_closed. cbn [snd].
    destruct (IH (fst (ExpoBackoff.more b u))) as [Hs Hr].
    unfold sleeps, reopenings, close_draws, live_closes in *.
    destruct sd; cbn [negb flat_map List.filter app length]; rewrite Hs, Hr;
      split; reflexivity.
  - cbn [handle]. apply IH.
Qed.

Lemma handle_no_relay (events : list event) (b : ExpoBackoff.t) :
  no_relay events = true ->
  sleeps (snd (handle b events))
  = snd (ExpoBackoff.more_seq b (close_draws events)).
Proof.
  revert b. induction events as [|[sd u | relayed] events IH]; intros b Hnr.
  - reflexivity.
  - rewrite handle_closed. cbn [snd close_draws flat_map app].
    fold (close_draws events). rewrite more_seq_cons. cbn [snd].
    unfold sleeps in *. cbn [flat_map app].
    rewrite flat_map_app.
    replace (flat_map _ (if negb sd then [reopened] else [])) with (@nil Q)
      by (now destruct sd).
    cbn [app]. f_equal. apply IH. exact Hnr.
  - cbn [no_relay forallb] in Hnr. destruct relayed; [discriminate |].
    cbn [handle on_message close_draws flat_map app]. apply IH. exact Hnr.
Qed.

Lemma handle_app (e1 e2 : list event) (b : ExpoBackoff.t) :
  handle b (e1 ++ e2)
  = (fst (handle (fst (handle b e1)) e2),
     snd (handle b e1) ++ snd (handle (fst (handle b e1)) e2)).
Proof.
  revert b. induction e1 as [|[sd u | relayed] e1 IH]; intros b.
  - cbn [app handle fst snd]. now destruct (handle b e2).
  - rewrite <- app_comm_cons, !handle_closed, IH. cbn [fst snd].
    f_equal. cbn [app]. f_equal. apply app_assoc.
  - cbn [app handle]. apply IH.
Qed.

End TunnelCallbacks.

(** X14: every close of the tunnel sleeps once, also while the plugin is
    shutting down; the tunnel is reopened exactly once per close seen
    while it is not shutting down; as long as no message has been relayed
    the sleeps are those of successive [more] calls on the shared
    backoff; and right after a relayed message the next close starts
    again from the shortest sleep, [0.25 * (0.5 + u)] seconds. *)
Theorem tunnel_reconnects (janus_ws_backoff : ExpoBackoff.t)
    (events : list Tunnel.event) :
  length (Tunnel.sleeps (snd (Tunnel.handle janus_ws_backoff events)))
  = length (Tunnel.close_draws events)
  /\ Tunnel.reopenings (snd (Tunnel.handle janus_ws_backoff events))
     = Tunnel.live_closes events
  /\ (Tunnel.no_relay events = true ->
      Tunnel.sleeps (snd (Tunnel.handle janus_ws_backoff events))
      = snd (ExpoBackoff.more_seq janus_ws_backoff (Tunnel.close_draws events)))
  /\ (forall sd u,
        (1 # 4 <= ExpoBackoff.max_seconds janus_ws_backoff)%Q ->
        exists before d,
          Tunnel.sleeps
            (snd (Tunnel.handle janus_ws_backoff
                    (events ++ [Tunnel.message true; Tunnel.closed sd u])))
          = before ++ [d]
          /\ (d == (1 # 4) * ((1 # 2) + u))%Q).
Proof.
  split; [apply handle_counts |]. split; [apply handle_counts |].
  split; [apply handle_no_relay |].
  intros sd u Hmax. rewrite handle_app. cbn [snd].
  set (b := fst (Tunnel.handle janus_ws_backoff events)).
  cbn [Tunnel.handle Tunnel.on_message]. unfold Tunnel.on_close.
  destruct (ExpoBackoff.more (ExpoBackoff.reset b) u) as [b1 d] eqn:Hmore.
  cbn [snd]. exists (Tunnel.sleeps (snd (Tunnel.handle janus_ws_backoff events))), d.
  split.
  - unfold Tunnel.sleeps. rewrite flat_map_app. f_equal.
    rewrite app_nil_r. cbn [flat_map app].
    now destruct sd.
  - assert (Hd : d = snd (ExpoBackoff.more (ExpoBackoff.reset b) u))
      by (now rewrite Hmore).
    rewrite Hd, more_delay.
    assert (Hb : ExpoBackoff.max_seconds b
                 = ExpoBackoff.max_seconds janus_ws_backoff).
    { subst b. clear. revert janus_ws_backoff.
      induction events as [|[sd u | [|]] events IH]; intros b0.
      - reflexivity.
      - rewrite handle_closed. cbn [fst]. now rewrite IH, more_max_seconds.
      - cbn [Tunnel.handle Tunnel.on_message]. now rewrite IH.
      - cbn [Tunnel.handle Tunnel.on_message]. now rewrite IH. }
    cbn [ExpoBackoff.reset ExpoBackoff.attempts ExpoBackoff.max_seconds].
    rewrite Hb.
    change (2 ^ (-3 + 1))%Q with (1 # 4)%Q.
    now rewrite Q.min_l.
Qed.

(** ** USB camera snapshot reader *)

Section NextJpg.

Import UsbCamWebServer.

Lemma fill_delivers (length0 : nat) (recvs : list recv_event)
    (chunk stream : ImageInfo.bytes) :
  Forall delivers recvs ->
  (length0 <= length (chunk ++ stream))%nat ->
  (length0 - length chunk <= length recvs)%nat ->
  fill length0 chunk stream recvs = frame (firstn length0 (chunk ++ stream)).
Proof.
  intros Hrecvs. revert chunk stream.
  induction Hrecvs as [|r recvs Hr Hrecvs IH]; intros chunk stream Hlen Hcnt.
  - cbn [fill]. cbn [length] in Hcnt.
    destruct (Nat.ltb_spec (length chunk) length0) as [Hlt | Hge]; [lia |].
    now rewrite take_app_le.
  - cbn [fill].
    destruct (Nat.ltb_spec (length chunk) length0) as [Hlt | Hge].
    + destruct r as [k|]; [| destruct Hr]. cbn [delivers] in Hr.
      set (n := Nat.min (length0 - length chunk) k).
      rewrite length_app in Hlen.
      rewrite IH.
      * now rewrite <- app_assoc, take_drop.
      * rewrite <- app_assoc, take_drop, length_app. lia.
      * rewrite length_app, length_take. cbn [length] in Hcnt. subst n. lia.
    + now rewrite take_app_le.
Qed.

Lemma fill_starved (length0 : nat) (recvs : list recv_event)
    (chunk stream : ImageInfo.bytes) :
  Forall no_error recvs ->
  (length (chunk ++ stream) < length0)%nat ->
  fill length0 chunk stream recvs = waiting.
Proof.
  intros Hrecvs. revert chunk stream.
  induction Hrecvs as [|r recvs Hr Hrecvs IH]; intros chunk stream Hlen;
    cbn [fill]; rewrite length_app in Hlen;
    destruct (Nat.ltb_spec (length chunk) length0) as [Hlt | Hge];
    try lia; [reflexivity |].
  destruct r as [k|]; [| destruct Hr].
  apply IH. now rewrite <- app_assoc, take_drop, length_app.
Qed.

End NextJpg.

(** X15: framing. When the first [recv(100)] delivers a part header whose
    [Content-Length] is [L] and at least the four bytes after the digits,
    and the peer sends at least [L] bytes after those four, then however
    the later [recv] calls cut the stream into pieces (each call
    delivering at least one byte, [L] calls allowed), [next_jpg] returns
    exactly the [L] bytes that follow the header and the four bytes,
    nothing more and nothing less. *)
Theorem next_jpg_framing (stream : ImageInfo.bytes) (k0 : nat)
    (recvs : list UsbCamWebServer.recv_event) (L : Z) (header_end : nat) :
  UsbCamWebServer.search_from 0 (firstn (Nat.min 100 k0) stream)
  = Some (L, header_end) ->
  (header_end + 4 <= Nat.min 100 k0)%nat ->
  (header_end + 4 + Z.to_nat L <= length stream)%nat ->
  Forall UsbCamWebServer.delivers recvs ->
  (Z.to_nat L <= length recvs)%nat ->
  UsbCamWebServer.next_jpg stream (UsbCamWebServer.arrived k0 :: recvs)
  = UsbCamWebServer.frame
      (firstn (Z.to_nat L) (skipn (header_end + 4) stream)).
Proof.
  intros Hsearch Hhdr Hlen Hrecvs Hcnt.
  unfold UsbCamWebServer.next_jpg. rewrite Hsearch.
  set (c := Nat.min 100 k0) in *.
  assert (Hc : (c <= length stream)%nat \/ (length stream < c)%nat) by lia.
  assert (Hbody : skipn (header_end + 4) (firstn c stream) ++ skipn c stream
                  = skipn (header_end + 4) stream).
  { rewrite <- (take_drop c stream) at 3.
    rewrite drop_app_le; [reflexivity |].
    rewrite length_take. lia. }
  rewrite fill_delivers; [now rewrite Hbody | exact Hrecvs | | lia].
  rewrite Hbody, length_drop. lia.
Qed.

Lemma next_jpg_framing_witness :
  UsbCamWebServer.next_jpg
    (list_byte_of_string "--b" ++ [x0d; x0a]
     ++ list_byte_of_string "Content-Length: 5" ++ [x0d; x0a; x0d; x0a]
     ++ [xff; xd8; x00; xff; xd9] ++ [x0d; x0a; x2d; x2d])
    [UsbCamWebServer.arrived 28; UsbCamWebServer.arrived 1;
     UsbCamWebServer.arrived 2; UsbCamWebServer.arrived 9;
     UsbCamWebServer.arrived 9; UsbCamWebServer.arrived 9;
     UsbCamWebServer.arrived 9]
  = UsbCamWebServer.frame [xff; xd8; x00; xff; xd9].
Proof.
  rewrite (next_jpg_framing _ 28 _ 5 22%nat).
  - reflexivity.
  - reflexivity.
  - cbn. lia.
  - cbn. lia.
  - repeat constructor.
  - cbn. lia.
Defined.

(** X16: when the first [recv(100)] delivers the header and the four
    bytes after it but the peer sends fewer than [Content-Length] bytes
    after them, and no [recv] fails, [next_jpg] never returns: a closed
    connection makes [recv] return the empty string and the loop keeps
    asking, for any number of further calls. *)
Theorem next_jpg_starved (stream : ImageInfo.bytes) (k0 : nat)
    (recvs : list UsbCamWebServer.recv_event) (L : Z) (header_end : nat) :
  UsbCamWebServer.search_from 0 (firstn (Nat.min 100 k0) stream)
  = Some (L, header_end) ->
  (header_end + 4 <= Nat.min 100 k0)%nat ->
  (header_end + 4 <= length stream)%nat ->
  (length stream < header_end + 4 + Z.to_nat L)%nat ->
  Forall UsbCamWebServer.no_error recvs ->
  UsbCamWebServer.next_jpg stream (UsbCamWebServer.arrived k0 :: recvs)
  = UsbCamWebServer.waiting.
Proof.
  intros Hsearch Hfirst Hhdr Hshort Hrecvs.
  unfold UsbCamWebServer.next_jpg. rewrite Hsearch.
  apply fill_starved; [exact Hrecvs |].
  rewrite length_app, !length_drop, length_take. lia.
Qed.

Lemma next_jpg_starved_witness :
  UsbCamWebServer.next_jpg
    (list_byte_of_string "Content-Length: 5" ++ [x0d; x0a; x0d; x0a]
     ++ [xff; xd8])
    (UsbCamWebServer.arrived 100 :: repeat (UsbCamWebServer.arrived 0) 20)
  = UsbCamWebServer.waiting.
Proof.
  apply (next_jpg_starved _ 100 _ 5 17%nat).
  - reflexivity.
  - cbn. lia.
  - cbn. lia.
  - cbn. lia.
  - repeat constructor.
Defined.

(** ** Pi camera multipart stream *)

Section Multipart.

Import UsbCamWebServer PiCamMjpeg.

Lemma int_of_uint_acc (d : Decimal.uint) (a : nat) :
  fold_left (fun acc c => 10 * acc + (ImageInfo.code c - 48))
    (bytes_of_uint d) (Z.of_nat a)
  = Z.of_nat (Nat.of_uint_acc d a).
Proof.
  revert a. induction d as [|d IH|d IH|d IH|d IH|d IH|d IH|d IH|d IH|d IH|d IH];
    intros a; [reflexivity | ..];
    cbn [bytes_of_uint fold_left Nat.of_uint_acc];
    rewrite Nat.tail_mul_spec, <- IH; f_equal;
    match goal with
    | |- context [ImageInfo.code ?b] =>
        let v := eval vm_compute in (ImageInfo.code b) in
        change (ImageInfo.code b) with v
    end; lia.
Qed.

Lemma int_of_format_int (n : nat) : int_of (format_int n) = Z.of_nat n.
Proof.
  unfold int_of, format_int. change 0 with (Z.of_nat 0).
  rewrite int_of_uint_acc. f_equal. apply DecimalNat.Unsigned.of_to.
Qed.

Lemma digits_bytes_of_uint (d : Decimal.uint) (r : ImageInfo.bytes) :
  digits (bytes_of_uint d ++ x0d :: r) = bytes_of_uint d.
Proof.
  induction d; cbn [bytes_of_uint app digits]; [reflexivity | ..];
    match goal with
    | |- context [is_digit ?b] =>
        let v := eval vm_compute in (is_digit b) in
        change (is_digit b) with v
    end; cbv iota; now rewrite IHd.
Qed.

Lemma format_int_not_nil (n : nat) : format_int n <> [].
Proof.
  unfold format_int. intros H.
  assert (Hn : Nat.to_uint n = Decimal.Nil)
    by (destruct (Nat.to_uint n); try discriminate H; reflexivity).
  pose proof (DecimalNat.Unsigned.to_of (Nat.to_uint n)) as Hto.
  rewrite DecimalNat.Unsigned.of_to, Hn in Hto. discriminate Hto.
Qed.

Lemma search_from_miss (pos : nat) (c : byte) (s : ImageInfo.bytes) :
  ImageInfo.startswith (c :: s) Content_Length = false ->
  search_from pos (c :: s) = search_from (S pos) s.
Proof. intros H. cbn [search_from]. now rewrite H. Qed.

Lemma startswith_app (p s : ImageInfo.bytes) :
  ImageInfo.startswith (p ++ s) p = true.
Proof.
  induction p as [|c p IH]; cbn [app ImageInfo.startswith].
  - now destruct s.
  - rewrite IH. now rewrite (Byte.byte_dec_lb (eq_refl c)).
Qed.

Lemma search_from_hit (pos n : nat) (r : ImageInfo.bytes) :
  search_from pos (Content_Length ++ format_int n ++ x0d :: r)
  = Some (Z.of_nat n, (pos + 16 + length (format_int n))%nat).
Proof.
  set (Y := format_int n ++ x0d :: r).
  assert (Hs : ImageInfo.startswith (Content_Length ++ Y) Content_Length = true)
    by apply startswith_app.
  assert (Hd : skipn 16 (Content_Length ++ Y) = Y) by reflexivity.
  change (Content_Length ++ Y) with (x43 :: skipn 1 Content_Length ++ Y) in *.
  cbn [search_from]. rewrite Hs, Hd. subst Y.
  unfold format_int at 1. rewrite digits_bytes_of_uint.
  fold (format_int n).
  destruct (format_int n) as [|d ds] eqn:E;
    [now apply format_int_not_nil in E |].
  rewrite <- E, int_of_format_int. reflexivity.
Qed.

Lemma startswith_app_l (p a y : ImageInfo.bytes) :
  (length p <= length a)%nat ->
  ImageInfo.startswith (a ++ y) p = ImageInfo.startswith a p.
Proof.
  revert a. induction p as [|c p IH]; intros a Hlen.
  - destruct a; [now destruct y | reflexivity].
  - destruct a as [|x a]; [cbn [length] in Hlen; lia |].
    cbn [app ImageInfo.startswith]. rewrite IH; [reflexivity |].
    cbn [length] in Hlen. lia.
Qed.

Lemma search_from_prefix (p y : ImageInfo.bytes) (pos : nat) :
  no_header_in p = true ->
  search_from pos (p ++ Content_Length ++ y)
  = search_from (pos + length p) (Content_Length ++ y).
Proof.
  revert pos. induction p as [|c p IH]; intros pos Hclear.
  - cbn [app length]. now rewrite Nat.add_0_r.
  - cbn [no_header_in] in Hclear. apply andb_prop in Hclear as [Hhere Hrest].
    apply negb_true_iff in Hhere.
    rewrite <- app_comm_cons, search_from_miss.
    + rewrite IH by exact Hrest. cbn [length]. f_equal. lia.
    + rewrite app_comm_cons, app_assoc, startswith_app_l; [exact Hhere |].
      rewrite length_app. lia.
Qed.

Lemma part_search (prefix chunk : ImageInfo.bytes) :
  prefix = [] \/ prefix = CRLF ->
  search_from 0 (part prefix herebedragons chunk)
  = Some (Z.of_nat (length chunk),
          (length prefix + 59 + length (format_int (length chunk)))%nat)
    /\ skipn (length prefix + 59 + length (format_int (length chunk)) + 4)
         (part prefix herebedragons chunk) = chunk.
Proof.
  intros Hprefix.
  set (f := format_int (length chunk)).
  set (P := prefix ++ hdr herebedragons).
  assert (Hpart : part prefix herebedragons chunk
                  = P ++ Content_Length ++ f ++ x0d :: x0a :: CRLF ++ chunk).
  { unfold part, P, CRLF. now rewrite <- !app_assoc. }
  assert (HP : length P = (length prefix + 43)%nat
               /\ no_header_in P = true).
  { subst P. destruct Hprefix as [-> | ->]; split; reflexivity. }
  destruct HP as [HlenP Hclear].
  rewrite Hpart. split.
  - rewrite search_from_prefix by exact Hclear.
    subst f. rewrite search_from_hit. do 2 f_equal. lia.
  - replace (length prefix + 59 + length f + 4)%nat
      with (length P + (16 + (length f + 4)))%nat by lia.
    rewrite <- drop_drop, drop_app_length.
    rewrite <- drop_drop.
    rewrite (drop_app_length' _ _ 16) by reflexivity.
    change (f ++ x0d :: x0a :: CRLF ++ chunk)
      with (f ++ [x0d; x0a; x0d; x0a] ++ chunk).
    rewrite app_assoc.
    now rewrite drop_app_length' by (rewrite length_app; reflexivity).
Qed.

End Multipart.

Lemma mjpeg_generator_from_nth (chunks : list ImageInfo.bytes)
    (prefix : ImageInfo.bytes) (i : nat) (c : ImageInfo.bytes) :
  nth_error chunks i = Some c ->
  nth_error (PiCamMjpeg.mjpeg_generator_from prefix PiCamMjpeg.herebedragons chunks) i
  = Some (PiCamMjpeg.part (match i with O => prefix | S _ => PiCamMjpeg.CRLF end)
            PiCamMjpeg.herebedragons c).
Proof.
  revert prefix i. induction chunks as [|c0 chunks IH]; intros prefix [|i] Hc;
    try discriminate Hc; cbn [nth_error PiCamMjpeg.mjpeg_generator_from] in *.
  - now injection Hc as ->.
  - rewrite (IH PiCamMjpeg.CRLF i Hc). now destruct i.
Qed.

(** X17: every part the Pi camera stream yields for the boundary
    [herebedragons] carries a [Content-Length] equal to the exact byte
    length of its frame, is the first thing a search for that header
    finds in the part, and is followed, four bytes after its digits, by
    exactly the frame; there is one part per frame, in order. *)
Theorem mjpeg_generator_parts (chunks : list ImageInfo.bytes) :
  length (PiCamMjpeg.mjpeg_generator PiCamMjpeg.herebedragons chunks)
  = length chunks
  /\ (forall i c, nth_error chunks i = Some c ->
        exists p header_end,
          nth_error (PiCamMjpeg.mjpeg_generator PiCamMjpeg.herebedragons chunks) i
          = Some p
          /\ UsbCamWebServer.search_from 0 p
             = Some (Z.of_nat (length c), header_end)
          /\ skipn (header_end + 4) p = c).
Proof.
  unfold PiCamMjpeg.mjpeg_generator. split.
  - generalize (@nil byte) as prefix.
    induction chunks as [|c chunks IH]; intros prefix; [reflexivity |].
    cbn [PiCamMjpeg.mjpeg_generator_from length]. now rewrite IH.
  - intros i c Hc.
    rewrite (mjpeg_generator_from_nth chunks [] i c Hc).
    set (prefix := match i with O => [] | S _ => PiCamMjpeg.CRLF end).
    assert (Hprefix : prefix = [] \/ prefix = PiCamMjpeg.CRLF)
      by (subst prefix; destruct i; auto).
    destruct (part_search prefix c Hprefix) as [Hsearch Hdrop].
    eexists _, _. split; [reflexivity |]. split; [exact Hsearch | exact Hdrop].
Qed.

Lemma mjpeg_generator_parts_witness :
  exists p header_end,
    nth_error (PiCamMjpeg.mjpeg_generator PiCamMjpeg.herebedragons
                 [[xff; xd8; xff; xd9]; [xff; xd8; x00; xff; xd9]]) 1
    = Some p
    /\ UsbCamWebServer.search_from 0 p = Some (5, header_end)
    /\ skipn (header_end + 4) p = [xff; xd8; x00; xff; xd9].
Proof.
  apply (proj2 (mjpeg_generator_parts
                  [[xff; xd8; xff; xd9]; [xff; xd8; x00; xff; xd9]])
           1%nat [xff; xd8; x00; xff; xd9]).
  reflexivity.
Defined.

(** ** Retried starts: [start_gst] *)

Section Retries.

Context {S : Type}.
Variable f : nat -> S -> WebcamStreamer.completion * S.

(** A retried call makes at least one try and at most one more than the
    retries it is allowed; when the exception escapes, all were used. *)
Lemma run_from_tries (k n : nat) (s : S) :
  (n < snd (Retry.run_from f k n s) <= n + k + 1)%nat
  /\ (fst (fst (Retry.run_from f k n s)) = WebcamStreamer.Exception ->
      snd (Retry.run_from f k n s) = (n + k + 1)%nat).
Proof.
  revert n s. induction k as [|k IH]; intros n s; simpl;
    destruct (f n s) as [[] s']; simpl.
  - split; [lia | discriminate].
  - split; [lia | intros _; lia].
  - split; [lia | discriminate].
  - destruct (IH (Datatypes.S n) s') as [H1 H2]. split; [lia |].
    intros H. rewrite (H2 H). lia.
Qed.

End Retries.

Section GstStart.

Import StartGst.

Lemma poll_loop_raised (p : WebcamStreamer.Popen) (polls : nat -> option Z)
    (left i : nat) :
  snd (poll_loop p polls i left)
  = negb (forallb (fun i => match polls i with
                            | Some rc => rc =? 0
                            | None => true
                            end) (seq i left)).
Proof.
  revert i. induction left as [|left IH]; intros i; simpl; [reflexivity|].
  destruct (polls i) as [rc|].
  - destruct (rc =? 0); simpl; [|reflexivity].
    specialize (IH (Datatypes.S i)).
    destruct (poll_loop p polls (Datatypes.S i) left). exact IH.
  - specialize (IH (Datatypes.S i)).
    destruct (poll_loop p polls (Datatypes.S i) left). exact IH.
Qed.

Lemma poll_loop_monitors (p : WebcamStreamer.Popen) (polls : nat -> option Z)
    (left i : nat) :
  monitors (fst (poll_loop p polls i left)) = [].
Proof.
  revert i. induction left as [|left IH]; intros i; simpl; [reflexivity|].
  destruct (polls i) as [rc|].
  - destruct (rc =? 0); simpl; [|reflexivity].
    specialize (IH (Datatypes.S i)).
    destruct (poll_loop p polls (Datatypes.S i) left). exact IH.
  - specialize (IH (Datatypes.S i)).
    destruct (poll_loop p polls (Datatypes.S i) left). exact IH.
Qed.

Lemma monitors_app (l1 l2 : list effect) :
  monitors (l1 ++ l2) = monitors l1 ++ monitors l2.
Proof. unfold monitors. apply flat_map_app. Qed.

Lemma healthy_spec (sp : spawn) :
  healthy sp = true
  <-> popen_raises sp = false
      /\ forall i rc, (i < 5)%nat -> polls sp i = Some rc -> rc = 0.
Proof.
  unfold healthy. rewrite andb_true_iff, negb_true_iff, forallb_forall.
  split; intros [Hp Hq]; (split; [exact Hp|]).
  - intros i rc Hi Hrc. specialize (Hq i). rewrite Hrc in Hq.
    apply Z.eqb_eq, Hq, in_seq. lia.
  - intros i Hi. apply in_seq in Hi. destruct (polls sp i) as [rc|] eqn:E.
    + apply Z.eqb_eq, (Hq i rc); [lia | exact E].
    + reflexivity.
Qed.

(** One try of [start_gst] gets through exactly when the spawn is
    healthy; only then is the monitor thread started, and on the
    process of this try. *)
Lemma start_gst_try_spec (sp : spawn) (self : WebcamStreamer.t)
    (effects : list effect) :
  exists self' more,
    start_gst_try sp (self, effects)
    = (if healthy sp then WebcamStreamer.Normal else WebcamStreamer.Exception,
       (self', effects ++ more))
    /\ monitors more = (if healthy sp then [handle sp] else [])
    /\ (healthy sp = true ->
        WebcamStreamer.gst_proc self' = Some (handle sp)).
Proof.
  unfold start_gst_try, healthy.
  pose proof (poll_loop_raised (handle sp) (polls sp) 5 0) as Hr.
  pose proof (poll_loop_monitors (handle sp) (polls sp) 5 0) as Hm.
  destruct (popen_raises sp); cbn [negb andb].
  - exists self, []. rewrite app_nil_r. repeat split. discriminate.
  - destruct (poll_loop (handle sp) (polls sp) 0 5) as [polled raised].
    cbn [snd] in Hr. cbn [fst] in Hm. subst raised.
    destruct (forallb _ (seq 0 5)); cbn [negb].
    + eexists _, _. split; [reflexivity|]. split; [|reflexivity].
      change (spawned (handle sp) :: polled ++ [monitor_started (handle sp)])
        with ([spawned (handle sp)] ++ polled ++ [monitor_started (handle sp)]).
      rewrite !monitors_app, Hm. reflexivity.
    + eexists _, _. split; [reflexivity|]. split; [|discriminate].
      change (spawned (handle sp) :: polled)
        with ([spawned (handle sp)] ++ polled).
      rewrite monitors_app, Hm. reflexivity.
Qed.

Lemma start_gst_from (spawns : nat -> spawn) (k : nat) :
  forall (n : nat) (self : WebcamStreamer.t) (effects : list effect),
    let '(c, (self', effects'), tries) :=
      Retry.run_from (fun n => start_gst_try (spawns n)) k n (self, effects) in
    (n < tries <= n + k + 1)%nat
    /\ (forall m, (n <= m < tries - 1)%nat -> healthy (spawns m) = false)
    /\ match c with
       | WebcamStreamer.Normal =>
           healthy (spawns (tries - 1)%nat) = true
           /\ WebcamStreamer.gst_proc self' = Some (handle (spawns (tries - 1)%nat))
           /\ monitors effects'
              = monitors effects ++ [handle (spawns (tries - 1)%nat)]
       | WebcamStreamer.Exception =>
           tries = (n + k + 1)%nat
           /\ healthy (spawns (tries - 1)%nat) = false
           /\ monitors effects' = monitors effects
       end.
Proof.
  induction k as [|k IH]; intros n self effects; cbn [Retry.run_from];
    destruct (start_gst_try_spec (spawns n) self effects)
      as (self1 & more & Htry & Hmon & Hproc);
    rewrite Htry; destruct (healthy (spawns n)) eqn:Hh.
  - replace (Datatypes.S n - 1)%nat with n by lia.
    split; [lia|]. split; [intros; lia|].
    rewrite monitors_app, Hmon. auto.
  - replace (Datatypes.S n - 1)%nat with n by lia.
    split; [lia|]. split; [intros; lia|].
    rewrite monitors_app, Hmon, app_nil_r. repeat split; [lia | exact Hh].
  - replace (Datatypes.S n - 1)%nat with n by lia.
    split; [lia|]. split; [intros; lia|].
    rewrite monitors_app, Hmon. auto.
  - specialize (IH (Datatypes.S n) self1 (effects ++ more)).
    destruct (Retry.run_from _ k (Datatypes.S n) (self1, effects ++ more))
      as [[c [self' effects']] tries].
    rewrite monitors_app, Hmon, app_nil_r in IH.
    destruct IH as (Hb & Hprev & Hc). split; [lia|]. split.
    + intros m Hm. destruct (Nat.eq_dec m n) as [->|Hne]; [exact Hh|].
      apply Hprev. lia.
    + destruct c; [exact Hc|].
      destruct Hc as (Ht & Hc). split; [lia | exact Hc].
Qed.

End GstStart.

(** X18: [start_gst] spawns the GStreamer script up to six times and
    returns at the first spawn that is healthy: [Popen] returns and none
    of the five polls, one second apart, reports a non-zero exit code
    (a process that has already exited with code 0 counts as started).
    Every earlier spawn was unhealthy; on return [self.gst_proc] is the
    process of the last try and exactly one monitor thread was started,
    on that process. When all six spawns are unhealthy the exception of
    the sixth escapes and no monitor thread was started. *)
Theorem start_gst_tries (spawns : nat -> StartGst.spawn)
    (self : WebcamStreamer.t) :
  (forall sp, StartGst.healthy sp = true
     <-> StartGst.popen_raises sp = false
         /\ forall i rc, (i < 5)%nat -> StartGst.polls sp i = Some rc -> rc = 0)
  /\ let '(c, (self', effects), tries) := StartGst.start_gst spawns self in
     (1 <= tries <= 6)%nat
     /\ (forall m, (m < tries - 1)%nat -> StartGst.healthy (spawns m) = false)
     /\ match c with
        | WebcamStreamer.Normal =>
            StartGst.healthy (spawns (tries - 1)%nat) = true
            /\ WebcamStreamer.gst_proc self'
               = Some (StartGst.handle (spawns (tries - 1)%nat))
            /\ StartGst.monitors effects
               = [StartGst.handle (spawns (tries - 1)%nat)]
        | WebcamStreamer.Exception =>
            tries = 6%nat
            /\ StartGst.healthy (spawns 5%nat) = false
            /\ StartGst.monitors effects = []
        end.
Proof.
  split; [exact healthy_spec|].
  unfold StartGst.start_gst, Retry.on_exception.
  pose proof (start_gst_from spawns 5 0 self []) as H.
  change (6 - 1)%nat with 5%nat.
  destruct (Retry.run_from _ 5 0 (self, [])) as [[c [self' effects]] tries].
  destruct H as (Hb & Hprev & Hc). split; [lia|]. split.
  - intros m Hm. apply Hprev. lia.
  - destruct c; [exact Hc|].
    destruct Hc as (Ht & Hh & Hm). subst tries. auto.
Qed.

(** ** The failure handler of [video_pipeline] *)

Section PipelineFailure.

Import WebcamStreamer Teardown.

Lemma if_started_calls {H} (raises : oracle) (h : option H)
    (f : H -> list action) (w : world) :
  calls (if_started raises h f w) = calls w ++ outcomes raises (started h f).
Proof.
  destruct h as [x|]; cbn [if_started started outcomes map];
    [| now rewrite app_nil_r].
  generalize (f x) as l. intros l. revert w.
  induction l as [|a l IH]; intros w; cbn [fold_left map];
    [now rewrite app_nil_r |].
  rewrite IH. cbn [call calls]. now rewrite <- app_assoc.
Qed.

Lemma outcomes_app (raises : oracle) (l1 l2 : list action) :
  outcomes raises (l1 ++ l2) = outcomes raises l1 ++ outcomes raises l2.
Proof. apply map_app. Qed.

Lemma restore_calls (raises : oracle) (self : t) (w : world) :
  calls (snd (restore raises self w))
  = calls w ++ outcomes raises (teardown self).
Proof.
  unfold restore, teardown.
  destruct (raises service_webcamd_start) eqn:E; cbn [snd];
    cbn [call calls]; rewrite !if_started_calls; cbn [call calls];
    rewrite !outcomes_app;
    cbn [outcomes map pi_camera janus_proc gst_proc ffmpeg_proc];
    rewrite ?E; now rewrite <- !app_assoc.
Qed.

Lemma restore_shutting_down (raises : oracle) (self : t) (w : world) :
  shutting_down (snd (fst (restore raises self w))) = true.
Proof. unfold restore. now destruct (raises service_webcamd_start). Qed.

Lemma teardown_manages (self : t) :
  Forall (fun a => manages_component a = true) (teardown self).
Proof.
  unfold teardown, started.
  destruct (janus_proc self), (gst_proc self), (ffmpeg_proc self),
    (pi_camera self); repeat constructor.
Qed.

End PipelineFailure.

(** X19: whatever the managed part of [video_pipeline] has done when it
    raises, the handler releases the camera lease (it stays only when
    [os.remove] fails on an existing file), sends the ['streaming']
    warning exactly once, waits three seconds and tears down what the
    object holds at that moment: the shutdown request, the gateway,
    pipeline and encoder processes that were started, the camera that
    was opened, then the [webcamd] restart. When that restart does not
    raise the error is logged, the call returns normally and the four
    handles are cleared; when it raises, that exception leaves
    [video_pipeline]. Either way [shutting_down] is set. *)
Theorem video_pipeline_failure
    (managed_pipeline :
       WebcamStreamer.t -> WebcamStreamer.world ->
       WebcamStreamer.completion * WebcamStreamer.t * WebcamStreamer.world)
    (env : WebcamStreamer.environment) (raises : WebcamStreamer.oracle)
    (self self1 : WebcamStreamer.t) (w w1 : WebcamStreamer.world) :
  WebcamStreamer.truthy (WebcamStreamer.getenv_JANUS_SERVER env) = false ->
  WebcamStreamer.truthy (PiVersion.pi_version (WebcamStreamer.firmware_model env))
  = true ->
  managed_pipeline self w = (WebcamStreamer.Exception, self1, w1) ->
  let r := WebcamStreamer.video_pipeline managed_pipeline env raises self w in
  WebcamStreamer.calls (snd r)
  = WebcamStreamer.calls w1
    ++ [(WebcamStreamer.os_remove_lease,
         negb (WebcamStreamer.cam_exclusive_use w1)
         || raises WebcamStreamer.os_remove_lease);
        (WebcamStreamer.send_new_warning "streaming", false);
        (WebcamStreamer.sleep 3, false)]
    ++ Teardown.outcomes raises (Teardown.teardown self1)
    ++ (if raises WebcamStreamer.service_webcamd_start then []
        else [(WebcamStreamer.logger_error, false)])
  /\ Forall (fun a => WebcamStreamer.manages_component a = true)
       (Teardown.teardown self1)
  /\ WebcamStreamer.cam_exclusive_use (snd r)
     = WebcamStreamer.cam_exclusive_use w1
       && raises WebcamStreamer.os_remove_lease
  /\ fst (fst r)
     = (if raises WebcamStreamer.service_webcamd_start
        then WebcamStreamer.Exception else WebcamStreamer.Normal)
  /\ WebcamStreamer.shutting_down (snd (fst r)) = true
  /\ (raises WebcamStreamer.service_webcamd_start = false ->
      snd (fst r) = WebcamStreamer.restored self1).
Proof.
  intros Hjanus Hpi Hmanaged r. subst r.
  unfold WebcamStreamer.video_pipeline.
  rewrite Hjanus, Hpi, Hmanaged. cbn [negb].
  unfold WebcamStreamer.on_pipeline_failure.
  set (w2 := WebcamStreamer.call _ (WebcamStreamer.sleep 3) _).
  pose proof (restore_calls raises self1 w2) as Hcalls.
  pose proof (restore_lease raises self1 w2) as Hlease.
  pose proof (restore_shutting_down raises self1 w2) as Hdown.
  assert (Hend :
    fst (WebcamStreamer.restore raises self1 w2)
    = (if raises WebcamStreamer.service_webcamd_start
       then (WebcamStreamer.Exception,
             snd (fst (WebcamStreamer.restore raises self1 w2)))
       else (WebcamStreamer.Normal, WebcamStreamer.restored self1))).
  { unfold WebcamStreamer.restore.
    now destruct (raises WebcamStreamer.service_webcamd_start). }
  assert (Hw2 :
    WebcamStreamer.calls w2
    = WebcamStreamer.calls w1
      ++ [(WebcamStreamer.os_remove_lease,
           negb (WebcamStreamer.cam_exclusive_use w1)
           || raises WebcamStreamer.os_remove_lease);
          (WebcamStreamer.send_new_warning "streaming", false);
          (WebcamStreamer.sleep 3, false)]).
  { subst w2. cbn. now rewrite <- !app_assoc. }
  assert (Hl2 :
    WebcamStreamer.cam_exclusive_use w2
    = WebcamStreamer.cam_exclusive_use w1
      && raises WebcamStreamer.os_remove_lease).
  { subst w2. cbn.
    now destruct (WebcamStreamer.cam_exclusive_use w1),
      (raises WebcamStreamer.os_remove_lease). }
  clearbody w2.
  destruct (WebcamStreamer.restore raises self1 w2) as [[c s2] w3].
  cbn [fst snd] in *.
  destruct (raises WebcamStreamer.service_webcamd_start);
    [assert (Hc : c = WebcamStreamer.Exception) by congruence
    |assert (Hc : c = WebcamStreamer.Normal) by congruence;
     assert (Hs : s2 = WebcamStreamer.restored self1) by congruence];
    subst c; clear Hend;
    cbn [fst snd WebcamStreamer.call WebcamStreamer.calls
         WebcamStreamer.cam_exclusive_use];
    (split; [| split; [apply teardown_manages |]]).
  - rewrite Hcalls, Hw2, <- !app_assoc, app_nil_r. reflexivity.
  - rewrite Hlease, Hl2. repeat split; [exact Hdown | discriminate].
  - rewrite Hcalls, Hw2, <- !app_assoc. reflexivity.
  - rewrite Hlease, Hl2. split; [reflexivity|]. split; [reflexivity|].
    split; [exact Hdown | intros _; exact Hs].
Qed.

Lemma video_pipeline_failure_witness :
  exists r,
    r = WebcamStreamer.video_pipeline
          (fun self w =>
             (WebcamStreamer.Exception,
              {| WebcamStreamer.pi_camera := Some 7%nat;
                 WebcamStreamer.janus_ws := None;
                 WebcamStreamer.webcam_server := None;
                 WebcamStreamer.gst_proc := None;
                 WebcamStreamer.ffmpeg_proc := None;
                 WebcamStreamer.janus_proc := Some 1%nat;
                 WebcamStreamer.shutting_down := false |},
              WebcamStreamer.using_pi_camera w))
          {| WebcamStreamer.getenv_JANUS_SERVER := None;
             WebcamStreamer.firmware_model :=
               Some "Raspberry Pi 3 Model B Rev 1.2"%string |}
          (fun _ => false) WebcamStreamer.init
          {| WebcamStreamer.cam_exclusive_use := false;
             WebcamStreamer.calls := [] |}
    /\ WebcamStreamer.calls (snd r)
       = [(WebcamStreamer.touch_lease, false);
          (WebcamStreamer.os_remove_lease, false);
          (WebcamStreamer.send_new_warning "streaming", false);
          (WebcamStreamer.sleep 3, false);
          (WebcamStreamer.requests_post_shutdown, false);
          (WebcamStreamer.terminate 1%nat, false);
          (WebcamStreamer.stop_recording 7%nat, false);
          (WebcamStreamer.close 7%nat, false);
          (WebcamStreamer.service_webcamd_start, false);
          (WebcamStreamer.logger_error, false)]
    /\ WebcamStreamer.cam_exclusive_use (snd r) = false
    /\ fst (fst r) = WebcamStreamer.Normal.
Proof.
  eexists. split; [reflexivity|].
  pose proof
    (video_pipeline_failure
       (fun self w =>
          (WebcamStreamer.Exception,
           {| WebcamStreamer.pi_camera := Some 7%nat;
              WebcamStreamer.janus_ws := None;
              WebcamStreamer.webcam_server := None;
              WebcamStreamer.gst_proc := None;
              WebcamStreamer.ffmpeg_proc := None;
              WebcamStreamer.janus_proc := Some 1%nat;
              WebcamStreamer.shutting_down := false |},
           WebcamStreamer.using_pi_camera w))
       {| WebcamStreamer.getenv_JANUS_SERVER := None;
          WebcamStreamer.firmware_model :=
            Some "Raspberry Pi 3 Model B Rev 1.2"%string |}
       (fun _ => false) WebcamStreamer.init _
       {| WebcamStreamer.cam_exclusive_use := false;
          WebcamStreamer.calls := [] |} _
       eq_refl eq_refl eq_refl) as (Hcalls & _ & Hlease & Hend & _).
  split; [exact Hcalls | split; [exact Hlease | exact Hend]].
Defined.

(** ** Opening the Pi camera: [__init_camera__] *)

Section CameraInit.

Import InitCamera.





End CameraInit.



(** ** The MJPEG fallback: [ffmpeg_from_mjpeg] *)

Section Fallback.

Import MjpegFallback.

Lemma wait_for_webcamd_first (captures : nat -> option ImageInfo.bytes)
    (j : nat) (jpg : ImageInfo.bytes) :
  (j < 4)%nat -> captures j = Some jpg ->
  (forall m, (m < j)%nat -> captures m = None) ->
  wait_for_webcamd captures = (WebcamStreamer.Normal, Some jpg, Datatypes.S j).
Proof.
  intros Hj Hjpg Hnone. unfold wait_for_webcamd, Retry.on_exception.
  change (4 - 1)%nat with 3%nat.
  destruct j as [|[|[|[|j]]]]; [| | | | lia]; cbn [Retry.run_from];
    rewrite ?(Hnone 0%nat), ?(Hnone 1%nat), ?(Hnone 2%nat) by lia;
    now rewrite Hjpg.
Qed.

Lemma wait_for_webcamd_none (captures : nat -> option ImageInfo.bytes) :
  (forall m, (m < 4)%nat -> captures m = None) ->
  wait_for_webcamd captures = (WebcamStreamer.Exception, None, 4%nat).
Proof.
  intros Hnone. unfold wait_for_webcamd, Retry.on_exception.
  change (4 - 1)%nat with 3%nat. cbn [Retry.run_from].
  now rewrite (Hnone 0%nat), (Hnone 1%nat), (Hnone 2%nat), (Hnone 3%nat)
    by lia.
Qed.

End Fallback.

(** X21: [ffmpeg_from_mjpeg] asks [webcamd] for a snapshot at most four
    times and uses the first one it gets. The encoder is started with
    the width and height [get_image_info] reports for that snapshot and
    with the bit rate of their product's tier. A snapshot whose size
    [get_image_info] does not find (reported as -1 x -1, as for a body
    shorter than two bytes) does not stop the fallback: the encoder is
    started with size -1x-1 at 200000. An exception of [get_image_info]
    leaves the method, and so does that of the fourth failed capture;
    in both cases no encoder is started. *)
Theorem ffmpeg_from_mjpeg_parameters (py : ImageInfo.py_version)
    (captures : nat -> option ImageInfo.bytes) :
  (forall j jpg,
     (j < 4)%nat -> captures j = Some jpg ->
     (forall m, (m < j)%nat -> captures m = None) ->
     snd (MjpegFallback.wait_for_webcamd captures) = Datatypes.S j
     /\ (forall tag w h,
           ImageInfo.get_image_info py jpg = ImageInfo.Returned (tag, w, h) ->
           MjpegFallback.ffmpeg_from_mjpeg py captures
           = MjpegFallback.start_ffmpeg (bitrate_tier (w * h)) w h)
     /\ (forall tag,
           ImageInfo.get_image_info py jpg = ImageInfo.Returned (tag, -1, -1) ->
           MjpegFallback.ffmpeg_from_mjpeg py captures
           = MjpegFallback.start_ffmpeg 200000 (-1) (-1))
     /\ ((length jpg < 2)%nat ->
         MjpegFallback.ffmpeg_from_mjpeg py captures
         = MjpegFallback.start_ffmpeg 200000 (-1) (-1))
     /\ (forall w h tail,
           jpg = ImageInfo.jpeg_header w h ++ tail ->
           0 <= w < 65536 -> 0 <= h < 65536 ->
           MjpegFallback.ffmpeg_from_mjpeg py captures
           = MjpegFallback.start_ffmpeg (bitrate_tier (w * h)) w h)
     /\ (forall e,
           ImageInfo.get_image_info py jpg = ImageInfo.Raised e ->
           MjpegFallback.ffmpeg_from_mjpeg py captures
           = MjpegFallback.get_image_info_raised e))
  /\ ((forall m, (m < 4)%nat -> captures m = None) ->
      MjpegFallback.ffmpeg_from_mjpeg py captures
      = MjpegFallback.capture_raised
      /\ snd (MjpegFallback.wait_for_webcamd captures) = 4%nat)
  /\ MjpegFallback.ffmpeg_from_mjpeg py captures <> MjpegFallback.no_result.
Proof.
  split; [|split].
  - intros j jpg Hj Hjpg Hnone.
    pose proof (wait_for_webcamd_first captures j jpg Hj Hjpg Hnone) as Hwait.
    unfold MjpegFallback.ffmpeg_from_mjpeg. rewrite Hwait. cbn [snd].
    assert (Hret : forall tag w h,
      ImageInfo.get_image_info py jpg = ImageInfo.Returned (tag, w, h) ->
      match ImageInfo.get_image_info py jpg with
      | ImageInfo.Returned (_, img_w, img_h) =>
          MjpegFallback.start_ffmpeg (bitrate_for_dim img_w img_h) img_w img_h
      | ImageInfo.Raised e => MjpegFallback.get_image_info_raised e
      | ImageInfo.Diverges => MjpegFallback.no_result
      end = MjpegFallback.start_ffmpeg (bitrate_tier (w * h)) w h).
    { intros tag w h ->. now rewrite bitrate_for_dim_area. }
    split; [reflexivity|]. split; [exact Hret|].
    split; [intros tag Hinfo; exact (Hret tag (-1) (-1) Hinfo)|].
    split; [intros Hshort;
            exact (Hret _ (-1) (-1) (get_image_info_short py jpg Hshort))|].
    split.
    + intros w h tail -> Hw Hh.
      exact (Hret _ w h (jpeg_header_info py w h tail Hw Hh)).
    + intros e ->. reflexivity.
  - intros Hnone. unfold MjpegFallback.ffmpeg_from_mjpeg.
    now rewrite (wait_for_webcamd_none captures Hnone).
  - unfold MjpegFallback.ffmpeg_from_mjpeg.
    destruct (MjpegFallback.wait_for_webcamd captures) as [[[] [jpg|]] n];
      try discriminate.
    pose proof (get_image_info_total py jpg) as Htotal.
    destruct (ImageInfo.get_image_info py jpg) as [[[tag w] h]|e|];
      [discriminate | discriminate | contradiction].
Qed.

Lemma ffmpeg_from_mjpeg_parameters_witness :
  MjpegFallback.ffmpeg_from_mjpeg ImageInfo.Python3
    (fun n => if (n <? 2)%nat then None
              else Some (ImageInfo.jpeg_header 1280 720))
  = MjpegFallback.start_ffmpeg 3000000 1280 720
  /\ MjpegFallback.ffmpeg_from_mjpeg ImageInfo.Python3
       (fun n => if (n <? 2)%nat then None else Some [])
     = MjpegFallback.start_ffmpeg 200000 (-1) (-1).
Proof.
  split.
  - destruct (proj1 (ffmpeg_from_mjpeg_parameters ImageInfo.Python3
                       (fun n => if (n <? 2)%nat then None
                                 else Some (ImageInfo.jpeg_header 1280 720)))
                2%nat (ImageInfo.jpeg_header 1280 720))
      as (_ & _ & _ & _ & H & _).
    + lia.
    + reflexivity.
    + intros [|[|m]] Hm; [reflexivity | reflexivity | lia].
    + apply (H 1280 720 []); [symmetry; apply app_nil_r | lia | lia].
  - destruct (proj1 (ffmpeg_from_mjpeg_parameters ImageInfo.Python3
                       (fun n => if (n <? 2)%nat then None else Some []))
                2%nat [])
      as (_ & _ & _ & H & _).
    + lia.
    + reflexivity.
    + intros [|[|m]] Hm; [reflexivity | reflexivity | lia].
    + apply H. cbn. lia.
Defined.

(** ** System tags: [get_tags] *)

Section SystemTags.

Import Tags.

Local Open Scope string_scope.

Local Arguments String.append : simpl nomatch.

Lemma string_app_assoc (a b c : string) : (a ++ b) ++ c = a ++ (b ++ c).
Proof. induction a as [|x a IH]; cbn; [reflexivity | now rewrite IH]. Qed.

Lemma string_app_nil_r (a : string) : a ++ "" = a.
Proof. induction a as [|x a IH]; cbn; [reflexivity | now rewrite IH]. Qed.

Lemma occurs_app (c : ascii) (a b : string) :
  occurs c (a ++ b) = occurs c a || occurs c b.
Proof.
  induction a as [|x a IH]; cbn [occurs String.append orb]; [reflexivity|].
  now rewrite IH, orb_assoc.
Qed.

Lemma remove_newlines_app (a b : string) :
  remove_newlines (a ++ b) = remove_newlines a ++ remove_newlines b.
Proof.
  induction a as [|x a IH]; cbn [remove_newlines String.append];
    [reflexivity|].
  destruct (Ascii.eqb x newline); cbn [String.append]; now rewrite IH.
Qed.

Lemma remove_newlines_none (s : string) :
  occurs newline s = false -> remove_newlines s = s.
Proof.
  induction s as [|x s IH]; cbn [occurs remove_newlines]; [reflexivity|].
  rewrite (Ascii.eqb_sym newline x).
  destruct (Ascii.eqb x newline); [discriminate|].
  cbn [orb]. intros H. now rewrite IH.
Qed.

Lemma remove_newlines_clean (s : string) :
  occurs newline (remove_newlines s) = false.
Proof.
  induction s as [|x s IH]; cbn [occurs remove_newlines]; [reflexivity|].
  destruct (Ascii.eqb x newline) eqn:E; [exact IH|].
  cbn [occurs]. rewrite Ascii.eqb_sym, E. exact IH.
Qed.

Lemma remove_newlines_keeps (c : ascii) (s : string) :
  occurs c s = false -> occurs c (remove_newlines s) = false.
Proof.
  induction s as [|x s IH]; cbn [occurs remove_newlines]; [reflexivity|].
  intros H. apply orb_false_iff in H as [H1 H2].
  destruct (Ascii.eqb x newline); cbn [occurs]; [auto|]. rewrite H1. auto.
Qed.

Lemma join_extend (c : ascii) (l : list string) :
  join (extend c l) = String c (join l).
Proof. destruct l; reflexivity. Qed.

(** No match of the pattern holds a tab. *)
Lemma findall_no_tab (text : string) (in_match at_line_start : bool) :
  occurs tab (join (findall in_match at_line_start text)) = false.
Proof.
  revert in_match at_line_start.
  induction text as [|c text IH]; intros in_match at_line_start.
  - now destruct in_match.
  - cbn [findall]. destruct in_match.
    + destruct (Ascii.eqb c tab) eqn:E; [exact (IH false false)|].
      rewrite join_extend. cbn [occurs].
      rewrite Ascii.eqb_sym, E. exact (IH true false).
    + destruct (at_line_start && negb (Ascii.eqb c tab)) eqn:E.
      * apply andb_true_iff in E as [_ E]. apply negb_true_iff in E.
        rewrite join_extend. cbn [occurs].
        rewrite Ascii.eqb_sym, E. exact (IH true false).
      * apply IH.
Qed.

Lemma names_in_match_cons (c : ascii) (rest : string) (b : bool) :
  Ascii.eqb c tab = false ->
  names true b (String c rest)
  = if Ascii.eqb c newline then names true false rest
    else String c (names true false rest).
Proof.
  intros H. unfold names. cbn [findall]. rewrite H, join_extend.
  reflexivity.
Qed.

Lemma names_in_match_tab (rest : string) (b : bool) :
  names true b (String tab rest) = names false false rest.
Proof. reflexivity. Qed.

Lemma names_line_start_tab (rest : string) :
  names false true (String tab rest) = names false false rest.
Proof. reflexivity. Qed.

Lemma names_line_start_cons (c : ascii) (rest : string) :
  Ascii.eqb c tab = false ->
  names false true (String c rest) = names true false (String c rest).
Proof. intros H. unfold names. cbn [findall andb]. now rewrite H. Qed.

Lemma names_skip (c : ascii) (rest : string) :
  names false false (String c rest) = names false (Ascii.eqb c newline) rest.
Proof. reflexivity. Qed.

Lemma names_in_match (s rest : string) (b : bool) :
  occurs tab s = false ->
  names true b (s ++ rest) = remove_newlines s ++ names true false rest.
Proof.
  revert b. induction s as [|c s IH]; intros b H.
  - cbn [String.append remove_newlines]. unfold names.
    destruct rest as [|c rest]; reflexivity.
  - cbn [occurs] in H. apply orb_false_iff in H as [H1 H2].
    rewrite Ascii.eqb_sym in H1.
    cbn [String.append]. rewrite names_in_match_cons by exact H1.
    cbn [remove_newlines].
    destruct (Ascii.eqb c newline); cbn [String.append];
      now rewrite (IH false H2).
Qed.

Lemma names_skip_line (node rest : string) :
  occurs newline node = false ->
  names false false (node ++ String newline rest) = names false true rest.
Proof.
  induction node as [|c node IH]; intros H.
  - reflexivity.
  - cbn [occurs] in H. apply orb_false_iff in H as [H1 H2].
    rewrite Ascii.eqb_sym in H1.
    cbn [String.append]. rewrite names_skip, H1. exact (IH H2).
Qed.

Lemma names_nodes_from_line_start (nodes : list string) (rest : string) :
  Forall (fun node => occurs newline node = false) nodes ->
  names false true
    (fold_right (fun node r => String tab (node ++ String newline r))
       (String newline rest) nodes)
  = names true false rest.
Proof.
  induction 1 as [|node nodes Hnode _ IH]; cbn [fold_right].
  - rewrite names_line_start_cons by reflexivity.
    now rewrite names_in_match_cons by reflexivity.
  - rewrite names_line_start_tab, names_skip_line by exact Hnode. exact IH.
Qed.

Lemma names_nodes_in_match (nodes : list string) (rest : string) (b : bool) :
  Forall (fun node => occurs newline node = false) nodes ->
  names true b
    (fold_right (fun node r => String tab (node ++ String newline r))
       (String newline rest) nodes)
  = names true false rest.
Proof.
  intros H. destruct H as [|node nodes Hnode Hnodes]; cbn [fold_right].
  - now rewrite names_in_match_cons by reflexivity.
  - rewrite names_in_match_tab, names_skip_line by exact Hnode.
    now apply names_nodes_from_line_start.
Qed.

Lemma nodes_app (nodes : list string) (base rest : string) :
  fold_right (fun node r => String tab (node ++ String newline r)) base nodes
  ++ rest
  = fold_right (fun node r => String tab (node ++ String newline r))
      (base ++ rest) nodes.
Proof.
  induction nodes as [|node nodes IH]; cbn [fold_right]; [reflexivity|].
  cbn [String.append]. rewrite string_app_assoc. cbn [String.append].
  now rewrite IH.
Qed.

Lemma names_device (name : string) (nodes : list string) (rest : string)
    (b : bool) :
  occurs tab name = false -> occurs newline name = false ->
  Forall (fun node => occurs newline node = false) nodes ->
  names true b (device name nodes ++ rest) = name ++ names true false rest.
Proof.
  intros Htab Hnl Hnodes. unfold device.
  rewrite string_app_assoc. cbn [String.append]. rewrite nodes_app.
  cbn [String.append].
  rewrite names_in_match by exact Htab.
  rewrite remove_newlines_none by exact Hnl. f_equal.
  rewrite names_in_match_cons by reflexivity.
  change (Ascii.eqb newline newline) with true. cbv iota.
  now apply names_nodes_in_match.
Qed.

(** A search that starts on a character other than a tab goes on as if
    it had been in a match already. *)
Lemma names_start (text : string) :
  (forall rest, text <> String tab rest) ->
  names false true text = names true false text.
Proof.
  destruct text as [|c text]; intros H; [reflexivity|].
  destruct (Ascii.eqb c tab) eqn:E.
  - apply Ascii.eqb_eq in E. subst c. now contradiction (H text).
  - now apply names_line_start_cons.
Qed.

Lemma names_listing_in_match (devices : list (string * list string)) :
  Forall device_ok devices ->
  names true false (listing devices) = join (map fst devices).
Proof.
  induction 1 as [|[name nodes] devices (Htab & Hnl & Hnodes) _ IH];
    [reflexivity|].
  change (listing ((name, nodes) :: devices))
    with (device name nodes ++ listing devices).
  cbn [fst snd] in Htab, Hnl, Hnodes.
  rewrite names_device by assumption. now rewrite IH.
Qed.

Lemma names_listing (devices : list (string * list string)) :
  Forall device_ok devices ->
  names false true (listing devices) = join (map fst devices).
Proof.
  intros H. rewrite names_start; [now apply names_listing_in_match|].
  destruct H as [|[name nodes] devices (Htab & _) _]; [discriminate|].
  cbn [listing fold_right fst snd]. unfold device.
  destruct name as [|c name]; [discriminate|].
  cbn [occurs] in Htab. apply orb_false_iff in Htab as [Hc _].
  intros rest. cbn [String.append]. intros [= -> _]. discriminate.
Qed.

Lemma collect_base (h : host) (key : string) :
  key = "os" \/ key = "os_ver" \/ key = "arch" ->
  collect h !! key
  = Some (let '(os, _, ver, _, arch, _) := uname h in
          if String.eqb key "os" then os
          else if String.eqb key "os_ver" then ver else arch).
Proof.
  unfold collect, tag_if_any.
  destruct (uname h) as [[[[[os node] ver] version] arch] processor].
  intros [-> | [-> | ->]]; cbn [String.eqb Ascii.eqb Bool.eqb];
    destruct (v4l2_ctl h) as [v|], (lsusb h) as [u|];
    repeat match goal with
           | |- context [if ?b then _ else _] => destruct b
           end;
    repeat (rewrite lookup_insert_ne by discriminate);
    now rewrite ?lookup_insert_eq.
Qed.

Lemma collect_v4l2 (h : host) :
  collect h !! "v4l2"
  = match v4l2_ctl h with
    | Some text =>
        if String.eqb (names false true text) "" then None
        else Some (names false true text)
    | None => None
    end.
Proof.
  unfold collect, tag_if_any, names.
  destruct (uname h) as [[[[[os node] ver] version] arch] processor].
  destruct (v4l2_ctl h) as [v|], (lsusb h) as [u|];
    repeat match goal with
           | |- context [if ?b then _ else _] => destruct b
           end;
    repeat (rewrite lookup_insert_ne by discriminate);
    now rewrite ?lookup_insert_eq, ?lookup_empty.
Qed.

Lemma collect_usb (h : host) :
  collect h !! "usb"
  = match lsusb h with
    | Some text =>
        if String.eqb (remove_newlines text) "" then None
        else Some (remove_newlines text)
    | None => None
    end.
Proof.
  unfold collect, tag_if_any.
  destruct (uname h) as [[[[[os node] ver] version] arch] processor].
  destruct (v4l2_ctl h) as [v|], (lsusb h) as [u|];
    repeat match goal with
           | |- context [if ?b then _ else _] => destruct b
           end;
    repeat (rewrite lookup_insert_ne by discriminate);
    now rewrite ?lookup_insert_eq, ?lookup_empty.
Qed.

Lemma collect_not_empty (h : host) : collect h <> ∅.
Proof.
  intros H. pose proof (collect_base h "os" (or_introl eq_refl)) as Hos.
  rewrite H in Hos. unfold tags in Hos. rewrite lookup_empty in Hos.
  discriminate.
Qed.

Lemma truthy_not_empty (t : tags) : t <> ∅ -> truthy (Some t) = true.
Proof.
  intros H. unfold truthy. now rewrite bool_decide_eq_false_2.
Qed.

End SystemTags.

(** X22: [get_tags] collects once. Whatever the cache holds, the call
    leaves the returned dict in the cache, that dict is not empty, and a
    further call returns it again without looking at the host, so a
    command that failed at the first call is never run again. A call
    that finds the cache empty returns the [os], [os_ver] and [arch] of
    [platform.uname()]; [v4l2] and [usb] are absent when their command
    raises, and when present they are non-empty and hold no line feed
    ([v4l2] no tab either). *)
Theorem get_tags_cached (h h' : Tags.host) (system_tags : option Tags.tags) :
  let r := Tags.get_tags h system_tags in
  snd r = Some (fst r)
  /\ fst r <> ∅
  /\ Tags.get_tags h' (snd r) = r
  /\ (Tags.truthy system_tags = false ->
      (forall os node ver version arch processor,
         Tags.uname h = (os, node, ver, version, arch, processor) ->
         fst r !! "os"%string = Some os
         /\ fst r !! "os_ver"%string = Some ver
         /\ fst r !! "arch"%string = Some arch)
      /\ (Tags.v4l2_ctl h = None -> fst r !! "v4l2"%string = None)
      /\ (Tags.lsusb h = None -> fst r !! "usb"%string = None)
      /\ (forall v, fst r !! "v4l2"%string = Some v ->
            v <> ""%string /\ Tags.occurs Tags.newline v = false
            /\ Tags.occurs Tags.tab v = false)
      /\ (forall v, fst r !! "usb"%string = Some v ->
            v <> ""%string /\ Tags.occurs Tags.newline v = false)).
Proof.
  intros r.
  assert (Hr : r = (if Tags.truthy system_tags
                    then (default ∅ system_tags, system_tags)
                    else (Tags.collect h, Some (Tags.collect h)))).
  { subst r. unfold Tags.get_tags.
    destruct system_tags as [cached|]; [|reflexivity].
    now destruct (Tags.truthy (Some cached)). }
  assert (Hcache : snd r = Some (fst r) /\ fst r <> ∅).
  { rewrite Hr. destruct (Tags.truthy system_tags) eqn:E; cbn [fst snd].
    - destruct system_tags as [cached|]; [|discriminate]. cbn [default].
      split; [reflexivity|]. unfold Tags.truthy in E.
      apply negb_true_iff, bool_decide_eq_false in E. exact E.
    - split; [reflexivity | apply collect_not_empty]. }
  destruct Hcache as [Hsnd Hne].
  split; [exact Hsnd|]. split; [exact Hne|]. split.
  - rewrite Hsnd. unfold Tags.get_tags.
    rewrite (truthy_not_empty _ Hne). rewrite <- Hsnd. now destruct r.
  - intros Hfalse. rewrite Hfalse in Hr. subst r. rewrite Hr. cbn [fst].
    split; [|split; [|split; [|split]]].
    + intros os node ver version arch processor Hu.
      rewrite !collect_base by auto. rewrite Hu. repeat split.
    + intros Hv. now rewrite collect_v4l2, Hv.
    + intros Hu. now rewrite collect_usb, Hu.
    + intros v. rewrite collect_v4l2.
      destruct (Tags.v4l2_ctl h) as [text|]; [|discriminate].
      destruct (String.eqb _ "") eqn:E; [discriminate|].
      intros [= <-]. split; [|split].
      * intros Hv. rewrite Hv in E. discriminate.
      * apply remove_newlines_clean.
      * apply remove_newlines_keeps, findall_no_tab.
    + intros v. rewrite collect_usb.
      destruct (Tags.lsusb h) as [text|]; [|discriminate].
      destruct (String.eqb _ "") eqn:E; [discriminate|].
      intros [= <-]. split.
      * intros Hv. rewrite Hv in E. discriminate.
      * apply remove_newlines_clean.
Qed.

(** X23: for a [v4l2-ctl --list-devices] listing (per device: the line
    of its name, the lines of its nodes indented by a tab, an empty
    line), the [v4l2] tag is the names of the devices one after the
    other, the device nodes left out; there is no tag when all names
    are empty. *)
Theorem get_tags_device_names (h : Tags.host)
    (devices : list (string * list string)) :
  Tags.v4l2_ctl h = Some (Tags.listing devices) ->
  Forall Tags.device_ok devices ->
  fst (Tags.get_tags h None) !! "v4l2"%string
  = (if String.eqb (Tags.join (map fst devices)) ""
     then None else Some (Tags.join (map fst devices))).
Proof.
  intros Hv Hok. cbn [Tags.get_tags fst].
  now rewrite collect_v4l2, Hv, names_listing.
Qed.

Lemma get_tags_device_names_witness :
  fst (Tags.get_tags
         {| Tags.uname :=
              ("Linux", "octopi", "5.10.17-v7+", "#1414 SMP", "armv7l", "")%string;
            Tags.v4l2_ctl :=
              Some (Tags.listing
                      [("bcm2835-codec (platform:bcm2835-codec):"%string,
                        ["/dev/video10"; "/dev/video11"]%string);
                       ("USB Camera (usb-3f980000.usb-1.2):"%string,
                        ["/dev/video0"%string])]);
            Tags.lsusb := None |} None) !! "v4l2"%string
  = Some ("bcm2835-codec (platform:bcm2835-codec):"
          ++ "USB Camera (usb-3f980000.usb-1.2):")%string.
Proof.
  rewrite (get_tags_device_names _
             [("bcm2835-codec (platform:bcm2835-codec):"%string,
               ["/dev/video10"; "/dev/video11"]%string);
              ("USB Camera (usb-3f980000.usb-1.2):"%string,
               ["/dev/video0"%string])]).
  - reflexivity.
  - reflexivity.
  - repeat constructor.
Defined.

(** ** The capture loop of the Pi camera server *)

Section Capture.

Import CaptureLoop.

Lemma turn_fresh (self : server) (frame : list byte) (now : Q) :
  turn (new, self) (frame, now)
  = (new, {| last_capture := now; img_q := img_q self ++ [frame] |}).
Proof.
  unfold turn, new, write, seek, read, truncate.
  cbn [buffer pos firstn skipn repeat Nat.sub length Nat.add app fst snd].
  destruct frame; cbn [skipn app]; now rewrite ?app_nil_r.
Qed.

Lemma last_cons_default {A} (x d : A) (l : list A) :
  List.last (x :: l) d = List.last l x.
Proof.
  revert x d. induction l as [|y l IH]; intros x d; [reflexivity|].
  change (List.last (x :: y :: l) d) with (List.last (y :: l) d).
  rewrite IH. symmetry. apply IH.
Qed.

Lemma capture_forever_from (captures : list (list byte * Q)) (self : server) :
  fold_left turn captures (new, self)
  = (new,
     {| last_capture := List.last (map snd captures) (last_capture self);
        img_q := img_q self ++ map fst captures |}).
Proof.
  revert self. induction captures as [|[frame now] captures IH]; intros self.
  - cbn [fold_left map List.last]. rewrite app_nil_r. now destruct self.
  - cbn [fold_left]. rewrite turn_fresh, IH.
    cbn [img_q last_capture map fst snd].
    now rewrite <- app_assoc, last_cons_default.
Qed.

End Capture.

(** X24: [capture_forever] reuses one [BytesIO] for all frames, and
    every chunk it queues is exactly the frame the camera wrote in that
    turn, in order, with nothing left over from an earlier, longer
    frame: after each turn the buffer is empty again and the position
    is 0. [last_capture] ends as the clock reading of the last frame. *)
Theorem capture_forever_chunks (captures : list (list byte * Q))
    (self : CaptureLoop.server) :
  let r := CaptureLoop.capture_forever captures self in
  CaptureLoop.img_q (snd r) = CaptureLoop.img_q self ++ map fst captures
  /\ fst r = CaptureLoop.new
  /\ CaptureLoop.last_capture (snd r)
     = List.last (map snd captures) (CaptureLoop.last_capture self)
  /\ forall capture,
       CaptureLoop.capture_forever (captures ++ [capture]) self
       = (CaptureLoop.new,
          {| CaptureLoop.last_capture := snd capture;
             CaptureLoop.img_q :=
               CaptureLoop.img_q (snd r) ++ [fst capture] |}).
Proof.
  intros r. subst r. unfold CaptureLoop.capture_forever.
  rewrite capture_forever_from. cbn [fst snd CaptureLoop.img_q
    CaptureLoop.last_capture].
  repeat (split; [reflexivity|]).
  intros [frame now]. rewrite fold_left_app, capture_forever_from.
  cbn [fold_left]. now rewrite turn_fresh.
Qed.
